(** * SonicChat: the message relay, its stores and the client encryption layer

    A shallow embedding of the TypeScript sources:
    - [server/src/socket/handlers.ts]   (session registry, message buffer,
      relay protocol handlers),
    - [server/src/routes/messages.ts], [server/src/routes/friends.ts],
      [server/src/routes/auth.ts]        (REST handlers over Firestore),
    - [client/src/utils/encryption.ts], [client/src/hooks/useEncryption.ts].

    JavaScript strings are modelled as [string]; a [Map] whose iteration
    order is observed is an insertion-ordered association list; a [Map]
    that is only looked up is a [gmap]; every call into a collaborator
    (Firestore, Web Crypto, fetch) that can throw takes its outcome, or
    the primitive itself, as an argument. *)

From Stdlib Require Import Strings.String Strings.Ascii Strings.Byte NArith.
From stdpp Require Import gmap strings list fin_maps.

Local Open Scope string_scope.
Local Open Scope list_scope.
Local Open Scope nat_scope.
Local Open Scope stdpp_scope.

(** ** The JavaScript runtime pieces the sources rely on *)

Module Js.

(** [ToBoolean] on a value of type [string | undefined]. *)
Definition truthy (v : option string) : bool :=
  match v with
  | Some s => negb (String.eqb s "")
  | None => false
  end.

(** [a || b] where [a : string | undefined]. *)
Definition or (a b : option string) : option string :=
  if truthy a then a else b.

(** [a || 'literal'] *)
Definition or_default (a : option string) (d : string) : string :=
  match a with
  | Some s => if String.eqb s "" then d else s
  | None => d
  end.

(** [Array.prototype.sort()] without comparator, on strings: ascending by
    code units, stable.  Written as an insertion sort. *)
Fixpoint sort_insert (x : string) (l : list string) : list string :=
  match l with
  | [] => [x]
  | y :: l' => if String.leb x y then x :: y :: l' else y :: sort_insert x l'
  end.

Fixpoint sort (l : list string) : list string :=
  match l with
  | [] => []
  | x :: l' => sort_insert x (sort l')
  end.

(** [Array.prototype.join(sep)] on strings. *)
Fixpoint join (sep : string) (l : list string) : string :=
  match l with
  | [] => ""
  | [x] => x
  | x :: l' => x +:+ sep +:+ join sep l'
  end.

(** A [Map<string, V>] whose iteration order matters: association list in
    insertion order, keys unique. *)
Section OrderedMap.
Context {V : Type}.

Fixpoint map_get (k : string) (m : list (string * V)) : option V :=
  match m with
  | [] => None
  | (k', v) :: m' => if String.eqb k k' then Some v else map_get k m'
  end.

(** [m.set(k, v)]: an existing key keeps its position. *)
Fixpoint map_set (k : string) (v : V) (m : list (string * V)) : list (string * V) :=
  match m with
  | [] => [(k, v)]
  | (k', v') :: m' =>
      if String.eqb k k' then (k', v) :: m' else (k', v') :: map_set k v m'
  end.

Fixpoint map_delete (k : string) (m : list (string * V)) : list (string * V) :=
  match m with
  | [] => []
  | (k', v') :: m' =>
      if String.eqb k k' then map_delete k m' else (k', v') :: map_delete k m'
  end.

Definition map_values (m : list (string * V)) : list V := m.*2.
Definition map_keys (m : list (string * V)) : list string := m.*1.

End OrderedMap.

(** A [Set<string>] in insertion order. *)
Definition set_has (x : string) (s : list string) : bool :=
  existsb (String.eqb x) s.

Definition set_add (x : string) (s : list string) : list string :=
  if set_has x s then s else s ++ [x].

Definition set_delete (x : string) (s : list string) : list string :=
  filter (λ y, y ≠ x) s.

End Js.

(** ** Ephemeral message buffer ([messageStore] in socket/handlers.ts) *)

Module Store.

Record StoredMessage := {
  _id : string;
  content : string;
  sender : string;
  senderUsername : string;
  room : string;
  type : string;
  time : string
}.

(** [addMessageToStore]: create the room's array when absent, push, and
    shift once when the length exceeds 100. *)
Definition addMessageToStore (room : string) (message : StoredMessage)
    (messageStore : gmap string (list StoredMessage)) : gmap string (list StoredMessage) :=
  let messageStore :=
    if decide (is_Some (messageStore !! room)) then messageStore
    else <[room := []]> messageStore in
  let messages := default [] (messageStore !! room) in
  let messages := messages ++ [message] in
  let messages := if decide (100 < length messages) then tail messages else messages in
  <[room := messages]> messageStore.

(** [getMessagesFromStore] *)
Definition getMessagesFromStore (room : string)
    (messageStore : gmap string (list StoredMessage)) : list StoredMessage :=
  default [] (messageStore !! room).

(** A run of appends, as the relay performs them one after the other. *)
Definition appendAll (ops : list (string * StoredMessage))
    (messageStore : gmap string (list StoredMessage)) : gmap string (list StoredMessage) :=
  foldl (λ st op, addMessageToStore op.1 op.2 st) messageStore ops.

(** The messages of a run that were appended to [room], in order. *)
Definition appendedTo (room : string) (ops : list (string * StoredMessage)) : list StoredMessage :=
  (filter (λ op, op.1 = room) ops).*2.

(** The last [n] entries of a sequence, oldest first. *)
Definition lastN {A} (n : nat) (l : list A) : list A := drop (length l - n) l.

(** *** Auxiliary definitions and sample data *)

Definition trim (l : list StoredMessage) : list StoredMessage :=
  if decide (100 < length l) then tail l else l.

Definition numbered (room : string) (i : nat) : string * StoredMessage :=
  (room, {| _id := String (ascii_of_nat i) EmptyString; content := "hello"; sender := "alice";
            senderUsername := "Alice"; room := room; type := "text"; time := "t" |}).

End Store.

(** ** Direct-message room names *)

Module Room.

(** socket/handlers.ts, [send_private_message]:
    [`dm_${[socket.odlserId, data.recipientId].sort().join('_')}`] *)
Definition dmRoom (odlserId recipientId : string) : string :=
  "dm_" +:+ Js.join "_" (Js.sort [odlserId; recipientId]).

(** routes/messages.ts, [GET /dm/:recipientId]:
    [`dm_${[req.userId, recipientId].sort().join('_')}`] *)
Definition dmRoom_messages (userId recipientId : string) : string :=
  "dm_" +:+ Js.join "_" (Js.sort [userId; recipientId]).

(** routes/friends.ts, [GET /dm/:friendId]:
    [`dm_${[req.userId, friendId].sort().join('_')}`] *)
Definition dmRoom_friends (userId friendId : string) : string :=
  "dm_" +:+ Js.join "_" (Js.sort [userId; friendId]).

(** The derivation in the words of the specification: "dm_" followed by
    the two ids, sorted, joined with "_". *)
Definition deriveRoom_spec (a b : string) : string :=
  if String.leb a b then "dm_" +:+ a +:+ "_" +:+ b else "dm_" +:+ b +:+ "_" +:+ a.

End Room.

(** ** The relay: socket/handlers.ts *)

Module Socket.
(** [AuthenticatedSocket]: the socket's own id and the three fields the
    handshake middleware fills in. *)
Record AuthenticatedSocket := {
  id : string;
  odlserId : option string;
  username : option string;
  firebaseUid : option string
}.
End Socket.

Module Session.
(** A value of [onlineUsers]. *)
Record UserData := {
  odlserId : string;
  username : string;
  rooms : list string;
  firebaseUid : option string
}.
End Session.

Module MessageData.
Record MessageData := {
  room : string;
  content : string;
  type : option string
}.
End MessageData.

Module PrivateMessageData.
Record PrivateMessageData := {
  recipientId : string;
  content : string;
  type : option string
}.
End PrivateMessageData.

Module Relay.
Import Store.
Export Socket.

Inductive FieldValue := serverTimestamp.

(** The payload of [receive_message]: [{ _id: docRef.id, ...messageData,
    sender, time }]. *)
Record RoomMessage := {
  rm_id : string;
  rm_content : string;
  rm_senderId : option string;
  rm_senderUsername : option string;
  rm_room : string;
  rm_type : string;
  rm_createdAt : FieldValue;
  rm_sender : option string;
  rm_time : string
}.

(** Events the relay emits to clients. *)
Inductive Event :=
| user_status_change (odlserId username : option string) (status : string)
| user_joined (odlserId username : option string) (room : string)
| user_left (odlserId username : option string) (room : string)
| room_users (room : string) (users : list (string * string))
| receive_message (m : RoomMessage)
| receive_private_message (m : StoredMessage)
| online_users (users : list (string * string))
| user_typing (odlserId username : option string) (room : string)
| user_stopped_typing (odlserId username : option string) (room : string)
| friend_request_received (senderId senderUsername : option string)
| friend_request_accepted (accepterId accepterUsername : option string)
| friend_request_rejected (rejecterId : option string)
| error (message : string).

(** One delivery: the socket that receives, and what it receives. *)
Definition Delivery : Type := string * Event.

(** The process state: socket.io's namespace and adapter, and the three
    module-level maps of handlers.ts. *)
Record State := {
  sockets : list AuthenticatedSocket;
  adapter : gmap string (gset string);
  onlineUsers : list (string * Session.UserData);
  userSockets : gmap string string;
  messageStore : gmap string (list StoredMessage)
}.

Definition initial : State :=
  {| sockets := []; adapter := ∅; onlineUsers := []; userSockets := ∅;
     messageStore := ∅ |}.

Definition with_adapter (a : gmap string (gset string)) (st : State) : State :=
  {| sockets := sockets st; adapter := a; onlineUsers := onlineUsers st;
     userSockets := userSockets st; messageStore := messageStore st |}.

Definition with_sockets (l : list AuthenticatedSocket) (st : State) : State :=
  {| sockets := l; adapter := adapter st; onlineUsers := onlineUsers st;
     userSockets := userSockets st; messageStore := messageStore st |}.

Definition with_registry (o : list (string * Session.UserData))
    (u : gmap string string) (st : State) : State :=
  {| sockets := sockets st; adapter := adapter st; onlineUsers := o;
     userSockets := u; messageStore := messageStore st |}.

Definition with_messageStore (m : gmap string (list StoredMessage)) (st : State) : State :=
  {| sockets := sockets st; adapter := adapter st; onlineUsers := onlineUsers st;
     userSockets := userSockets st; messageStore := m |}.

(** *** socket.io primitives *)

(** The sockets currently in a room of the adapter. *)
Definition members (st : State) (room : string) : list string :=
  elements (default ∅ (adapter st !! room)).

(** [io.emit(ev)] *)
Definition io_emit (st : State) (ev : Event) : list Delivery :=
  (λ s, (id s, ev)) <$> sockets st.

(** [io.to(room).emit(ev)] *)
Definition io_to_emit (st : State) (room : string) (ev : Event) : list Delivery :=
  (λ sid, (sid, ev)) <$> members st room.

(** [socket.to(room).emit(ev)]: the room without the socket itself. *)
Definition socket_to_emit (st : State) (socket : AuthenticatedSocket)
    (room : string) (ev : Event) : list Delivery :=
  (λ sid, (sid, ev)) <$> filter (λ sid, sid ≠ id socket) (members st room).

(** [socket.emit(ev)] *)
Definition socket_emit (socket : AuthenticatedSocket) (ev : Event) : list Delivery :=
  [(id socket, ev)].

(** [socket.join(room)] *)
Definition socket_join (socket : AuthenticatedSocket) (room : string) (st : State) : State :=
  with_adapter (<[room := {[id socket]} ∪ default ∅ (adapter st !! room)]> (adapter st)) st.

(** [socket.leave(room)]: an emptied room is dropped from the adapter. *)
Definition socket_leave (socket : AuthenticatedSocket) (room : string) (st : State) : State :=
  match adapter st !! room with
  | Some s =>
      let s' := s ∖ {[id socket]} in
      if decide (s' = ∅) then with_adapter (delete room (adapter st)) st
      else with_adapter (<[room := s']> (adapter st)) st
  | None => st
  end.

(** What socket.io does before the ['connection'] listener runs: the
    socket enters the namespace and joins the room named by its id. *)
Definition nsp_add (socket : AuthenticatedSocket) (st : State) : State :=
  socket_join socket (id socket) (with_sockets (sockets st ++ [socket]) st).

(** What socket.io does before the ['disconnect'] listener runs: the
    socket leaves every room and the namespace. *)
Definition nsp_remove (socket : AuthenticatedSocket) (st : State) : State :=
  with_adapter
    (filter (λ kv, kv.2 ≠ ∅) ((λ s, s ∖ {[id socket]}) <$> adapter st))
    (with_sockets (filter (λ s, id s ≠ id socket) (sockets st)) st).

(** The deliveries that reach one socket, in order. *)
Definition received (sid : string) (out : list Delivery) : list Event :=
  (filter (λ d, d.1 = sid) out).*2.

(** *** The handshake middleware, [io.use] *)

Record Handshake := {
  token : option string;
  hs_firebaseUid : option string;
  hs_username : option string
}.

(** What [getDocs(query(users, where firebaseUid == ...))] did: it threw,
    or it returned documents [(id, data().username)]. *)
Inductive QueryResult :=
| getDocs_throws
| getDocs_docs (docs : list (string * option string)).

(** How the middleware ends: [next()] with the socket's fields set, or
    [next(new Error(msg))]. *)
Inductive Next :=
| next (socket : AuthenticatedSocket)
| next_Error (msg : string).

(** [updateDoc_ok] is the outcome of the write that sets
    [status: 'online']: [false] when it throws. *)
Definition io_use (socket_id : string) (auth : Handshake)
    (querySnapshot : QueryResult) (updateDoc_ok : bool) : Next :=
  if negb (Js.truthy (token auth)) || negb (Js.truthy (hs_firebaseUid auth))
  then next_Error "Authentication required"
  else
    match querySnapshot with
    | getDocs_throws => next_Error "Authentication failed"
    | getDocs_docs [] => next_Error "User not found"
    | getDocs_docs ((userDoc_id, userData_username) :: _) =>
        let socket :=
          {| id := socket_id;
             odlserId := Some userDoc_id;
             username := Js.or userData_username (hs_username auth);
             firebaseUid := hs_firebaseUid auth |} in
        if updateDoc_ok then next socket
        else next_Error "Authentication failed"
    end.

(** *** [io.on('connection', ...)] *)

Definition connection (socket : AuthenticatedSocket) (st : State) : State * list Delivery :=
  let st :=
    match odlserId socket, username socket with
    | Some uid, Some name =>
        if negb (String.eqb uid "") && negb (String.eqb name "") then
          with_registry
            (Js.map_set (id socket)
               {| Session.odlserId := uid; Session.username := name;
                  Session.rooms := []; Session.firebaseUid := firebaseUid socket |}
               (onlineUsers st))
            (<[uid := id socket]> (userSockets st))
            st
        else st
    | _, _ => st
    end in
  (st, io_emit st (user_status_change (odlserId socket) (username socket) "online")).

(** [userData.rooms.add(room)] / [.delete(room)] on the entry of
    [onlineUsers] (the entry is mutated in place). *)
Definition update_rooms (f : list string → list string) (sid : string)
    (m : list (string * Session.UserData)) : list (string * Session.UserData) :=
  match Js.map_get sid m with
  | Some userData =>
      Js.map_set sid
        {| Session.odlserId := Session.odlserId userData;
           Session.username := Session.username userData;
           Session.rooms := f (Session.rooms userData);
           Session.firebaseUid := Session.firebaseUid userData |} m
  | None => m
  end.

(** The connections whose session has [room] in its room set, in the
    order [onlineUsers] iterates: the scan [join_room] performs. *)
Definition roomMembers (st : State) (room : string) : list string :=
  (filter (λ e, Js.set_has room (Session.rooms e.2) = true) (onlineUsers st)).*1.

(** [Array.from(onlineUsers.values()).filter(u => u.rooms.has(room))
       .map(u => ({ odlserId: u.odlserId, username: u.username }))] *)
Definition roomUsers (st : State) (room : string) : list (string * string) :=
  (λ u, (Session.odlserId u, Session.username u)) <$>
    filter (λ u, Js.set_has room (Session.rooms u) = true) (Js.map_values (onlineUsers st)).

Definition join_room (socket : AuthenticatedSocket) (room : string) (st : State)
    : State * list Delivery :=
  let st := socket_join socket room st in
  let st :=
    with_registry (update_rooms (Js.set_add room) (id socket) (onlineUsers st))
      (userSockets st) st in
  let notify :=
    socket_to_emit st socket room (user_joined (odlserId socket) (username socket) room) in
  (st, notify ++ socket_emit socket (room_users room (roomUsers st room))).

Definition leave_room (socket : AuthenticatedSocket) (room : string) (st : State)
    : State * list Delivery :=
  let st := socket_leave socket room st in
  let st :=
    with_registry (update_rooms (Js.set_delete room) (id socket) (onlineUsers st))
      (userSockets st) st in
  (st, socket_to_emit st socket room (user_left (odlserId socket) (username socket) room)).

(** [send_message]: [addDoc] is the outcome of the Firestore write, the
    new document's id or [None] when it throws; [now] is
    [new Date().toISOString()]. *)
Definition send_message (socket : AuthenticatedSocket) (data : MessageData.MessageData)
    (addDoc : option string) (now : string) (st : State) : State * list Delivery :=
  match addDoc with
  | Some docRef_id =>
      (st, io_to_emit st (MessageData.room data)
             (receive_message
                {| rm_id := docRef_id;
                   rm_content := MessageData.content data;
                   rm_senderId := odlserId socket;
                   rm_senderUsername := username socket;
                   rm_room := MessageData.room data;
                   rm_type := Js.or_default (MessageData.type data) "text";
                   rm_createdAt := serverTimestamp;
                   rm_sender := odlserId socket;
                   rm_time := now |}))
  | None => (st, socket_emit socket (error "Failed to send message"))
  end.

(** [send_private_message]: [messageId] is [generateMessageId()], [now]
    the ISO time; [addDoc_ok] is the outcome of the Firestore write, which
    sits in a try/catch of its own. *)
Definition send_private_message (socket : AuthenticatedSocket)
    (data : PrivateMessageData.PrivateMessageData)
    (messageId now : string) (addDoc_ok : bool) (st : State) : State * list Delivery :=
  match odlserId socket with
  | Some uid =>
      if String.eqb uid "" then
        (st, socket_emit socket (error "Authentication required"))
      else
        let dmRoom := Room.dmRoom uid (PrivateMessageData.recipientId data) in
        let message :=
          {| _id := messageId;
             content := PrivateMessageData.content data;
             sender := uid;
             senderUsername := Js.or_default (username socket) "Unknown";
             room := dmRoom;
             type := Js.or_default (PrivateMessageData.type data) "text";
             time := now |} in
        let st := with_messageStore (addMessageToStore dmRoom message (messageStore st)) st in
        let echo := socket_emit socket (receive_private_message message) in
        let recipientSocketId := userSockets st !! PrivateMessageData.recipientId data in
        let to_recipient :=
          match recipientSocketId with
          | Some rsid =>
              if String.eqb rsid "" then []
              else io_to_emit st rsid (receive_private_message message)
          | None => []
          end in
        (st, echo ++ to_recipient)
  | None => (st, socket_emit socket (error "Authentication required"))
  end.

(** [typing_start] and [typing_stop] *)
Definition typing_start (socket : AuthenticatedSocket) (room : string) (st : State)
    : State * list Delivery :=
  (st, socket_to_emit st socket room (user_typing (odlserId socket) (username socket) room)).

Definition typing_stop (socket : AuthenticatedSocket) (room : string) (st : State)
    : State * list Delivery :=
  (st, socket_to_emit st socket room
         (user_stopped_typing (odlserId socket) (username socket) room)).

(** [const sid = userSockets.get(userId); if (sid) io.to(sid).emit(ev)] *)
Definition notify_user (st : State) (userId : string) (ev : Event) : list Delivery :=
  match userSockets st !! userId with
  | Some sid => if String.eqb sid "" then [] else io_to_emit st sid ev
  | None => []
  end.

(** The three friend-event relays. *)
Definition send_friend_request (socket : AuthenticatedSocket) (recipientId : string)
    (st : State) : State * list Delivery :=
  (st, notify_user st recipientId
         (friend_request_received (odlserId socket) (username socket))).

Definition accept_friend_request (socket : AuthenticatedSocket) (senderId : string)
    (st : State) : State * list Delivery :=
  (st, notify_user st senderId
         (friend_request_accepted (odlserId socket) (username socket))).

Definition reject_friend_request (socket : AuthenticatedSocket) (senderId : string)
    (st : State) : State * list Delivery :=
  (st, notify_user st senderId (friend_request_rejected (odlserId socket))).

(** [get_online_users] *)
Definition get_online_users (socket : AuthenticatedSocket) (st : State)
    : State * list Delivery :=
  (st, socket_emit socket
         (online_users
            ((λ u, (Session.odlserId u, Session.username u)) <$>
               Js.map_values (onlineUsers st)))).

(** [disconnect]: [updateDoc_ok] is the outcome of the write that sets
    [status: 'offline'], which sits in a try/catch of its own. *)
Definition disconnect (socket : AuthenticatedSocket) (updateDoc_ok : bool) (st : State)
    : State * list Delivery :=
  let userData := Js.map_get (id socket) (onlineUsers st) in
  let notify :=
    match userData with
    | Some u =>
        flat_map
          (λ room, socket_to_emit st socket room
                     (user_left (odlserId socket) (username socket) room))
          (Session.rooms u)
    | None => []
    end in
  let st :=
    with_registry (Js.map_delete (id socket) (onlineUsers st))
      (match odlserId socket with
       | Some uid => if String.eqb uid "" then userSockets st else delete uid (userSockets st)
       | None => userSockets st
       end) st in
  (st, notify ++ io_emit st (user_status_change (odlserId socket) (username socket) "offline")).

(** *** The relay as a transition system *)

(** What a client, or the transport, makes happen. *)
Inductive Input :=
| Connect (socket : AuthenticatedSocket)
| JoinRoom (socket : AuthenticatedSocket) (room : string)
| LeaveRoom (socket : AuthenticatedSocket) (room : string)
| SendMessage (socket : AuthenticatedSocket) (data : MessageData.MessageData)
    (addDoc : option string) (now : string)
| SendPrivateMessage (socket : AuthenticatedSocket)
    (data : PrivateMessageData.PrivateMessageData) (messageId now : string) (addDoc_ok : bool)
| Disconnect (socket : AuthenticatedSocket) (updateDoc_ok : bool)
| TypingStart (socket : AuthenticatedSocket) (room : string)
| TypingStop (socket : AuthenticatedSocket) (room : string)
| SendFriendRequest (socket : AuthenticatedSocket) (recipientId : string)
| AcceptFriendRequest (socket : AuthenticatedSocket) (senderId : string)
| RejectFriendRequest (socket : AuthenticatedSocket) (senderId : string)
| GetOnlineUsers (socket : AuthenticatedSocket).

Definition handle (i : Input) (st : State) : State * list Delivery :=
  match i with
  | Connect socket => connection socket (nsp_add socket st)
  | JoinRoom socket room => join_room socket room st
  | LeaveRoom socket room => leave_room socket room st
  | SendMessage socket data addDoc now => send_message socket data addDoc now st
  | SendPrivateMessage socket data messageId now ok =>
      send_private_message socket data messageId now ok st
  | Disconnect socket ok => disconnect socket ok (nsp_remove socket st)
  | TypingStart socket room => typing_start socket room st
  | TypingStop socket room => typing_stop socket room st
  | SendFriendRequest socket recipientId => send_friend_request socket recipientId st
  | AcceptFriendRequest socket senderId => accept_friend_request socket senderId st
  | RejectFriendRequest socket senderId => reject_friend_request socket senderId st
  | GetOnlineUsers socket => get_online_users socket st
  end.

(** socket.io's side of the contract: a connecting socket has a fresh id;
    every other input comes from a socket that is connected. *)
Definition admissible (i : Input) (st : State) : Prop :=
  match i with
  | Connect socket => id socket ∉ id <$> sockets st
  | JoinRoom socket _ | LeaveRoom socket _ | SendMessage socket _ _ _
  | SendPrivateMessage socket _ _ _ _ | Disconnect socket _
  | TypingStart socket _ | TypingStop socket _ | SendFriendRequest socket _
  | AcceptFriendRequest socket _ | RejectFriendRequest socket _
  | GetOnlineUsers socket => socket ∈ sockets st
  end.


Inductive reachable : State → Prop :=
| reachable_initial : reachable initial
| reachable_step i st :
    reachable st → admissible i st → reachable (handle i st).1.



(** *** Sample sockets and states, and the full registry invariant *)

Definition alice : AuthenticatedSocket :=
  {| id := "sA"; odlserId := Some "alice"; username := Some "Alice";
     firebaseUid := Some "fa" |}.

Definition bob : AuthenticatedSocket :=
  {| id := "sB"; odlserId := Some "bob"; username := Some "Bob";
     firebaseUid := Some "fb" |}.

Definition run (inputs : list Input) (st : State) : State :=
  foldl (λ st i, (handle i st).1) st inputs.

(** Alice and Bob connected, both in "general". *)
Definition general_room : State :=
  run [Connect alice; Connect bob; JoinRoom alice "general"; JoinRoom bob "general"] initial.

Definition hi : MessageData.MessageData :=
  {| MessageData.room := "general"; MessageData.content := "hi";
     MessageData.type := Some "text" |}.

Definition alice_handshake : Handshake :=
  {| token := Some "id-token"; hs_firebaseUid := Some "fa"; hs_username := Some "Alice" |}.

Definition to_alice : PrivateMessageData.PrivateMessageData :=
  {| PrivateMessageData.recipientId := "alice"; PrivateMessageData.content := "note to self";
     PrivateMessageData.type := None |}.

Definition alice_phone : AuthenticatedSocket :=
  {| id := "sA2"; odlserId := Some "alice"; username := Some "Alice";
     firebaseUid := Some "fa" |}.







End Relay.

(** ** Firestore, as the REST handlers use it *)

Module Firestore.

Inductive Status := pending | accepted | rejected.

Global Instance Status_eq_dec : EqDecision Status.
Proof. solve_decision. Defined.

(** A document of the [friendRequests] collection. *)
Record FriendRequest := {
  senderId : string;
  recipientId : string;
  status : Status
}.

(** A document of the [users] collection; an absent [friends] field is
    the empty list, as [arrayUnion] and [friends || []] treat it. *)
Record User := {
  username : option string;
  avatar : option string;
  presence : option string;
  friends : list string;
  publicKey : option string
}.

Record Db := {
  users : gmap string User;
  friendRequests : gmap string FriendRequest
}.

(** Firestore calls can throw.  Within one request the calls are made
    one after the other and the first throw ends the handler, so one
    request's store failures are described by the index of the call
    that throws, if any. *)
Definition throws (outage : option nat) (call : nat) : bool :=
  bool_decide (outage = Some call).

(** [arrayUnion(x)]: append unless present. *)
Definition arrayUnion (x : string) (l : list string) : list string :=
  if decide (x ∈ l) then l else l ++ [x].

Definition with_status (s : Status) (r : FriendRequest) : FriendRequest :=
  {| senderId := senderId r; recipientId := recipientId r; status := s |}.

Definition with_friends (f : list string) (u : User) : User :=
  {| username := username u; avatar := avatar u; presence := presence u;
     friends := f; publicKey := publicKey u |}.

(** [updateDoc(doc(db, 'friendRequests', id), { status })]; updating a
    document that does not exist throws. *)
Definition update_request_status (requestId : string) (s : Status) (db : Db) : option Db :=
  match friendRequests db !! requestId with
  | Some r =>
      Some {| users := users db;
              friendRequests := <[requestId := with_status s r]> (friendRequests db) |}
  | None => None
  end.

(** [updateDoc(doc(db, 'users', id), { friends: arrayUnion(x) })] *)
Definition update_user_friends_union (userId x : string) (db : Db) : option Db :=
  match users db !! userId with
  | Some u =>
      Some {| users := <[userId := with_friends (arrayUnion x (friends u)) u]> (users db);
              friendRequests := friendRequests db |}
  | None => None
  end.

End Firestore.

(** ** routes/friends.ts: accepting and rejecting a friend request *)

Module Friends.
Import Firestore.

Inductive Response :=
| json (message : string)
| json_friend (message : string) (_id : string) (username avatar : option string)
    (status : string)
| status_json (code : nat) (error : string).

(** [POST /accept/:requestId], for the authenticated [userId]. *)
Definition accept (userId requestId : string) (outage : option nat) (db : Db)
    : Db * Response :=
  let failed := status_json 500 "Failed to accept friend request" in
  if throws outage 0 then (db, failed) else
  match friendRequests db !! requestId with
  | Some requestData =>
      if decide (recipientId requestData ≠ userId ∨ status requestData ≠ pending)
      then (db, status_json 404 "Friend request not found")
      else if throws outage 1 then (db, failed) else
      match update_request_status requestId accepted db with
      | None => (db, failed)
      | Some db1 =>
          if throws outage 2 then (db1, failed) else
          match update_user_friends_union userId (senderId requestData) db1 with
          | None => (db1, failed)
          | Some db2 =>
              if throws outage 3 then (db2, failed) else
              match update_user_friends_union (senderId requestData) userId db2 with
              | None => (db2, failed)
              | Some db3 =>
                  if throws outage 4 then (db3, failed) else
                  let senderData := users db3 !! senderId requestData in
                  (db3,
                   json_friend "Friend request accepted" (senderId requestData)
                     (senderData ≫= username) (senderData ≫= avatar)
                     (Js.or_default (senderData ≫= presence) "offline"))
              end
          end
      end
  | None => (db, status_json 404 "Friend request not found")
  end.

(** [POST /reject/:requestId] *)
Definition reject (userId requestId : string) (outage : option nat) (db : Db)
    : Db * Response :=
  let failed := status_json 500 "Failed to reject friend request" in
  if throws outage 0 then (db, failed) else
  match friendRequests db !! requestId with
  | Some requestData =>
      if decide (recipientId requestData ≠ userId ∨ status requestData ≠ pending)
      then (db, status_json 404 "Friend request not found")
      else if throws outage 1 then (db, failed) else
      match update_request_status requestId rejected db with
      | None => (db, failed)
      | Some db1 => (db1, json "Friend request rejected")
      end
  | None => (db, status_json 404 "Friend request not found")
  end.

(** An attempt to settle a request: who calls, which route, which
    request, and where the store fails, if it does. *)
Inductive Attempt :=
| Accept (userId requestId : string) (outage : option nat)
| Reject (userId requestId : string) (outage : option nat).

Definition attempt (a : Attempt) (db : Db) : Db * Response :=
  match a with
  | Accept userId requestId outage => accept userId requestId outage db
  | Reject userId requestId outage => reject userId requestId outage db
  end.

Definition attempt_request (a : Attempt) : string :=
  match a with Accept _ r _ | Reject _ r _ => r end.

Definition friends_of (db : Db) (userId : string) : list string :=
  default [] (friends <$> users db !! userId).

Definition status_of (db : Db) (requestId : string) : option Status :=
  status <$> friendRequests db !! requestId.


Definition not_found : Response := status_json 404 "Friend request not found".




Definition ann : User :=
  {| username := Some "Ann"; avatar := None; presence := Some "online";
     friends := []; publicKey := None |}.

Definition ben : User :=
  {| username := Some "Ben"; avatar := None; presence := None;
     friends := ["carl"]; publicKey := Some "K" |}.

Definition ann_asks_ben : FriendRequest :=
  {| senderId := "ann"; recipientId := "ben"; status := pending |}.

Definition friends_db : Db :=
  {| users := {[ "ann" := ann; "ben" := ben ]};
     friendRequests := {[ "req1" := ann_asks_ben ]} |}.

End Friends.

(** ** routes/auth.ts: the key directory *)

Module AuthRoutes.
Import Firestore.

Inductive Response :=
| json_publicKey (publicKey : string)
| status_json (code : nat) (error : string).

(** [GET /public-key/:userId], behind [authMiddleware]; [refused] is
    the error of the 401 with which the middleware answered
    ("Authentication required", "Firebase UID required", "User not
    found. Please log in again." or "Authentication failed"), [None]
    when it called [next()]. *)
Definition get_public_key (refused : option string) (userId : string)
    (outage : option nat) (db : Db) : Response :=
  match refused with
  | Some error => status_json 401 error
  | None =>
      if throws outage 0 then status_json 500 "Failed to get public key" else
      match users db !! userId with
      | None => status_json 404 "User not found"
      | Some userData =>
          if Js.truthy (publicKey userData)
          then json_publicKey (default "" (publicKey userData))
          else status_json 404 "User has no public key"
      end
  end.

End AuthRoutes.

(** ** client/src/utils/encryption.ts *)

Module Encryption.

Global Instance byte_eq_dec : EqDecision byte := Byte.byte_eq_dec.

(** How an [async] function ends. *)
Inductive Promise (A : Type) :=
| Resolved (value : A)
| Rejected (reason : string).
Global Arguments Resolved {A} value.
Global Arguments Rejected {A} reason.

(** The browser primitives the file calls; [None] is a throw.  An AES
    [CryptoKey] is represented by its raw bytes. *)
Record Platform := {
  PublicKey : Type;
  PrivateKey : Type;
  (** [subtle.encrypt({name:'RSA-OAEP'}, key, data)], with the random
      seed the padding draws *)
  rsa_oaep_encrypt : PublicKey → list byte → list byte → option (list byte);
  rsa_oaep_decrypt : PrivateKey → list byte → option (list byte);
  (** [subtle.encrypt({name:'AES-GCM', iv}, key, data)]: key, iv, data *)
  aes_gcm_encrypt : list byte → list byte → list byte → option (list byte);
  aes_gcm_decrypt : list byte → list byte → list byte → option (list byte);
  (** [subtle.importKey('spki', ...)] *)
  importKey_spki : list byte → option PublicKey;
  TextEncoder_encode : string → list byte;
  TextDecoder_decode : list byte → string;
  btoa : string → string;
  atob : string → option string
}.

(** What [generateKey] and [getRandomValues] draw in one
    [encryptMessage]. *)
Record Entropy := {
  aesKey : list byte;
  iv : list byte;
  oaep_seed : list byte
}.

Definition byte_of_N (n : N) : byte :=
  default x00 (Byte.of_N (n mod 256)).

(** The four bytes of [new Uint32Array([n]).buffer] (little-endian). *)
Definition Uint32_bytes (n : N) : list byte :=
  [byte_of_N n; byte_of_N (n / 256); byte_of_N (n / 65536); byte_of_N (n / 16777216)].

(** [new Uint32Array(bytes.buffer)[0]]: a [RangeError] unless the byte
    length is a multiple of 4; [undefined] on an empty buffer. *)
Definition Uint32Array_first (bytes : list byte) : option (option N) :=
  match bytes with
  | [] => Some None
  | [b0; b1; b2; b3] =>
      Some (Some (Byte.to_N b0 + 256 * Byte.to_N b1 + 65536 * Byte.to_N b2
                  + 16777216 * Byte.to_N b3)%N)
  | _ => None
  end.

(** [a.slice(start, end)] and [a.slice(start)] on a typed array, for
    non-negative indices. *)
Definition slice (start stop : nat) (a : list byte) : list byte :=
  take (stop - start) (drop start a).

Definition slice_from (start : nat) (a : list byte) : list byte := drop start a.

(** [dst.set(src, offset)]: a [RangeError] when [src] does not fit. *)
Definition set_at (src : list byte) (offset : nat) (dst : list byte) : option (list byte) :=
  if decide (offset + length src ≤ length dst)
  then Some (take offset dst ++ src ++ drop (offset + length src) dst)
  else None.

(** [arrayBufferToBase64] *)
Definition arrayBufferToBase64 (P : Platform) (buffer : list byte) : string :=
  btoa P (string_of_list_byte buffer).

(** [base64ToArrayBuffer] *)
Definition base64ToArrayBuffer (P : Platform) (base64 : string) : option (list byte) :=
  list_byte_of_string <$> atob P base64.

(** [importPublicKey] *)
Definition importPublicKey (P : Platform) (publicKeyBase64 : string) : option (PublicKey P) :=
  base64ToArrayBuffer P publicKeyBase64 ≫= importKey_spki P.

(** [subtle.importKey('raw', keyData, {name:'AES-GCM'}, ...)]: the key
    must have 128, 192 or 256 bits. *)
Definition importKey_raw (keyData : list byte) : option (list byte) :=
  if decide (length keyData = 16 ∨ length keyData = 24 ∨ length keyData = 32)
  then Some keyData else None.

(** The buffer [encryptMessage] assembles: IV (12 bytes), length of the
    encrypted AES key (4 bytes), encrypted AES key, encrypted message,
    written into a zeroed array by four [set]s. *)
Definition combine (iv encryptedKeyArray encryptedMessageArray : list byte)
    : option (list byte) :=
  let combined : list byte :=
    replicate (12 + 4 + length encryptedKeyArray + length encryptedMessageArray) x00 in
  combined ← set_at iv 0 combined;
  combined ← set_at (Uint32_bytes (N.of_nat (length encryptedKeyArray))) 12 combined;
  combined ← set_at encryptedKeyArray 16 combined;
  set_at encryptedMessageArray (16 + length encryptedKeyArray) combined.

(** [encryptMessage] *)
Definition encryptMessage (P : Platform) (e : Entropy) (message : string)
    (publicKey : PublicKey P) : Promise string :=
  let data := TextEncoder_encode P message in
  match aes_gcm_encrypt P (aesKey e) (iv e) data with
  | None => Rejected "OperationError"
  | Some encryptedMessage =>
      match rsa_oaep_encrypt P publicKey (oaep_seed e) (aesKey e) with
      | None => Rejected "OperationError"
      | Some encryptedAesKey =>
          match combine (iv e) encryptedAesKey encryptedMessage with
          | Some combined => Resolved (arrayBufferToBase64 P combined)
          | None => Rejected "RangeError"
          end
      end
  end.

(** The body of the [try] block of [decryptMessage]. *)
Definition decryptMessage_try (P : Platform) (encryptedData : string)
    (privateKey : PrivateKey P) : option string :=
  combined ← base64ToArrayBuffer P encryptedData;
  let iv := slice 0 12 combined in
  let keyLengthBytes := slice 12 16 combined in
  keyLength ← Uint32Array_first keyLengthBytes;
  (* [16 + undefined] is [NaN], which [slice] reads as 0 *)
  let stop := match keyLength with Some n => 16 + N.to_nat n | None => 0 end in
  let encryptedAesKey := slice 16 stop combined in
  let encryptedMessage := slice_from stop combined in
  aesKeyData ← rsa_oaep_decrypt P privateKey encryptedAesKey;
  aesKey ← importKey_raw aesKeyData;
  decryptedData ← aes_gcm_decrypt P aesKey iv encryptedMessage;
  Some (TextDecoder_decode P decryptedData).

(** [decryptMessage]: every throw is caught and answered by a fixed
    string. *)
Definition decryptMessage (P : Platform) (encryptedData : string)
    (privateKey : PrivateKey P) : Promise string :=
  match decryptMessage_try P encryptedData privateKey with
  | Some text => Resolved text
  | None => Resolved "[Unable to decrypt message]"
  end.

(** *** A small platform to run the code on *)

(** Keys are single bytes and a private key matches the public key equal
    to it; "RSA" prefixes the data with the key, "AES" prefixes it with
    key and IV, and both check the prefix when opening; the decoder
    drops a leading byte order mark, as [TextDecoder] does; base64 is
    left out. *)
Definition toy_rsa_decrypt (sk : byte) (c : list byte) : option (list byte) :=
  match c with
  | k :: data => if decide (k = sk) then Some data else None
  | [] => None
  end.

Definition toy_aes_decrypt (key iv c : list byte) : option (list byte) :=
  if decide (take (length key + length iv) c = key ++ iv)
  then Some (drop (length key + length iv) c) else None.

Definition toy_decode (bytes : list byte) : string :=
  match bytes with
  | xef :: xbb :: xbf :: rest => string_of_list_byte rest
  | _ => string_of_list_byte bytes
  end.

Definition toy : Platform :=
  {| PublicKey := byte;
     PrivateKey := byte;
     rsa_oaep_encrypt := λ pk _ data, Some (pk :: data);
     rsa_oaep_decrypt := toy_rsa_decrypt;
     aes_gcm_encrypt := λ key iv data, Some (key ++ iv ++ data);
     aes_gcm_decrypt := toy_aes_decrypt;
     importKey_spki := λ spki, match spki with [k] => Some k | _ => None end;
     TextEncoder_encode := list_byte_of_string;
     TextDecoder_decode := toy_decode;
     btoa := λ binary, binary;
     atob := λ base64, Some base64 |}.

Definition toy_entropy : Entropy :=
  {| aesKey := replicate 32 x2a; iv := replicate 12 x07; oaep_seed := [x01] |}.

End Encryption.

(** ** client/src/hooks/useEncryption.ts *)

Module UseEncryption.
Import Encryption.

(** What [fetch] of the recipient's key gave: a rejected promise, or a
    response with its status and the [publicKey] of its JSON body. *)
Inductive FetchResult :=
| fetch_rejects
| fetch_response (status : nat) (publicKey : option string).

(** [response.ok] *)
Definition ok (status : nat) : bool := (200 <=? status) && (status <=? 299).

(** What the client sees of the server's answer. *)
Definition served (r : AuthRoutes.Response) : FetchResult :=
  match r with
  | AuthRoutes.json_publicKey k => fetch_response 200 (Some k)
  | AuthRoutes.status_json code _ => fetch_response code None
  end.

(** [getRecipientPublicKey]: the key, and [publicKeyCache] afterwards. *)
Definition getRecipientPublicKey (P : Platform) (fetched : FetchResult)
    (recipientId : string) (publicKeyCache : gmap string (PublicKey P))
    : option (PublicKey P) * gmap string (PublicKey P) :=
  match publicKeyCache !! recipientId with
  | Some key => (Some key, publicKeyCache)
  | None =>
      match fetched with
      | fetch_rejects => (None, publicKeyCache)
      | fetch_response status body =>
          if negb (ok status) then (None, publicKeyCache)
          else
            match body ≫= importPublicKey P with
            | Some publicKey => (Some publicKey, <[recipientId := publicKey]> publicKeyCache)
            | None => (None, publicKeyCache)
            end
      end
  end.

(** [encrypt]: the string to send, and [publicKeyCache] afterwards. *)
Definition encrypt (P : Platform) (isReady : bool) (e : Entropy) (fetched : FetchResult)
    (message recipientId : string) (publicKeyCache : gmap string (PublicKey P))
    : string * gmap string (PublicKey P) :=
  if negb isReady then (message, publicKeyCache)
  else
    match getRecipientPublicKey P fetched recipientId publicKeyCache with
    | (None, cache) => (message, cache)
    | (Some recipientPublicKey, cache) =>
        match encryptMessage P e message recipientPublicKey with
        | Resolved encrypted => ("🔒" +:+ encrypted, cache)
        | Rejected _ => (message, cache)
        end
    end.

(** One earlier call of [encrypt] in the page's life. *)
Record Call := {
  call_isReady : bool;
  call_entropy : Entropy;
  call_fetched : FetchResult;
  call_message : string;
  call_recipientId : string
}.

(** [publicKeyCache] after a run of calls, starting from the empty map
    the module creates. *)
Definition cache_after (P : Platform) (history : list Call) : gmap string (PublicKey P) :=
  foldl
    (λ cache c,
       (encrypt P (call_isReady c) (call_entropy c) (call_fetched c)
          (call_message c) (call_recipientId c) cache).2)
    ∅ history.

(** The key directory has no key to give: the request failed, or the
    answer is not a 2xx. *)
Definition returns_none (fetched : FetchResult) : Prop :=
  match fetched with
  | fetch_rejects => True
  | fetch_response status _ => ok status = false
  end.

Definition no_key_yet : FetchResult :=
  served (AuthRoutes.get_public_key None "ann" None Friends.friends_db).

Definition ben_key : FetchResult :=
  served (AuthRoutes.get_public_key None "ben" None Friends.friends_db).

Definition earlier : list Call :=
  [ {| call_isReady := true; call_entropy := toy_entropy; call_fetched := ben_key;
       call_message := "hi Ben"; call_recipientId := "ben" |};
    {| call_isReady := true; call_entropy := toy_entropy; call_fetched := no_key_yet;
       call_message := "hi Ann"; call_recipientId := "ann" |} ].

End UseEncryption.

(** ** A connection's life, as a run of the relay *)

Module RelayRuns.
Import Relay.

(** What one connection does to its rooms between connecting and
    disconnecting. *)
Inductive RoomOp :=
| Join (room : string)
| Leave (room : string).

Definition room_input (socket : AuthenticatedSocket) (op : RoomOp) : Input :=
  match op with
  | Join room => JoinRoom socket room
  | Leave room => LeaveRoom socket room
  end.

(** The socket connects, joins and leaves rooms, and disconnects. *)
Definition session (socket : AuthenticatedSocket) (ops : list RoomOp) (updateDoc_ok : bool)
    : list Input :=
  Connect socket :: (room_input socket <$> ops) ++ [Disconnect socket updateDoc_ok].

Definition carol : AuthenticatedSocket :=
  {| id := "sC"; odlserId := Some "carol"; username := Some "Carol";
     firebaseUid := Some "fc" |}.

Definition to_dave : PrivateMessageData.PrivateMessageData :=
  {| PrivateMessageData.recipientId := "dave"; PrivateMessageData.content := "see you";
     PrivateMessageData.type := None |}.

Definition to_bob : PrivateMessageData.PrivateMessageData :=
  {| PrivateMessageData.recipientId := "bob"; PrivateMessageData.content := "hello Bob";
     PrivateMessageData.type := Some "text" |}.

(** What holds between the connection and the disconnection of a socket
    that was new to the state [st]. *)
Definition during (socket : AuthenticatedSocket) (st mid : State) : Prop :=
  sockets mid = sockets st ++ [socket]
  ∧ messageStore mid = messageStore st
  ∧ (onlineUsers mid = onlineUsers st
     ∨ ∃ v, onlineUsers mid = onlineUsers st ++ [(id socket, v)])
  ∧ userSockets mid = userSockets (connection socket (nsp_add socket st)).1
  ∧ ∀ room, default ∅ (adapter mid !! room) ∖ {[id socket]} = default ∅ (adapter st !! room).

End RelayRuns.

(** ** middleware/auth.ts and the key upload of routes/auth.ts *)

Module AuthMiddleware.

(** How the middleware ends: [next()] with [req.userId], [req.username]
    and [req.firebaseUid] set, or a response. *)
Inductive Outcome :=
| next (userId : string) (username : option string) (firebaseUid : string)
| status_json (code : nat) (error : string).

(** [authMiddleware], on the [Authorization] and [X-Firebase-UID]
    headers and what [getDocs] did for the user query. *)
Definition authMiddleware (authorization x_firebase_uid : option string)
    (querySnapshot : Relay.QueryResult) : Outcome :=
  match authorization with
  | Some authHeader =>
      if String.eqb authHeader "" || negb (String.prefix "Bearer " authHeader)
      then status_json 401 "Authentication required"
      else
        match x_firebase_uid with
        | Some firebaseUid =>
            if String.eqb firebaseUid "" then status_json 401 "Firebase UID required"
            else
              match querySnapshot with
              | Relay.getDocs_throws => status_json 401 "Authentication failed"
              | Relay.getDocs_docs [] =>
                  status_json 401 "User not found. Please log in again."
              | Relay.getDocs_docs ((userDoc_id, userData_username) :: _) =>
                  next userDoc_id userData_username firebaseUid
              end
        | None => status_json 401 "Firebase UID required"
        end
  | None => status_json 401 "Authentication required"
  end.

End AuthMiddleware.

Module KeyUpload.
Import Firestore.

Inductive Response :=
| json (message : string)
| status_json (code : nat) (error : string).

Definition with_publicKey (k : string) (u : User) : User :=
  {| username := username u; avatar := avatar u; presence := presence u;
     friends := friends u; publicKey := Some k |}.

(** [POST /public-key], behind [authMiddleware]: [refused] is the
    error of the 401 with which the middleware answered, [None] when it
    called [next()] with [req.userId] set to [userId]; [publicKey] is
    the field of the request body. *)
Definition post_public_key (refused : option string) (userId : string)
    (publicKey : option string) (outage : option nat) (db : Db) : Db * Response :=
  match refused with
  | Some error => (db, status_json 401 error)
  | None =>
      match publicKey with
      | Some key =>
          if String.eqb key "" then (db, status_json 400 "Public key is required")
          else if throws outage 0 then (db, status_json 500 "Failed to store public key")
          else
            match users db !! userId with
            | Some u =>
                ({| users := <[userId := with_publicKey key u]> (users db);
                    friendRequests := friendRequests db |},
                 json "Public key stored successfully")
            | None => (db, status_json 500 "Failed to store public key")
            end
      | None => (db, status_json 400 "Public key is required")
      end
  end.

End KeyUpload.

(** ** routes/friends.ts: sending, cancelling, unfriending *)

Module FriendRoutes.
Import Firestore.

Inductive Response :=
| json_201 (message : string) (_id : string) (recipient_id : string)
    (username avatar : option string)
| json (message : string)
| status_json (code : nat) (error : string).

(** The documents of the query [where senderId == s, where recipientId
    == r, where status == 'pending']. *)
Definition pending_between (s r : string) (db : Db) : gmap string FriendRequest :=
  filter (λ kv, senderId kv.2 = s ∧ recipientId kv.2 = r ∧ status kv.2 = pending)
    (friendRequests db).

(** [POST /request/:userId] for the authenticated [userId]; [newId] is
    the id Firestore gives the new document. *)
Definition send_request (userId recipientId newId : string) (outage : option nat)
    (db : Db) : Db * Response :=
  let failed := status_json 500 "Failed to send friend request" in
  if decide (recipientId = userId)
  then (db, status_json 400 "Cannot send friend request to yourself") else
  if throws outage 0 then (db, failed) else
  match users db !! recipientId with
  | None => (db, status_json 404 "User not found")
  | Some recipientData =>
      if throws outage 1 then (db, failed) else
      if decide (recipientId ∈ Friends.friends_of db userId)
      then (db, status_json 400 "Already friends with this user") else
      if throws outage 2 then (db, failed) else
      if decide (pending_between userId recipientId db = ∅) then
        if throws outage 3 then (db, failed) else
        if decide (pending_between recipientId userId db = ∅) then
          if throws outage 4 then (db, failed) else
          ({| users := users db;
              friendRequests :=
                <[newId := {| senderId := userId; recipientId := recipientId;
                              status := pending |}]> (friendRequests db) |},
           json_201 "Friend request sent" newId recipientId
             (username recipientData) (avatar recipientData))
        else (db, status_json 400 "This user already sent you a friend request")
      else (db, status_json 400 "Friend request already sent")
  end.

(** [querySnapshot.docs[0].id]: Firestore lists the documents of a query
    without [orderBy] by ascending document id. *)
Definition first_doc_id (docs : gmap string FriendRequest) : option string :=
  head (Js.sort (map_to_list docs).*1).

(** [DELETE /request/:userId] *)
Definition cancel_request (userId otherId : string) (outage : option nat) (db : Db)
    : Db * Response :=
  let failed := status_json 500 "Failed to cancel friend request" in
  if throws outage 0 then (db, failed) else
  match first_doc_id (pending_between userId otherId db) with
  | None => (db, status_json 404 "Friend request not found")
  | Some requestId =>
      if throws outage 1 then (db, failed) else
      ({| users := users db; friendRequests := delete requestId (friendRequests db) |},
       json "Friend request cancelled")
  end.

(** [arrayRemove(x)] *)
Definition arrayRemove (x : string) (l : list string) : list string :=
  filter (λ y, y ≠ x) l.

(** [updateDoc(doc(db, 'users', id), { friends: arrayRemove(x) })] *)
Definition update_user_friends_remove (userId x : string) (db : Db) : option Db :=
  match users db !! userId with
  | Some u =>
      Some {| users := <[userId := with_friends (arrayRemove x (friends u)) u]> (users db);
              friendRequests := friendRequests db |}
  | None => None
  end.

(** [DELETE /:friendId].  The file registers this route twice; Express
    runs the first handler, which ends the response. *)
Definition remove_friend (userId friendId : string) (outage : option nat) (db : Db)
    : Db * Response :=
  let failed := status_json 500 "Failed to remove friend" in
  if throws outage 0 then (db, failed) else
  match update_user_friends_remove userId friendId db with
  | None => (db, failed)
  | Some db1 =>
      if throws outage 1 then (db1, failed) else
      match update_user_friends_remove friendId userId db1 with
      | None => (db1, failed)
      | Some db2 => (db2, json "Friend removed")
      end
  end.

(** A request to one of the routes that write the friend graph. *)
Inductive Op :=
| SendRequest (userId recipientId newId : string) (outage : option nat)
| Settle (a : Friends.Attempt)
| CancelRequest (userId otherId : string) (outage : option nat)
| RemoveFriend (userId friendId : string) (outage : option nat).

Definition step (op : Op) (db : Db) : Db :=
  match op with
  | SendRequest u r n o => (send_request u r n o db).1
  | Settle a => (Friends.attempt a db).1
  | CancelRequest u r o => (cancel_request u r o db).1
  | RemoveFriend u f o => (remove_friend u f o db).1
  end.

(** Firestore never hands out an id that is in use. *)
Fixpoint fresh_ids (ops : list Op) (db : Db) : Prop :=
  match ops with
  | [] => True
  | op :: ops =>
      match op with
      | SendRequest _ _ n _ => friendRequests db !! n = None
      | _ => True
      end ∧ fresh_ids ops (step op db)
  end.

(** At most one pending request between two users, whichever way. *)
Definition one_pending_per_pair (db : Db) : Prop :=
  ∀ id1 id2 r1 r2,
    friendRequests db !! id1 = Some r1 → friendRequests db !! id2 = Some r2 →
    status r1 = pending → status r2 = pending →
    (senderId r1 = senderId r2 ∧ recipientId r1 = recipientId r2)
    ∨ (senderId r1 = recipientId r2 ∧ recipientId r1 = senderId r2) →
    id1 = id2.

(** Ben asks Ann while her request to him is pending, accepts hers, is
    unfriended by her, asks again, and fails to cancel. *)
Definition friends_run : list Op :=
  [ SendRequest "ben" "ann" "req2" None;
    Settle (Friends.Accept "ben" "req1" None);
    RemoveFriend "ann" "ben" None;
    SendRequest "ben" "ann" "req2" None;
    CancelRequest "ben" "ann" (Some 1);
    SendRequest "ben" "ann" "req3" (Some 4) ].

End FriendRoutes.

(** ** client/src/hooks/useEncryption.ts: [decrypt] *)

Module UseDecryption.
Import Encryption.

(** [decrypt], with [privateKeyRef.current].  The lock sign is two
    UTF-16 code units, which [substring(2)] drops; here it is the four
    bytes of its UTF-8 form. *)
Definition decrypt (P : Platform) (privateKeyRef : option (PrivateKey P))
    (encryptedMessage : string) : string :=
  if negb (String.prefix "🔒" encryptedMessage) then encryptedMessage
  else
    match privateKeyRef with
    | None => "[Encrypted message - key not available]"
    | Some privateKey =>
        let ciphertext :=
          String.substring 4 (String.length encryptedMessage - 4) encryptedMessage in
        match decryptMessage P ciphertext privateKey with
        | Resolved text => text
        | Rejected _ => "[Unable to decrypt message]"
        end
    end.

End UseDecryption.

(** ** client/src/utils/encryption.ts: keeping the keys *)

Module KeyStorage.
Import Encryption.

(** The primitives that export and import an RSA key, over the platform
    of [Encryption]; [None] is a throw. *)
Record KeyPlatform := {
  base : Platform;
  exportKey_spki : PublicKey base → option (list byte);
  exportKey_pkcs8 : PrivateKey base → option (list byte);
  importKey_pkcs8 : list byte → option (PrivateKey base)
}.

Definition PRIVATE_KEY_STORAGE_KEY : string := "sschats_private_key".
Definition PUBLIC_KEY_STORAGE_KEY : string := "sschats_public_key".

(** [localStorage]; [setItem] is taken to succeed. *)
Notation LocalStorage := (gmap string string).

(** [exportPublicKey] *)
Definition exportPublicKey (K : KeyPlatform) (publicKey : PublicKey (base K))
    : option string :=
  arrayBufferToBase64 (base K) <$> exportKey_spki K publicKey.

(** [exportPrivateKey] *)
Definition exportPrivateKey (K : KeyPlatform) (privateKey : PrivateKey (base K))
    : option string :=
  arrayBufferToBase64 (base K) <$> exportKey_pkcs8 K privateKey.

(** [importPrivateKey] *)
Definition importPrivateKey (K : KeyPlatform) (privateKeyBase64 : string)
    : option (PrivateKey (base K)) :=
  base64ToArrayBuffer (base K) privateKeyBase64 ≫= importKey_pkcs8 K.

(** [storeKeys]: both exports come before both writes. *)
Definition storeKeys (K : KeyPlatform)
    (keyPair : PublicKey (base K) * PrivateKey (base K)) (localStorage : LocalStorage)
    : option LocalStorage :=
  publicKeyBase64 ← exportPublicKey K keyPair.1;
  privateKeyBase64 ← exportPrivateKey K keyPair.2;
  Some (<[PRIVATE_KEY_STORAGE_KEY := privateKeyBase64]>
          (<[PUBLIC_KEY_STORAGE_KEY := publicKeyBase64]> localStorage)).

(** [getStoredPublicKey] *)
Definition getStoredPublicKey (localStorage : LocalStorage) : option string :=
  localStorage !! PUBLIC_KEY_STORAGE_KEY.

(** [getStoredPrivateKey]: [null] when nothing is stored or the import
    throws. *)
Definition getStoredPrivateKey (K : KeyPlatform) (localStorage : LocalStorage)
    : option (PrivateKey (base K)) :=
  let privateKeyBase64 := localStorage !! PRIVATE_KEY_STORAGE_KEY in
  if negb (Js.truthy privateKeyBase64) then None
  else privateKeyBase64 ≫= importPrivateKey K.

(** [hasStoredKeys] *)
Definition hasStoredKeys (localStorage : LocalStorage) : bool :=
  Js.truthy (localStorage !! PUBLIC_KEY_STORAGE_KEY)
  && Js.truthy (localStorage !! PRIVATE_KEY_STORAGE_KEY).

(** [initializeEncryption]: what it resolves to and [localStorage]
    afterwards; [generated] is what [generateKeyPair] gives if called. *)
Definition initializeEncryption (K : KeyPlatform)
    (generated : option (PublicKey (base K) * PrivateKey (base K)))
    (localStorage : LocalStorage)
    : Promise (string * PrivateKey (base K)) * LocalStorage :=
  let existing :=
    if hasStoredKeys localStorage then
      privateKey ← getStoredPrivateKey K localStorage;
      Some (default "" (getStoredPublicKey localStorage), privateKey)
    else None in
  match existing with
  | Some keys => (Resolved keys, localStorage)
  | None =>
      match generated with
      | None => (Rejected "OperationError", localStorage)
      | Some keyPair =>
          match storeKeys K keyPair localStorage with
          | None => (Rejected "OperationError", localStorage)
          | Some localStorage =>
              match exportPublicKey K keyPair.1 with
              | None => (Rejected "OperationError", localStorage)
              | Some publicKey => (Resolved (publicKey, keyPair.2), localStorage)
              end
          end
      end
  end.

(** The small platform: a key is exported as its one byte. *)
Definition toy_keys : KeyPlatform :=
  {| base := toy;
     exportKey_spki := λ pk : PublicKey toy, Some [pk];
     exportKey_pkcs8 := λ sk : PrivateKey toy, Some [sk];
     importKey_pkcs8 := λ pkcs8, match pkcs8 with [k] => Some (k : PrivateKey toy) | _ => None end |}.

End KeyStorage.

(** ** routes/friends.ts: the history of a conversation *)

Module DmHistory.
Import Firestore Store.

Inductive Response :=
| json_messages (messages : list StoredMessage)
| status_json (code : nat) (error : string).

(** [GET /dm/:friendId] for the authenticated [userId].  [firestore] is
    what the inner [try] block computes from the [messages] collection,
    [None] when the query throws; [messageStore] is the relay's buffer. *)
Definition get_dm_history (userId friendId : string) (outage : option nat)
    (firestore : option (list StoredMessage)) (db : Db)
    (messageStore : gmap string (list StoredMessage)) : Response :=
  if throws outage 0 then status_json 500 "Failed to fetch messages" else
  if decide (friendId ∈ Friends.friends_of db userId) then
    let dmRoom := Room.dmRoom userId friendId in
    match firestore with
    | Some cleanMessages => json_messages cleanMessages
    | None => json_messages (getMessagesFromStore dmRoom messageStore)
    end
  else status_json 403 "You can only chat with friends".

(** Bob lists Alice as a friend; Alice has no document. *)
Definition chat_db : Db :=
  {| users := {[ "bob" := {| username := Some "Bob"; avatar := None; presence := None;
                             friends := ["alice"]; publicKey := None |} ]};
     friendRequests := ∅ |}.

End DmHistory.

(** ** client/src/stores/chatStore.ts, friendsStore.ts and the
    listeners of hooks/useSocket.ts *)

Module Client.

Record TypingUser := {
  userId : option string;
  odlserId : option string;
  username : option string;
  room : string
}.

(** A message as it arrived: the payload of [receive_message] or of
    [receive_private_message]. *)
Inductive Message :=
| room_message (m : Relay.RoomMessage)
| private_message (m : Store.StoredMessage).

Definition message_room (m : Message) : string :=
  match m with
  | room_message m => Relay.rm_room m
  | private_message m => Store.room m
  end.

Definition message_id (m : Message) : string :=
  match m with
  | room_message m => Relay.rm_id m
  | private_message m => Store._id m
  end.

Record Friend := {
  _id : string;
  friend_username : string;
  avatar : string;
  status : string
}.

(** The state of chatStore. *)
Record State := {
  currentRoom : string;
  messages : gmap string (list Message);
  onlineUsers : list (string * string);
  roomUsers : gmap string (list (string * string));
  typingUsers : list TypingUser;
  unreadCounts : gmap string nat
}.

Definition initial : State :=
  {| currentRoom := "general"; messages := ∅; onlineUsers := []; roomUsers := ∅;
     typingUsers := []; unreadCounts := ∅ |}.

Definition with_messages (v : gmap string (list Message)) (s : State) : State :=
  {| currentRoom := currentRoom s; messages := v; onlineUsers := onlineUsers s;
     roomUsers := roomUsers s; typingUsers := typingUsers s;
     unreadCounts := unreadCounts s |}.

Definition with_typingUsers (v : list TypingUser) (s : State) : State :=
  {| currentRoom := currentRoom s; messages := messages s; onlineUsers := onlineUsers s;
     roomUsers := roomUsers s; typingUsers := v;
     unreadCounts := unreadCounts s |}.

Definition with_unreadCounts (v : gmap string nat) (s : State) : State :=
  {| currentRoom := currentRoom s; messages := messages s; onlineUsers := onlineUsers s;
     roomUsers := roomUsers s; typingUsers := typingUsers s;
     unreadCounts := v |}.

(** *** chatStore *)

Definition setCurrentRoom (room : string) (s : State) : State :=
  {| currentRoom := room; messages := messages s; onlineUsers := onlineUsers s;
     roomUsers := roomUsers s; typingUsers := typingUsers s;
     unreadCounts := unreadCounts s |}.

Definition addMessage (room : string) (message : Message) (s : State) : State :=
  with_messages (<[room := default [] (messages s !! room) ++ [message]]> (messages s)) s.

Definition setOnlineUsers (users : list (string * string)) (s : State) : State :=
  {| currentRoom := currentRoom s; messages := messages s; onlineUsers := users;
     roomUsers := roomUsers s; typingUsers := typingUsers s;
     unreadCounts := unreadCounts s |}.

Definition setRoomUsers (room : string) (users : list (string * string)) (s : State)
    : State :=
  {| currentRoom := currentRoom s; messages := messages s; onlineUsers := onlineUsers s;
     roomUsers := <[room := users]> (roomUsers s); typingUsers := typingUsers s;
     unreadCounts := unreadCounts s |}.

Definition addTypingUser (user : TypingUser) (s : State) : State :=
  with_typingUsers
    (if existsb (λ u, bool_decide (userId u = userId user ∧ room u = room user))
          (typingUsers s)
     then typingUsers s
     else typingUsers s ++ [user]) s.

Definition removeTypingUser (userId' : option string) (room' : string) (s : State)
    : State :=
  with_typingUsers
    (filter (λ u, ¬ (userId u = userId' ∧ room u = room')) (typingUsers s)) s.

Definition incrementUnread (room : string) (s : State) : State :=
  with_unreadCounts (<[room := default 0 (unreadCounts s !! room) + 1]> (unreadCounts s)) s.

Definition clearUnread (room : string) (s : State) : State :=
  with_unreadCounts (<[room := 0]> (unreadCounts s)) s.

Definition deleteMessage (room : string) (msgId : string) (s : State) : State :=
  with_messages
    (<[room := filter (λ msg, message_id msg ≠ msgId) (default [] (messages s !! room))]>
       (messages s)) s.

(** *** friendsStore *)

(** [updateFriendStatus], on the [friends] of the store. *)
Definition updateFriendStatus (userId' : option string) (status' : string)
    (friends : list Friend) : list Friend :=
  (λ friend,
     if decide (Some (_id friend) = userId')
     then {| _id := _id friend; friend_username := friend_username friend;
             avatar := avatar friend; status := status' |}
     else friend) <$> friends.

(** *** The listeners of useSocket.ts

    [listening] is the [currentRoom] the effect closed over when it
    registered the listeners.  The relay's payloads carry [odlserId],
    not [userId], so [data.userId] is [undefined].  [on] is what a
    listener does to chatStore; the listeners of [user_status_change]
    and of the friend request events write friendsStore only. *)
Definition on (listening : string) (e : Relay.Event) (s : State) : State :=
  match e with
  | Relay.receive_message m =>
      let s := addMessage (Relay.rm_room m) (room_message m) s in
      if decide (Relay.rm_room m ≠ listening) then incrementUnread (Relay.rm_room m) s
      else s
  | Relay.receive_private_message m =>
      let room := Store.room m in
      if String.eqb room "" then s
      else
        let s := addMessage room (private_message m) s in
        if decide (room ≠ listening) then incrementUnread room s else s
  | Relay.online_users users => setOnlineUsers users s
  | Relay.room_users room users => setRoomUsers room users s
  | Relay.user_typing odlserId' username' room' =>
      addTypingUser
        {| userId := None; odlserId := odlserId'; username := username'; room := room' |} s
  | Relay.user_stopped_typing _ _ room' => removeTypingUser None room' s
  | Relay.user_joined _ _ _ | Relay.user_left _ _ _ | Relay.user_status_change _ _ _
  | Relay.friend_request_received _ _ | Relay.friend_request_accepted _ _
  | Relay.friend_request_rejected _ | Relay.error _ => s
  end.

(** The listener of [user_status_change], on the [friends] of
    friendsStore: [updateFriendStatus(data.userId, data.status)]. *)
Definition on_user_status_change (odlserId' username' : option string) (status' : string)
    (friends : list Friend) : list Friend :=
  updateFriendStatus None status' friends.

(** What happens to chatStore in the life of the page: an event
    arrives, or the user opens the conversation with a friend
    ([handleSelectFriend] of the chat page: [setCurrentRoom(dmRoom)],
    [clearUnread(dmRoom)]). *)
Inductive Action :=
| Receive (e : Relay.Event)
| SelectFriend (dmRoom : string).

Definition act (listening : string) (a : Action) (s : State) : State :=
  match a with
  | Receive e => on listening e s
  | SelectFriend dmRoom => clearUnread dmRoom (setCurrentRoom dmRoom s)
  end.

Definition run (listening : string) (actions : list Action) (s : State) : State :=
  foldl (λ s a, act listening a s) s actions.

(** A direct message from Bob to Alice, as the relay sends it. *)
Definition from_bob : Store.StoredMessage :=
  {| Store._id := "msg_7"; Store.content := "hello"; Store.sender := "bob";
     Store.senderUsername := "Bob"; Store.room := Room.dmRoom "bob" "alice";
     Store.type := "text"; Store.time := "t" |}.

End Client.

(** * Properties *)

(** ** The message buffer *)

Module StoreFacts.
Import Store.

Lemma read_add_same room m st :
  getMessagesFromStore room (addMessageToStore room m st)
  = trim (getMessagesFromStore room st ++ [m]).
Proof.
  unfold getMessagesFromStore, addMessageToStore, trim.
  destruct (decide (is_Some (st !! room))) as [[l Hl] | Hn].
  - rewrite lookup_insert_eq, Hl. reflexivity.
  - rewrite lookup_insert_eq. rewrite lookup_insert_eq.
    apply eq_None_not_Some in Hn. rewrite Hn. reflexivity.
Qed.

Lemma read_add_other room room' m st :
  room' ≠ room →
  getMessagesFromStore room (addMessageToStore room' m st)
  = getMessagesFromStore room st.
Proof.
  intros Hne. unfold getMessagesFromStore, addMessageToStore.
  destruct (decide (is_Some (st !! room'))).
  - by rewrite lookup_insert_ne.
  - by rewrite !lookup_insert_ne.
Qed.

Lemma lastN_length {A} (n : nat) (l : list A) : length (lastN n l) = Nat.min n (length l).
Proof. unfold lastN. rewrite length_drop. lia. Qed.

Lemma lastN_short {A} (n : nat) (l : list A) : length l ≤ n → lastN n l = l.
Proof. intros H. unfold lastN. replace (length l - n) with 0 by lia. reflexivity. Qed.

Lemma lastN_app_long {A} (n : nat) (l1 l2 : list A) :
  n ≤ length l2 → lastN n (l1 ++ l2) = lastN n l2.
Proof.
  intros H. unfold lastN. rewrite length_app.
  replace (length l1 + length l2 - n) with (length l1 + (length l2 - n)) by lia.
  by rewrite drop_app_add.
Qed.

Lemma tail_drop {A} (k : nat) (l : list A) : tail (drop k l) = drop (S k) l.
Proof.
  revert k. induction l as [| x l IH]; intros [| k]; simpl; done.
Qed.

(** Pushing onto the last 100 and trimming is taking the last 100 of
    the longer sequence. *)
Lemma trim_lastN_snoc (l : list StoredMessage) m :
  trim (lastN 100 l ++ [m]) = lastN 100 (l ++ [m]).
Proof.
  destruct (decide (100 ≤ length l)) as [Hl | Hl].
  - assert (length (lastN 100 l ++ [m]) = 101) as Hlen.
    { rewrite length_app, lastN_length. change (length [m]) with 1. lia. }
    unfold trim. rewrite decide_True by lia.
    unfold lastN. rewrite length_app. change (length [m]) with 1.
    replace (length l + 1 - 100) with (S (length l - 100)) by lia.
    rewrite drop_app_le by lia.
    rewrite <- tail_drop.
    destruct (drop (length l - 100) l) as [| x t] eqn:Hd; [| reflexivity].
    apply (f_equal length) in Hd. rewrite length_drop in Hd.
    change (length (@nil StoredMessage)) with 0 in Hd. lia.
  - rewrite (lastN_short 100 l) by lia.
    assert (length (l ++ [m]) ≤ 100) as Hlen.
    { rewrite length_app. change (length [m]) with 1. lia. }
    unfold trim. rewrite decide_False by lia.
    by rewrite lastN_short.
Qed.

Lemma appendedTo_cons_same room m ops :
  appendedTo room ((room, m) :: ops) = m :: appendedTo room ops.
Proof. unfold appendedTo. rewrite filter_cons_True by done. reflexivity. Qed.

Lemma appendedTo_cons_other room room' m ops :
  room' ≠ room → appendedTo room ((room', m) :: ops) = appendedTo room ops.
Proof. intros H. unfold appendedTo. rewrite filter_cons_False by done. reflexivity. Qed.

(** The buffer of a room always is the last 100 of what went into it. *)
Lemma read_appendAll room ops : ∀ st pre,
  getMessagesFromStore room st = lastN 100 pre →
  getMessagesFromStore room (appendAll ops st) = lastN 100 (pre ++ appendedTo room ops).
Proof.
  induction ops as [| [room' m] ops IH]; intros st pre Hst.
  - simpl. rewrite app_nil_r. exact Hst.
  - unfold appendAll. simpl. fold (appendAll ops (addMessageToStore room' m st)).
    destruct (decide (room' = room)) as [-> | Hne].
    + rewrite appendedTo_cons_same.
      rewrite (IH _ (pre ++ [m])).
      * by rewrite <- app_assoc.
      * rewrite read_add_same, Hst. apply trim_lastN_snoc.
    + rewrite appendedTo_cons_other by done.
      apply IH. by rewrite read_add_other.
Qed.

Lemma read_history room history :
  getMessagesFromStore room (appendAll history ∅) = lastN 100 (appendedTo room history).
Proof. apply (read_appendAll room history ∅ []). reflexivity. Qed.

(** C3. For every room, after any earlier history of appends, a run of
    appends of which more than 100 go to the room leaves in the room's
    buffer exactly the last 100 entries appended to it, oldest first. *)
Theorem buffer_read_last_100 (room : string)
    (history ops : list (string * StoredMessage)) :
  100 < length (appendedTo room ops) →
  getMessagesFromStore room (appendAll ops (appendAll history ∅))
    = lastN 100 (appendedTo room ops)
  ∧ length (getMessagesFromStore room (appendAll ops (appendAll history ∅))) = 100.
Proof.
  intros Hlong.
  assert (getMessagesFromStore room (appendAll ops (appendAll history ∅))
          = lastN 100 (appendedTo room ops)) as Heq.
  { rewrite (read_appendAll room ops _ (appendedTo room history)).
    - apply lastN_app_long. lia.
    - apply read_history. }
  split; [exact Heq |].
  rewrite Heq, lastN_length. lia.
Qed.

Lemma buffer_read_last_100_witness :
  getMessagesFromStore "general"
    (appendAll (numbered "general" <$> seq 0 101) (appendAll [numbered "general" 7] ∅))
    = lastN 100 (appendedTo "general" (numbered "general" <$> seq 0 101))
  ∧ length (getMessagesFromStore "general"
      (appendAll (numbered "general" <$> seq 0 101) (appendAll [numbered "general" 7] ∅))) = 100.
Proof.
  apply (buffer_read_last_100 "general" [numbered "general" 7]
           (numbered "general" <$> seq 0 101)).
  vm_compute. lia.
Defined.

End StoreFacts.

(** ** Direct-message room names *)

Module RoomFacts.
Import Room.

Example dmRoom_bob_alice :
  dmRoom "bob" "alice" = "dm_alice_bob" ∧ dmRoom "alice" "bob" = "dm_alice_bob".
Proof. split; reflexivity. Qed.

Lemma sort_pair a b :
  Js.sort [a; b] = if String.leb a b then [a; b] else [b; a].
Proof. reflexivity. Qed.

Lemma sort_pair_comm a b : Js.sort [a; b] = Js.sort [b; a].
Proof.
  rewrite !sort_pair.
  destruct (String.leb a b) eqn:Hab, (String.leb b a) eqn:Hba; try reflexivity.
  - by rewrite (String.leb_antisym a b Hab Hba).
  - destruct (String.leb_total a b); congruence.
Qed.

(** C4. The room name of a direct conversation does not depend on the
    order of the two ids, is "dm_" followed by the two ids in ascending
    order joined with "_", and the relay and both REST endpoints derive
    the same name. *)
Theorem dmRoom_commutative (a b : string) :
  dmRoom a b = dmRoom b a
  ∧ dmRoom a b = deriveRoom_spec a b
  ∧ (∃ lo hi, [lo; hi] ≡ₚ [a; b] ∧ String.leb lo hi = true
              ∧ dmRoom a b = "dm_" +:+ lo +:+ "_" +:+ hi)
  ∧ dmRoom_messages a b = dmRoom a b ∧ dmRoom_messages a b = dmRoom_messages b a
  ∧ dmRoom_friends a b = dmRoom a b ∧ dmRoom_friends a b = dmRoom_friends b a.
Proof.
  assert (dmRoom a b = dmRoom b a) as Hcomm.
  { unfold dmRoom. by rewrite sort_pair_comm. }
  split; [exact Hcomm |].
  split.
  { unfold dmRoom, deriveRoom_spec. rewrite sort_pair.
    destruct (String.leb a b); reflexivity. }
  split.
  { unfold dmRoom. rewrite sort_pair.
    destruct (String.leb a b) eqn:Hab.
    - exists a, b. done.
    - exists b, a. split; [apply Permutation_swap |].
      split; [| reflexivity].
      destruct (String.leb_total a b); congruence. }
  unfold dmRoom_messages, dmRoom_friends. fold (dmRoom a b) (dmRoom b a).
  by rewrite <- Hcomm.
Qed.

End RoomFacts.

(** ** Insertion-ordered maps and sets *)

Module JsFacts.
Import Js.

Section OrderedMap.
Context {V : Type}.
Implicit Types (m : list (string * V)) (k : string) (v : V).

Lemma map_get_set k k' v m :
  map_get k (map_set k' v m) = if String.eqb k k' then Some v else map_get k m.
Proof.
  induction m as [| [k0 v0] m IH]; simpl.
  - reflexivity.
  - destruct (String.eqb_spec k' k0) as [-> | Hne]; simpl.
    + destruct (String.eqb k k0); reflexivity.
    + rewrite IH. destruct (String.eqb_spec k k0) as [-> | Hne']; [| reflexivity].
      destruct (String.eqb_spec k0 k'); congruence.
Qed.

Lemma map_get_set_eq k v m : map_get k (map_set k v m) = Some v.
Proof. by rewrite map_get_set, String.eqb_refl. Qed.

Lemma map_get_set_ne k k' v m : k ≠ k' → map_get k (map_set k' v m) = map_get k m.
Proof.
  intros Hne. rewrite map_get_set. by destruct (String.eqb_spec k k').
Qed.

Lemma map_get_delete k k' m :
  map_get k (map_delete k' m) = if String.eqb k k' then None else map_get k m.
Proof.
  induction m as [| [k0 v0] m IH]; simpl.
  - by destruct (String.eqb k k').
  - destruct (String.eqb_spec k' k0) as [-> | Hne]; simpl.
    + rewrite IH. destruct (String.eqb k k0); reflexivity.
    + rewrite IH. destruct (String.eqb_spec k k0) as [-> | Hne']; [| reflexivity].
      destruct (String.eqb_spec k0 k'); congruence.
Qed.

Lemma map_set_set k v1 v2 m : map_set k v2 (map_set k v1 m) = map_set k v2 m.
Proof.
  induction m as [| [k0 v0] m IH]; simpl.
  - by rewrite String.eqb_refl.
  - destruct (String.eqb_spec k k0) as [-> | Hne]; simpl.
    + by rewrite String.eqb_refl.
    + destruct (String.eqb_spec k k0); [congruence |]. by rewrite IH.
Qed.

Lemma map_get_Some_keys k v m : map_get k m = Some v → k ∈ map_keys m.
Proof.
  unfold map_keys. induction m as [| [k0 v0] m IH]; simpl; [done |].
  destruct (String.eqb_spec k k0) as [-> | Hne]; intros H.
  - apply list_elem_of_here.
  - apply list_elem_of_further. by apply IH.
Qed.

Lemma map_get_elem_of k v m : map_get k m = Some v → (k, v) ∈ m.
Proof.
  induction m as [| [k0 v0] m IH]; simpl; [done |].
  destruct (String.eqb_spec k k0) as [-> | Hne]; intros H.
  - injection H as ->. apply list_elem_of_here.
  - apply list_elem_of_further. by apply IH.
Qed.

Lemma map_keys_set k v m :
  map_keys (map_set k v m) = if decide (k ∈ map_keys m) then map_keys m else map_keys m ++ [k].
Proof.
  unfold map_keys. induction m as [| [k0 v0] m IH].
  - case_decide as Hin; [by apply elem_of_nil in Hin | done].
  - cbn [map_set]. destruct (String.eqb_spec k k0) as [-> | Hne].
    + rewrite decide_True; [done | apply list_elem_of_here].
    + change (((k0, v0) :: map_set k v m).*1) with (k0 :: (map_set k v m).*1).
      change (((k0, v0) :: m).*1) with (k0 :: m.*1).
      rewrite IH.
      destruct (decide (k ∈ m.*1)) as [Hin | Hin].
      * rewrite decide_True; [done | by apply list_elem_of_further].
      * rewrite decide_False; [done |].
        intros [? | ?]%elem_of_cons; done.
Qed.

Lemma map_keys_delete k m : map_keys (map_delete k m) = filter (λ k', k' ≠ k) (map_keys m).
Proof.
  unfold map_keys. induction m as [| [k0 v0] m IH]; [done |].
  change (((k0, v0) :: m).*1) with (k0 :: m.*1).
  cbn [map_delete]. destruct (String.eqb_spec k k0) as [-> | Hne].
  - rewrite filter_cons_False by tauto. exact IH.
  - rewrite filter_cons_True by congruence.
    change (((k0, v0) :: map_delete k m).*1) with (k0 :: (map_delete k m).*1).
    by rewrite IH.
Qed.

Lemma map_set_keys_NoDup k v m : NoDup (map_keys m) → NoDup (map_keys (map_set k v m)).
Proof.
  intros Hnd. rewrite map_keys_set. case_decide; [done |].
  apply NoDup_app. split; [done |]. split.
  - intros x Hx Hx'. apply list_elem_of_singleton in Hx'. by subst.
  - apply NoDup_singleton.
Qed.

Lemma map_delete_keys_NoDup k m : NoDup (map_keys m) → NoDup (map_keys (map_delete k m)).
Proof. intros Hnd. rewrite map_keys_delete. by apply NoDup_filter. Qed.

End OrderedMap.

Lemma set_has_true x s : set_has x s = true ↔ x ∈ s.
Proof.
  unfold set_has. rewrite existsb_exists. split.
  - intros (y & Hy & Heq). apply String.eqb_eq in Heq. subst. by apply list_elem_of_In.
  - intros Hx. exists x. split; [by apply list_elem_of_In | apply String.eqb_refl].
Qed.

Lemma set_has_add x s : set_has x (set_add x s) = true.
Proof.
  unfold set_add. destruct (set_has x s) eqn:H; [done |].
  apply set_has_true. apply elem_of_app. right. apply list_elem_of_here.
Qed.

Lemma set_add_idemp x s : set_add x (set_add x s) = set_add x s.
Proof. unfold set_add at 1. by rewrite set_has_add. Qed.

Lemma filter_eq_absent (x : string) (l : list string) :
  x ∉ l → filter (λ y, y = x) l = [].
Proof.
  induction l as [| y l IH]; intros Hx; [done |].
  apply not_elem_of_cons in Hx as [Hne Hx].
  rewrite filter_cons_False by congruence. by apply IH.
Qed.

(** In a duplicate-free list an element is found exactly once. *)
Lemma filter_eq_NoDup (x : string) (l : list string) :
  NoDup l → x ∈ l → filter (λ y, y = x) l = [x].
Proof.
  induction 1 as [| y l Hy Hnd IH]; intros Hx.
  - by apply elem_of_nil in Hx.
  - destruct (decide (y = x)) as [-> | Hne].
    + rewrite filter_cons_True by done. f_equal. by apply filter_eq_absent.
    + rewrite filter_cons_False by done. apply IH.
      apply elem_of_cons in Hx as [? | ?]; [congruence | done].
Qed.

End JsFacts.

(** ** The relay *)

Module RelayFacts.
Import Js JsFacts Store Relay.

Lemma received_app sid (out1 out2 : list Delivery) :
  received sid (out1 ++ out2) = received sid out1 ++ received sid out2.
Proof. unfold received. by rewrite filter_app, fmap_app. Qed.

Lemma received_to_each sid ev (l : list string) :
  received sid ((λ s, (s, ev)) <$> l) = (λ _, ev) <$> filter (λ s, s = sid) l.
Proof.
  unfold received. induction l as [| s l IH]; [done |].
  rewrite fmap_cons. destruct (decide (s = sid)) as [-> | Hne].
  - rewrite (filter_cons_True (λ d : string * Event, d.1 = sid)) by done.
    rewrite (filter_cons_True (λ s : string, s = sid)) by done.
    rewrite !fmap_cons. f_equal. exact IH.
  - rewrite (filter_cons_False (λ d : string * Event, d.1 = sid)) by done.
    rewrite (filter_cons_False (λ s : string, s = sid)) by done.
    exact IH.
Qed.

(** [io.to(room).emit] reaches a member of the room once, and nobody else. *)
Lemma received_io_to_emit sid st room ev :
  received sid (io_to_emit st room ev)
  = if decide (sid ∈ default ∅ (adapter st !! room)) then [ev] else [].
Proof.
  unfold io_to_emit, members. rewrite received_to_each.
  case_decide as Hin.
  - rewrite filter_eq_NoDup; [done | apply NoDup_elements | by apply elem_of_elements].
  - rewrite filter_eq_absent; [done |]. by rewrite elem_of_elements.
Qed.

Lemma received_socket_emit sid socket ev :
  received sid (socket_emit socket ev) = if decide (id socket = sid) then [ev] else [].
Proof.
  unfold received, socket_emit. case_decide.
  - by rewrite filter_cons_True.
  - by rewrite filter_cons_False.
Qed.

(** *** [send_message] when the Firestore write fails *)

(** C1. When [addDoc] throws in [send_message], the state is unchanged,
    the sender receives one [error] event and nothing else, and no
    connection of the room receives the message. *)
Theorem send_message_store_failure (socket : AuthenticatedSocket)
    (data : MessageData.MessageData) (now : string) (st : State) :
  (send_message socket data None now st).1 = st
  ∧ received (id socket) (send_message socket data None now st).2
    = [error "Failed to send message"]
  ∧ (∀ sid m, receive_message m ∉ received sid (send_message socket data None now st).2).
Proof.
  unfold send_message. cbn [fst snd].
  split; [reflexivity |]. split.
  - rewrite received_socket_emit. by rewrite decide_True.
  - intros sid m. rewrite received_socket_emit.
    case_decide; [| apply not_elem_of_nil].
    intros Hin. apply list_elem_of_singleton in Hin. discriminate.
Qed.

(** With the store up, every connection of the room receives the message
    once, and nobody else receives anything. *)
Lemma send_message_fanout (socket : AuthenticatedSocket)
    (data : MessageData.MessageData) (docRef_id now : string) (st : State) :
  ∃ m, rm_id m = docRef_id ∧ rm_content m = MessageData.content data
       ∧ rm_room m = MessageData.room data
       ∧ ∀ sid, received sid (send_message socket data (Some docRef_id) now st).2
                = if decide (sid ∈ default ∅ (adapter st !! MessageData.room data))
                  then [receive_message m] else [].
Proof.
  eexists. split; [| split; [| split]]; cycle 3.
  - intros sid. unfold send_message. cbn [snd]. apply received_io_to_emit.
  - reflexivity.
  - reflexivity.
  - reflexivity.
Qed.

(** With the store up both members receive the message; with the store
    down Bob receives nothing and Alice an error. *)
Example send_message_general_store_up :
  members general_room "general" = ["sA"; "sB"]
  ∧ (λ d, d.1) <$> (send_message alice hi (Some "doc1") "t" general_room).2 = ["sA"; "sB"].
Proof. vm_compute. done. Qed.

Example send_message_general_store_down :
  members general_room "general" = ["sA"; "sB"]
  ∧ (send_message alice hi None "t" general_room).2
    = [("sA", error "Failed to send message")]
  ∧ received "sB" (send_message alice hi None "t" general_room).2 = [].
Proof. vm_compute. done. Qed.

(** *** The handshake when the presence write fails *)

(** C2. A handshake whose credential and external UID are present and
    whose user is found is refused with "Authentication failed" when the
    write of [status: 'online'] throws; the same handshake is accepted
    when the write succeeds. *)
Theorem handshake_rejected_when_presence_write_fails (socket_id : string)
    (auth : Handshake) (userDoc_id : string) (userData_username : option string)
    (rest : list (string * option string)) :
  Js.truthy (token auth) = true →
  Js.truthy (hs_firebaseUid auth) = true →
  io_use socket_id auth (getDocs_docs ((userDoc_id, userData_username) :: rest)) false
    = next_Error "Authentication failed"
  ∧ io_use socket_id auth (getDocs_docs ((userDoc_id, userData_username) :: rest)) true
    = next {| id := socket_id; odlserId := Some userDoc_id;
              username := Js.or userData_username (hs_username auth);
              firebaseUid := hs_firebaseUid auth |}.
Proof.
  intros Htoken Huid. unfold io_use. rewrite Htoken, Huid. cbn. done.
Qed.

Lemma handshake_rejected_when_presence_write_fails_witness :
  io_use "sA" alice_handshake (getDocs_docs [("alice", Some "Alice")]) false
    = next_Error "Authentication failed"
  ∧ io_use "sA" alice_handshake (getDocs_docs [("alice", Some "Alice")]) true
    = next {| id := "sA"; odlserId := Some "alice";
              username := Js.or (Some "Alice") (hs_username alice_handshake);
              firebaseUid := hs_firebaseUid alice_handshake |}.
Proof.
  apply (handshake_rejected_when_presence_write_fails "sA" alice_handshake
           "alice" (Some "Alice") []); reflexivity.
Defined.

(** *** A direct message to oneself *)



(** *** Joining a room twice *)

Lemma received_socket_to_emit_self st socket room ev :
  received (id socket) (socket_to_emit st socket room ev) = [].
Proof.
  unfold socket_to_emit. rewrite received_to_each.
  rewrite filter_eq_absent; [done |].
  intros [Hne _]%list_elem_of_filter. done.
Qed.


Lemma update_rooms_add_idemp room sid (m : list (string * Session.UserData)) :
  update_rooms (set_add room) sid (update_rooms (set_add room) sid m)
  = update_rooms (set_add room) sid m.
Proof.
  unfold update_rooms. destruct (map_get sid m) as [u |] eqn:Hu.
  - rewrite map_get_set_eq. cbn. by rewrite set_add_idemp, map_set_set.
  - by rewrite Hu.
Qed.

Lemma update_rooms_keys_NoDup f sid (m : list (string * Session.UserData)) :
  NoDup (map_keys m) → NoDup (map_keys (update_rooms f sid m)).
Proof.
  unfold update_rooms. destruct (map_get sid m); [| done].
  apply map_set_keys_NoDup.
Qed.

Lemma adapter_join_idemp (sid room : string) (a : gmap string (gset string)) :
  <[room := {[sid]} ∪ default ∅ (<[room := {[sid]} ∪ default ∅ (a !! room)]> a !! room)]>
    (<[room := {[sid]} ∪ default ∅ (a !! room)]> a)
  = <[room := {[sid]} ∪ default ∅ (a !! room)]> a.
Proof.
  rewrite lookup_insert_eq, insert_insert_eq.
  change (default ∅ (Some ({[sid]} ∪ default ∅ (a !! room))))
    with ({[sid]} ∪ default ∅ (a !! room)).
  by rewrite (assoc_L (∪)), (idemp_L (∪)).
Qed.

Lemma join_room_state socket room st :
  (join_room socket room st).1
  = with_registry (update_rooms (set_add room) (id socket) (onlineUsers st))
      (userSockets st) (socket_join socket room st).
Proof. reflexivity. Qed.

Lemma roomMembers_NoDup st room :
  NoDup (map_keys (onlineUsers st)) → NoDup (roomMembers st room).
Proof.
  intros Hnd. unfold roomMembers. eapply sublist_NoDup; [exact Hnd |].
  unfold map_keys. apply fmap_sublist, sublist_filter.
Qed.

(** The keys of [onlineUsers] stay distinct. *)
Lemma handle_keys_NoDup i st :
  NoDup (map_keys (onlineUsers st)) → NoDup (map_keys (onlineUsers (handle i st).1)).
Proof.
  intros Hnd.
  destruct i as [s | s r | s r | s d a n | s d mid n ok | s ok | | | | | |]; cbn;
    [| | | | | | done ..].
  - destruct (odlserId s) as [uid |], (username s) as [name |]; try done.
    destruct (negb (String.eqb uid "") && negb (String.eqb name "")); [| done].
    cbn. by apply map_set_keys_NoDup.
  - by apply update_rooms_keys_NoDup.
  - unfold socket_leave. destruct (adapter st !! r); [case_decide |]; cbn;
      by apply update_rooms_keys_NoDup.
  - unfold send_message. by destruct a.
  - unfold send_private_message. destruct (odlserId s) as [uid |]; [| done].
    by destruct (String.eqb uid "").
  - by apply map_delete_keys_NoDup.
Qed.

Lemma reachable_keys_NoDup st : reachable st → NoDup (map_keys (onlineUsers st)).
Proof.
  induction 1 as [| i st _ IH _]; [apply NoDup_nil_2 | by apply handle_keys_NoDup].
Qed.

(** Membership of a concrete list, decided by walking it. *)
Ltac list_mem :=
  cbn;
  first
    [ by repeat first [apply list_elem_of_here | apply list_elem_of_further]
    | let H := fresh in
      intros H;
      repeat (apply elem_of_cons in H as [H | H]; [discriminate H |]);
      by apply elem_of_nil in H ].

Lemma general_room_reachable : reachable general_room.
Proof.
  unfold general_room, run. cbn [foldl].
  repeat (apply reachable_step); [apply reachable_initial | list_mem ..].
Qed.

(** C7. In a reachable state, a second [join_room] for the same room on
    the same connection changes nothing in the state, the scan of the
    room's members lists no connection twice (and the joining connection
    exactly once when it has a session), and each of the two joins sends
    the joining connection the [room_users] list. *)
Theorem join_room_twice (socket : AuthenticatedSocket) (room : string) (st : State) :
  reachable st →
  (join_room socket room (join_room socket room st).1).1 = (join_room socket room st).1
  ∧ NoDup (roomMembers (join_room socket room (join_room socket room st).1).1 room)
  ∧ (is_Some (map_get (id socket) (onlineUsers st)) →
     filter (λ sid, sid = id socket)
       (roomMembers (join_room socket room (join_room socket room st).1).1 room)
     = [id socket])
  ∧ received (id socket) (join_room socket room st).2
    = [room_users room (roomUsers (join_room socket room st).1 room)]
  ∧ received (id socket) (join_room socket room (join_room socket room st).1).2
    = [room_users room (roomUsers (join_room socket room st).1 room)].
Proof.
  intros Hreach.
  assert ((join_room socket room (join_room socket room st).1).1
          = (join_room socket room st).1) as Hidem.
  { unfold join_room, socket_join, with_registry, with_adapter.
    cbn [fst sockets adapter onlineUsers userSockets messageStore].
    by rewrite update_rooms_add_idemp, adapter_join_idemp. }
  assert (NoDup (roomMembers (join_room socket room st).1 room)) as Hnd.
  { apply roomMembers_NoDup. rewrite join_room_state. cbn.
    apply update_rooms_keys_NoDup. by apply reachable_keys_NoDup. }
  assert (∀ st', received (id socket) (join_room socket room st').2
                 = [room_users room (roomUsers (join_room socket room st').1 room)]) as Hrecv.
  { intros st'. unfold join_room. cbn [fst snd].
    rewrite received_app, received_socket_to_emit_self, received_socket_emit.
    by rewrite decide_True. }
  split; [exact Hidem |]. rewrite Hidem.
  split; [exact Hnd |]. split.
  - intros [u Hu]. apply filter_eq_NoDup; [exact Hnd |].
    unfold roomMembers. apply list_elem_of_fmap.
    eexists (id socket, _). split; [reflexivity |].
    apply list_elem_of_filter. split; cycle 1.
    + apply map_get_elem_of. rewrite join_room_state. cbn.
      unfold update_rooms. rewrite Hu. apply map_get_set_eq.
    + cbn. apply set_has_add.
  - split; [apply Hrecv |]. rewrite Hrecv. by rewrite Hidem.
Qed.

Lemma join_room_twice_witness :
  (join_room alice "general" (join_room alice "general" general_room).1).1
    = (join_room alice "general" general_room).1
  ∧ NoDup (roomMembers (join_room alice "general" (join_room alice "general" general_room).1).1
             "general")
  ∧ (is_Some (map_get (id alice) (onlineUsers general_room)) →
     filter (λ sid, sid = id alice)
       (roomMembers (join_room alice "general" (join_room alice "general" general_room).1).1
          "general")
     = [id alice])
  ∧ received (id alice) (join_room alice "general" general_room).2
    = [room_users "general" (roomUsers (join_room alice "general" general_room).1 "general")]
  ∧ received (id alice) (join_room alice "general" (join_room alice "general" general_room).1).2
    = [room_users "general" (roomUsers (join_room alice "general" general_room).1 "general")].
Proof.
  apply (join_room_twice alice "general" general_room).
  apply general_room_reachable.
Defined.

(** *** The session registry *)



(** In general the sender gets the echo, and the second copy exactly
    when the connection on record for its user id has the sender's
    socket in its room. *)
Lemma own_private_message_deliveries (socket : AuthenticatedSocket)
    (data : PrivateMessageData.PrivateMessageData) (messageId now : string)
    (addDoc_ok : bool) (st : State) (uid : string) :
  odlserId socket = Some uid →
  uid ≠ "" →
  PrivateMessageData.recipientId data = uid →
  ∃ message,
    received (id socket) (send_private_message socket data messageId now addDoc_ok st).2
    = receive_private_message message
      :: match userSockets st !! uid with
         | Some rsid =>
             if String.eqb rsid "" then []
             else if decide (id socket ∈ default ∅ (adapter st !! rsid))
                  then [receive_private_message message] else []
         | None => []
         end.
Proof.
  intros Huid Hne Hrec. unfold send_private_message. rewrite Huid.
  destruct (String.eqb_spec uid ""); [done |].
  rewrite Hrec. cbn [fst snd userSockets with_messageStore]. eexists.
  rewrite received_app, received_socket_emit. rewrite decide_True by done.
  destruct (userSockets st !! uid) as [rsid |]; [| reflexivity].
  destruct (String.eqb rsid ""); [reflexivity |].
  rewrite received_io_to_emit. reflexivity.
Qed.

(** The conditions of C10 hold for a connection as the handshake and
    socket.io leave it: registered under its user id, and in the room
    named by its own socket id. *)
Lemma connection_resolves_to_itself (socket : AuthenticatedSocket) (st : State)
    (uid name : string) :
  odlserId socket = Some uid → username socket = Some name →
  uid ≠ "" → name ≠ "" →
  userSockets (handle (Connect socket) st).1 !! uid = Some (id socket)
  ∧ id socket ∈ default ∅ (adapter (handle (Connect socket) st).1 !! id socket).
Proof.
  intros Huid Hname Hu Hn. cbn [handle]. unfold connection. rewrite Huid, Hname.
  destruct (String.eqb_spec uid ""); [done |].
  destruct (String.eqb_spec name ""); [done |].
  cbn [negb andb fst userSockets adapter with_registry]. split.
  - by rewrite lookup_insert_eq.
  - unfold nsp_add, socket_join. cbn [adapter with_adapter with_sockets].
    rewrite lookup_insert_eq.
    change (default ∅ (Some ?X)) with X. set_solver.
Qed.

(** When the first device then disconnects, the identity of the second,
    still connected, no longer resolves at all. *)
Example second_device_orphaned :
  map_get "sA2"
    (onlineUsers (run [Connect alice; Connect alice_phone; Disconnect alice true] initial))
    = Some {| Session.odlserId := "alice"; Session.username := "Alice";
              Session.rooms := []; Session.firebaseUid := Some "fa" |}
  ∧ userSockets (run [Connect alice; Connect alice_phone; Disconnect alice true] initial)
      !! "alice" = None.
Proof. split; reflexivity. Qed.




Lemma socket_leave_sockets s r st :
  sockets (socket_leave s r st) = sockets st
  ∧ onlineUsers (socket_leave s r st) = onlineUsers st
  ∧ userSockets (socket_leave s r st) = userSockets st.
Proof.
  unfold socket_leave. destruct (adapter st !! r); [case_decide |]; done.
Qed.








End RelayFacts.

(** ** Friend requests *)

Module FriendsFacts.
Import Firestore Friends.

Lemma throws_None call : throws None call = false.
Proof. reflexivity. Qed.


Lemma arrayUnion_mono x y l : y ∈ l → y ∈ arrayUnion x l.
Proof.
  intros Hy. unfold arrayUnion. case_decide; [done |]. apply elem_of_app. by left.
Qed.


(** No attempt writes to a request other than its own. *)
Lemma attempt_other_request a db rid :
  attempt_request a ≠ rid →
  friendRequests (attempt a db).1 !! rid = friendRequests db !! rid.
Proof.
  intros Hne.
  assert (∀ s db', update_request_status (attempt_request a) s db = Some db' →
                   friendRequests db' !! rid = friendRequests db !! rid) as Hreq.
  { intros s db'. unfold update_request_status.
    destruct (friendRequests db !! attempt_request a); [| done].
    intros [= <-]. cbn. by rewrite lookup_insert_ne. }
  assert (∀ u x db0 db', update_user_friends_union u x db0 = Some db' →
                         friendRequests db' = friendRequests db0) as Husr.
  { intros u x db0 db'. unfold update_user_friends_union.
    destruct (users db0 !! u); [| done]. by intros [= <-]. }
  destruct a as [u r o | u r o]; cbn in *.
  - unfold accept.
    repeat first
      [ done
      | match goal with
        | |- context [if ?b then _ else _] => destruct b
        | |- context [match ?x with Some _ => _ | None => _ end] => destruct x eqn:?
        end ]; cbn;
      repeat match goal with
        | H : update_user_friends_union _ _ _ = Some _ |- _ =>
            apply Husr in H; try rewrite H
        end; eauto.
  - unfold reject.
    repeat first
      [ done
      | match goal with
        | |- context [if ?b then _ else _] => destruct b
        | |- context [match ?x with Some _ => _ | None => _ end] => destruct x eqn:?
        end ]; cbn; eauto.
Qed.








(** Every attempt on a request either writes nothing or leaves the
    request in a terminal state, whatever fails on the way. *)
Lemma attempt_nothing_or_terminal (a : Attempt) (db : Db) :
  (attempt a db).1 = db
  ∨ ∃ q, friendRequests (attempt a db).1 !! attempt_request a = Some q
         ∧ status q ≠ pending.
Proof.
  assert (∀ rid s db1, s ≠ pending → update_request_status rid s db = Some db1 →
            ∃ q, friendRequests db1 !! rid = Some q ∧ status q ≠ pending) as Hupd.
  { intros rid s db1 Hs. unfold update_request_status.
    destruct (friendRequests db !! rid) as [r |]; [| done]. intros [= <-].
    exists (with_status s r). cbn [friendRequests]. by rewrite lookup_insert_eq. }
  assert (∀ u x db0 db', update_user_friends_union u x db0 = Some db' →
                         friendRequests db' = friendRequests db0) as Husr.
  { intros u x db0 db'. unfold update_user_friends_union.
    destruct (users db0 !! u); [| done]. by intros [= <-]. }
  destruct a as [u rid o | u rid o]; cbn [attempt attempt_request].
  - unfold accept. destruct (throws o 0); [by left |].
    destruct (friendRequests db !! rid) as [r |] eqn:Hr; [| by left].
    case_decide; [by left |]. destruct (throws o 1); [by left |].
    destruct (update_request_status rid accepted db) as [db1 |] eqn:H1; [| by left].
    right. apply Hupd in H1 as Hq; [| done].
    destruct (throws o 2); [done |].
    destruct (update_user_friends_union u (senderId r) db1) as [db2 |] eqn:H2; [| done].
    apply Husr in H2.
    destruct (throws o 3); [cbn [fst]; by rewrite H2 |].
    destruct (update_user_friends_union (senderId r) u db2) as [db3 |] eqn:H3;
      [| cbn [fst]; by rewrite H2].
    apply Husr in H3.
    destruct (throws o 4); cbn [fst]; by rewrite H3, H2.
  - unfold reject. destruct (throws o 0); [by left |].
    destruct (friendRequests db !! rid) as [r |] eqn:Hr; [| by left].
    case_decide; [by left |]. destruct (throws o 1); [by left |].
    destruct (update_request_status rid rejected db) as [db1 |] eqn:H1; [| by left].
    right. by apply Hupd in H1.
Qed.




Example accept_then_accept_again :
  friends_of (accept "ben" "req1" None friends_db).1 "ben" = ["carl"; "ann"]
  ∧ friends_of (accept "ben" "req1" None friends_db).1 "ann" = ["ben"]
  ∧ status_of (accept "ben" "req1" None friends_db).1 "req1" = Some accepted
  ∧ (accept "ben" "req1" None (accept "ben" "req1" None friends_db).1).2 = not_found
  ∧ (reject "ben" "req1" None (accept "ben" "req1" None friends_db).1).2 = not_found.
Proof. vm_compute. done. Qed.


End FriendsFacts.

(** ** The encryption layer *)

Module EncryptionFacts.
Import Encryption.

Lemma byte_of_N_to_N n : Byte.to_N (byte_of_N n) = (n mod 256)%N.
Proof.
  unfold byte_of_N. destruct (Byte.of_N (n mod 256)) as [b |] eqn:Hb.
  - by apply Byte.to_of_N.
  - apply Byte.of_N_None_iff in Hb. pose proof (N.mod_lt n 256). lia.
Qed.

(** The length prefix reads back as written, below 2^32. *)
Lemma Uint32_roundtrip (n : N) :
  (n < 4294967296)%N → Uint32Array_first (Uint32_bytes n) = Some (Some n).
Proof.
  intros Hn. unfold Uint32_bytes, Uint32Array_first. rewrite !byte_of_N_to_N.
  do 2 f_equal. zify. Z.to_euclidean_division_equations. lia.
Qed.

Lemma Uint32_bytes_length n : length (Uint32_bytes n) = 4.
Proof. reflexivity. Qed.

(** Writing at the end of what has been written so far, into zeroes. *)
Lemma set_at_fill (pre src : list byte) (k offset total : nat) :
  offset = length pre → total = length src + k →
  set_at src offset (pre ++ replicate total x00) = Some ((pre ++ src) ++ replicate k x00).
Proof.
  intros -> ->. unfold set_at.
  rewrite decide_True by (rewrite length_app, length_replicate; lia).
  rewrite take_app_length, drop_app_add, drop_replicate_add.
  by rewrite <- app_assoc.
Qed.

Lemma combine_concat (iv ek em : list byte) :
  length iv = 12 →
  combine iv ek em = Some (iv ++ Uint32_bytes (N.of_nat (length ek)) ++ ek ++ em).
Proof.
  intros Hiv. unfold combine.
  assert (set_at iv 0 (replicate (12 + 4 + length ek + length em) x00)
          = Some (([] ++ iv) ++ replicate (4 + length ek + length em) x00)) as ->.
  { apply (set_at_fill [] iv); [done | lia]. }
  cbn [mbind option_bind app].
  rewrite (set_at_fill iv (Uint32_bytes (N.of_nat (length ek))) (length ek + length em));
    [| lia | rewrite Uint32_bytes_length; lia].
  cbn [mbind option_bind].
  rewrite (set_at_fill _ ek (length em));
    [| rewrite length_app, Uint32_bytes_length; lia | lia].
  cbn [mbind option_bind].
  replace (length em) with (length em + 0) at 1 by lia.
  rewrite (set_at_fill _ em 0);
    [| rewrite !length_app, Uint32_bytes_length; lia | lia].
  cbn [replicate]. rewrite app_nil_r. by rewrite <- !app_assoc.
Qed.

(** Reading the four parts back out of the assembled buffer. *)
Lemma combined_parts (iv le ek em : list byte) :
  length iv = 12 → length le = 4 →
  slice 0 12 (iv ++ le ++ ek ++ em) = iv
  ∧ slice 12 16 (iv ++ le ++ ek ++ em) = le
  ∧ slice 16 (16 + length ek) (iv ++ le ++ ek ++ em) = ek
  ∧ slice_from (16 + length ek) (iv ++ le ++ ek ++ em) = em.
Proof.
  intros Hiv Hle. unfold slice, slice_from.
  assert (∀ rest : list byte, drop 12 (iv ++ rest) = rest) as Hd12.
  { intros rest. by apply drop_app_length'. }
  assert (∀ rest : list byte, drop 16 (iv ++ le ++ rest) = rest) as Hd16.
  { intros rest. rewrite app_assoc. apply drop_app_length'.
    rewrite length_app. lia. }
  split; [| split; [| split]].
  - rewrite drop_0. by apply take_app_length'.
  - rewrite Hd12. by apply take_app_length'.
  - rewrite Hd16. apply take_app_length'. lia.
  - replace (16 + length ek) with (length (iv ++ le ++ ek))
      by (rewrite !length_app; lia).
    rewrite !app_assoc. rewrite <- (app_assoc iv le ek). apply drop_app_length.
Qed.

Section Roundtrip.
Variable P : Platform.

(** [keypair pk sk]: the two halves were generated together. *)
Variable keypair : PublicKey P → PrivateKey P → Prop.

(** The contract of the primitives: RSA-OAEP encrypts a 256-bit key
    under a generated public key, a ciphertext opens under the matching
    private key and under no other; AES-GCM encrypts under a 256-bit key
    and a 96-bit IV, and opens what it produced; [atob] undoes [btoa]. *)
Hypothesis rsa_encrypts : ∀ pk sk seed data,
  keypair pk sk → length data = 32 →
  ∃ c, rsa_oaep_encrypt P pk seed data = Some c ∧ (N.of_nat (length c) < 4294967296)%N.
Hypothesis rsa_decrypts : ∀ pk sk seed data c,
  keypair pk sk → rsa_oaep_encrypt P pk seed data = Some c →
  rsa_oaep_decrypt P sk c = Some data.
Hypothesis rsa_rejects : ∀ pk sk' seed data c,
  ¬ keypair pk sk' → rsa_oaep_encrypt P pk seed data = Some c →
  rsa_oaep_decrypt P sk' c = None.
Hypothesis aes_encrypts : ∀ key iv data,
  length key = 32 → length iv = 12 → is_Some (aes_gcm_encrypt P key iv data).
Hypothesis aes_decrypts : ∀ key iv data c,
  aes_gcm_encrypt P key iv data = Some c → aes_gcm_decrypt P key iv c = Some data.
Hypothesis atob_btoa : ∀ binary, atob P (btoa P binary) = Some binary.

Lemma base64_roundtrip (buffer : list byte) :
  base64ToArrayBuffer P (arrayBufferToBase64 P buffer) = Some buffer.
Proof.
  unfold base64ToArrayBuffer, arrayBufferToBase64. rewrite atob_btoa. cbn.
  by rewrite list_byte_of_string_of_list_byte.
Qed.

(** What [decryptMessage] sees in a blob [encryptMessage] produced. *)
Lemma decrypt_try_of_combined (sk : PrivateKey P) (iv ek em : list byte) :
  length iv = 12 → (N.of_nat (length ek) < 4294967296)%N →
  decryptMessage_try P
    (arrayBufferToBase64 P (iv ++ Uint32_bytes (N.of_nat (length ek)) ++ ek ++ em)) sk
  = (aesKeyData ← rsa_oaep_decrypt P sk ek;
     aesKey ← importKey_raw aesKeyData;
     decryptedData ← aes_gcm_decrypt P aesKey iv em;
     Some (TextDecoder_decode P decryptedData)).
Proof.
  intros Hiv Hek. unfold decryptMessage_try. rewrite base64_roundtrip.
  cbn [mbind option_bind].
  destruct (combined_parts iv (Uint32_bytes (N.of_nat (length ek))) ek em Hiv eq_refl)
    as (H1 & H2 & H3 & H4).
  rewrite H1, H2, (Uint32_roundtrip _ Hek). cbn [mbind option_bind].
  rewrite Nat2N.id. by rewrite H3, H4.
Qed.

(** [decryptMessage] never rejects: it has no path around its catch. *)
Lemma decryptMessage_resolves (data : string) (sk : PrivateKey P) :
  ∃ text, decryptMessage P data sk = Resolved text.
Proof.
  unfold decryptMessage. destruct (decryptMessage_try P data sk); eauto.
Qed.

(** C5, amended. For a generated keypair, fresh entropy of the sizes
    the code draws, and a message the platform's encoder and decoder
    restore, [encryptMessage] resolves to a blob that [decryptMessage]
    opens to the message under the matching private key.  Under any
    other private key [decryptMessage] does not reject: it resolves to
    the fixed string "[Unable to decrypt message]", as it does for every
    failure. *)
Theorem encrypt_decrypt_roundtrip (e : Entropy) (message : string)
    (pk : PublicKey P) (sk : PrivateKey P) :
  keypair pk sk →
  length (aesKey e) = 32 →
  length (iv e) = 12 →
  TextDecoder_decode P (TextEncoder_encode P message) = message →
  ∃ blob,
    encryptMessage P e message pk = Resolved blob
    ∧ decryptMessage P blob sk = Resolved message
    ∧ (∀ sk', ¬ keypair pk sk' →
              decryptMessage P blob sk' = Resolved "[Unable to decrypt message]")
    ∧ (∀ data sk', ∃ text, decryptMessage P data sk' = Resolved text).
Proof.
  intros Hpair Hkey Hiv Htext.
  destruct (aes_encrypts (aesKey e) (iv e) (TextEncoder_encode P message) Hkey Hiv)
    as [em Hem].
  destruct (rsa_encrypts pk sk (oaep_seed e) (aesKey e) Hpair Hkey) as (ek & Hek & Hlen).
  unfold encryptMessage. rewrite Hem, Hek, (combine_concat _ _ _ Hiv).
  eexists. split; [reflexivity |].
  unfold decryptMessage. split; [| split].
  - rewrite (decrypt_try_of_combined sk _ _ _ Hiv Hlen).
    rewrite (rsa_decrypts pk sk _ _ _ Hpair Hek). cbn [mbind option_bind].
    unfold importKey_raw. rewrite decide_True by tauto. cbn [mbind option_bind].
    rewrite (aes_decrypts _ _ _ _ Hem). cbn [mbind option_bind].
    by rewrite Htext.
  - intros sk' Hmis. rewrite (decrypt_try_of_combined sk' _ _ _ Hiv Hlen).
    by rewrite (rsa_rejects pk sk' _ _ _ Hmis Hek).
  - apply decryptMessage_resolves.
Qed.

End Roundtrip.

(** *** The small platform meets the contract *)

Lemma toy_rsa_encrypts (pk sk : byte) (seed data : list byte) :
  pk = sk → length data = 32 →
  ∃ c, rsa_oaep_encrypt toy pk seed data = Some c ∧ (N.of_nat (length c) < 4294967296)%N.
Proof. intros _ Hlen. eexists. split; [reflexivity |]. cbn [length]. lia. Qed.

Lemma toy_rsa_decrypts (pk sk : byte) (seed data c : list byte) :
  pk = sk → rsa_oaep_encrypt toy pk seed data = Some c →
  rsa_oaep_decrypt toy sk c = Some data.
Proof. intros -> [= <-]. cbn. by rewrite decide_True. Qed.

Lemma toy_rsa_rejects (pk sk' : byte) (seed data c : list byte) :
  pk ≠ sk' → rsa_oaep_encrypt toy pk seed data = Some c →
  rsa_oaep_decrypt toy sk' c = None.
Proof. intros Hne [= <-]. cbn. by rewrite decide_False. Qed.

Lemma toy_aes_decrypts (key iv data c : list byte) :
  aes_gcm_encrypt toy key iv data = Some c → aes_gcm_decrypt toy key iv c = Some data.
Proof.
  intros [= <-]. cbn. unfold toy_aes_decrypt. rewrite app_assoc.
  rewrite take_app_length', drop_app_length' by (by rewrite length_app).
  by rewrite decide_True.
Qed.

(** C5, as stated, fails on its second half: a blob encrypted for key
    [x0a] and opened with key [x0b] does not make [decryptMessage]
    fail; the promise resolves, to a string that is not the message. *)
Lemma decryptMessage_wrong_key_resolves :
  ∃ blob,
    encryptMessage toy toy_entropy "hi" x0a = Resolved blob
    ∧ decryptMessage toy blob x0a = Resolved "hi"
    ∧ decryptMessage toy blob x0b = Resolved "[Unable to decrypt message]"
    ∧ ¬ (∃ reason, decryptMessage toy blob x0b = Rejected reason).
Proof.
  eexists. split; [vm_compute; reflexivity |].
  split; [vm_compute; reflexivity |].
  split; [vm_compute; reflexivity |].
  intros [reason H]. vm_compute in H. discriminate.
Qed.

(** A message that begins with a byte order mark comes back without it:
    the reason the round trip is stated for messages the decoder
    restores. *)
Example byte_order_mark_dropped :
  ∃ blob,
    encryptMessage toy toy_entropy (string_of_list_byte [xef; xbb; xbf; x68; x69]) x0a
      = Resolved blob
    ∧ decryptMessage toy blob x0a = Resolved "hi".
Proof. eexists. split; vm_compute; reflexivity. Qed.

Lemma encrypt_decrypt_roundtrip_witness :
  ∃ blob,
    encryptMessage toy toy_entropy "hello" x0a = Resolved blob
    ∧ decryptMessage toy blob x0a = Resolved "hello"
    ∧ (∀ sk', ¬ x0a = sk' →
              decryptMessage toy blob sk' = Resolved "[Unable to decrypt message]")
    ∧ (∀ data sk', ∃ text, decryptMessage toy data sk' = Resolved text).
Proof.
  apply (encrypt_decrypt_roundtrip toy eq toy_rsa_encrypts toy_rsa_decrypts
           toy_rsa_rejects (λ key iv data _ _, mk_is_Some _ _ eq_refl)
           toy_aes_decrypts (λ binary, eq_refl) toy_entropy "hello" x0a x0a);
    reflexivity.
Defined.

End EncryptionFacts.

(** ** Sending without a recipient key *)

Module UseEncryptionFacts.
Import Encryption UseEncryption EncryptionFacts.

Section FailOpen.
Variable P : Platform.
Implicit Types (cache : gmap string (PublicKey P)) (c : Call).

(** Without a cached key and without a key from the directory there is
    no key, and the cache is left alone. *)
Lemma getRecipientPublicKey_none fetched recipientId cache :
  cache !! recipientId = None → returns_none fetched →
  getRecipientPublicKey P fetched recipientId cache = (None, cache).
Proof.
  intros Hmiss Hnone. unfold getRecipientPublicKey. rewrite Hmiss.
  destruct fetched as [| status body]; [done |].
  cbn in Hnone. by rewrite Hnone.
Qed.

(** A lookup for one recipient writes the cache at that recipient only. *)
Lemma getRecipientPublicKey_other fetched recipientId other cache :
  other ≠ recipientId →
  (getRecipientPublicKey P fetched recipientId cache).2 !! other = cache !! other.
Proof.
  intros Hne. unfold getRecipientPublicKey.
  destruct (cache !! recipientId); [done |].
  destruct fetched as [| status body]; [done |].
  destruct (negb (ok status)); [done |].
  destruct (body ≫= importPublicKey P); [| done].
  cbn. by rewrite lookup_insert_ne.
Qed.

Lemma encrypt_cache isReady e fetched message recipientId cache :
  (encrypt P isReady e fetched message recipientId cache).2
  = if isReady then (getRecipientPublicKey P fetched recipientId cache).2 else cache.
Proof.
  unfold encrypt. destruct isReady; [| done]. cbn [negb].
  destruct (getRecipientPublicKey P fetched recipientId cache) as [[key |] cache'];
    [| done].
  by destruct (encryptMessage P e message key).
Qed.

Lemma encrypt_keeps_miss c recipientId cache :
  (call_recipientId c = recipientId → returns_none (call_fetched c)) →
  cache !! recipientId = None →
  (encrypt P (call_isReady c) (call_entropy c) (call_fetched c) (call_message c)
     (call_recipientId c) cache).2 !! recipientId = None.
Proof.
  intros Hnone Hmiss. rewrite encrypt_cache. destruct (call_isReady c); [| done].
  destruct (decide (call_recipientId c = recipientId)) as [Heq | Hne].
  - rewrite Heq, getRecipientPublicKey_none; [done | done |]. by apply Hnone.
  - by rewrite getRecipientPublicKey_other.
Qed.

(** A recipient the directory never had a key for is never cached. *)
Lemma cache_after_miss recipientId (history : list Call) :
  Forall (λ c, call_recipientId c = recipientId → returns_none (call_fetched c)) history →
  cache_after P history !! recipientId = None.
Proof.
  unfold cache_after. generalize (∅ : gmap string (PublicKey P)) (lookup_empty
    (M := gmap string) (A := PublicKey P) recipientId).
  induction history as [| c history IH]; intros cache Hmiss Hall; [done |].
  apply Forall_cons in Hall as [Hc Hall]. cbn [foldl].
  apply IH; [| done]. by apply encrypt_keeps_miss.
Qed.

(** C9. Whatever was encrypted earlier in the session, if the key
    directory never had and does not have a public key for the
    recipient, [encrypt] returns the message itself, unchanged and
    without the marker, and caches nothing; and the server's key
    directory gives no key whenever none is on file for the user. *)
Theorem encrypt_fails_open (history : list Call) (isReady : bool) (e : Entropy)
    (fetched : FetchResult) (message recipientId : string) :
  Forall (λ c, call_recipientId c = recipientId → returns_none (call_fetched c)) history →
  returns_none fetched →
  encrypt P isReady e fetched message recipientId (cache_after P history)
    = (message, cache_after P history)
  ∧ (∀ refused outage db,
       Js.truthy (Firestore.users db !! recipientId ≫= Firestore.publicKey) = false →
       returns_none (served (AuthRoutes.get_public_key refused recipientId outage db))).
Proof.
  intros Hhistory Hnone. split.
  - unfold encrypt. destruct isReady; [| done]. cbn [negb].
    rewrite getRecipientPublicKey_none; [done | | done].
    by apply cache_after_miss.
  - intros refused outage db Hnokey. unfold AuthRoutes.get_public_key.
    destruct refused as [error |]; [done |].
    destruct (Firestore.throws outage 0); [done |].
    destruct (Firestore.users db !! recipientId) as [userData |]; [| done].
    cbn in Hnokey. by rewrite Hnokey.
Qed.

End FailOpen.

Example encrypt_with_and_without_key :
  no_key_yet = fetch_response 404 None
  ∧ (encrypt toy true toy_entropy no_key_yet "hi Ann" "ann" ∅).1 = "hi Ann"
  ∧ String.prefix "🔒" (encrypt toy true toy_entropy ben_key "hi Ben" "ben" ∅).1 = true.
Proof. vm_compute. done. Qed.

Lemma encrypt_fails_open_witness :
  encrypt toy true toy_entropy no_key_yet "are you there?" "ann" (cache_after toy earlier)
    = ("are you there?", cache_after toy earlier)
  ∧ (∀ refused outage db,
       Js.truthy (Firestore.users db !! "ann" ≫= Firestore.publicKey) = false →
       returns_none (served (AuthRoutes.get_public_key refused "ann" outage db))).
Proof.
  apply (encrypt_fails_open toy earlier true toy_entropy no_key_yet
           "are you there?" "ann").
  - repeat constructor; vm_compute; done.
  - reflexivity.
Defined.

End UseEncryptionFacts.

(** * Further properties of the code *)

(** ** The handshake and the relay's listeners *)

Module RelayMore.
Import Js JsFacts Store Relay RelayFacts RelayRuns.

(** The handshake lets a connection in exactly when credential and
    external UID are present, the user query finds a document and the
    presence write succeeds; the socket then carries the id of the first
    document found. *)
Theorem handshake_accepts_iff (socket_id : string) (auth : Handshake)
    (querySnapshot : QueryResult) (updateDoc_ok : bool) (socket : AuthenticatedSocket) :
  io_use socket_id auth querySnapshot updateDoc_ok = next socket
  ↔ Js.truthy (token auth) = true
    ∧ Js.truthy (hs_firebaseUid auth) = true
    ∧ updateDoc_ok = true
    ∧ ∃ userDoc_id userData_username rest,
        querySnapshot = getDocs_docs ((userDoc_id, userData_username) :: rest)
        ∧ socket = {| id := socket_id; odlserId := Some userDoc_id;
                      username := Js.or userData_username (hs_username auth);
                      firebaseUid := hs_firebaseUid auth |}.
Proof.
  unfold io_use. split.
  - destruct (Js.truthy (token auth)), (Js.truthy (hs_firebaseUid auth));
      cbn [negb orb]; try discriminate.
    destruct querySnapshot as [| [| [docId uname] rest]]; try discriminate.
    destruct updateDoc_ok; [| discriminate].
    intros [= <-]. repeat split. by eexists _, _, _.
  - intros (-> & -> & -> & docId & uname & rest & -> & ->). reflexivity.
Qed.

(** The credential is only tested for presence: two handshakes that
    differ in nothing but the (present) token end the same way. *)
Theorem handshake_ignores_token_value (socket_id : string) (auth auth' : Handshake)
    (querySnapshot : QueryResult) (updateDoc_ok : bool) :
  Js.truthy (token auth) = true →
  Js.truthy (token auth') = true →
  hs_firebaseUid auth' = hs_firebaseUid auth →
  hs_username auth' = hs_username auth →
  io_use socket_id auth' querySnapshot updateDoc_ok
  = io_use socket_id auth querySnapshot updateDoc_ok.
Proof.
  intros Ht Ht' Huid Hname. unfold io_use. rewrite Ht, Ht', Huid, Hname. reflexivity.
Qed.

Lemma handshake_ignores_token_value_witness :
  io_use "sA" {| token := Some "forged"; hs_firebaseUid := Some "fa";
                 hs_username := Some "Alice" |}
    (getDocs_docs [("alice", Some "Alice")]) true
  = io_use "sA" alice_handshake (getDocs_docs [("alice", Some "Alice")]) true.
Proof.
  apply (handshake_ignores_token_value "sA" alice_handshake
           {| token := Some "forged"; hs_firebaseUid := Some "fa";
              hs_username := Some "Alice" |}); reflexivity.
Defined.

(** [socket.to(room).emit] reaches every other member of the room once. *)
Lemma received_socket_to_emit_other sid st socket room ev :
  sid ≠ id socket →
  received sid (socket_to_emit st socket room ev)
  = if decide (sid ∈ default ∅ (adapter st !! room)) then [ev] else [].
Proof.
  intros Hne. unfold socket_to_emit, members. rewrite received_to_each.
  case_decide as Hin.
  - rewrite filter_eq_NoDup; [done | apply NoDup_filter, NoDup_elements |].
    apply list_elem_of_filter. split; [done | by apply elem_of_elements].
  - rewrite filter_eq_absent; [done |].
    intros [_ Hin']%list_elem_of_filter. by apply elem_of_elements in Hin'.
Qed.

(** With Firestore up, [send_message] changes no state (the message is
    not buffered), makes as many deliveries as the room has connections,
    and each connection of the room, the sender included when it has
    joined, receives the message once under the id of the new document. *)
Theorem send_message_delivers_to_room (socket : AuthenticatedSocket)
    (data : MessageData.MessageData) (docRef_id now : string) (st : State) :
  (send_message socket data (Some docRef_id) now st).1 = st
  ∧ length (send_message socket data (Some docRef_id) now st).2
    = size (default ∅ (adapter st !! MessageData.room data))
  ∧ ∃ m, rm_id m = docRef_id
         ∧ rm_content m = MessageData.content data
         ∧ rm_room m = MessageData.room data
         ∧ rm_sender m = odlserId socket
         ∧ ∀ sid, received sid (send_message socket data (Some docRef_id) now st).2
                  = if decide (sid ∈ default ∅ (adapter st !! MessageData.room data))
                    then [receive_message m] else [].
Proof.
  unfold send_message. cbn [fst snd]. split; [reflexivity |]. split.
  - unfold io_to_emit, members. by rewrite length_fmap.
  - eexists. split; [| split; [| split; [| split]]]; cycle 4.
    + intros sid. apply received_io_to_emit.
    + reflexivity.
    + reflexivity.
    + reflexivity.
    + reflexivity.
Qed.

(** Typing signals change no state, never come back to the connection
    that sent them, and reach every other connection of the room once. *)
Theorem typing_reaches_the_others (socket : AuthenticatedSocket) (room : string)
    (st : State) :
  (typing_start socket room st).1 = st
  ∧ (typing_stop socket room st).1 = st
  ∧ received (id socket) (typing_start socket room st).2 = []
  ∧ received (id socket) (typing_stop socket room st).2 = []
  ∧ (∀ sid, sid ≠ id socket →
       received sid (typing_start socket room st).2
       = (if decide (sid ∈ default ∅ (adapter st !! room))
          then [user_typing (odlserId socket) (username socket) room] else [])
       ∧ received sid (typing_stop socket room st).2
         = (if decide (sid ∈ default ∅ (adapter st !! room))
            then [user_stopped_typing (odlserId socket) (username socket) room] else [])).
Proof.
  unfold typing_start, typing_stop. cbn [fst snd].
  split; [reflexivity |]. split; [reflexivity |].
  split; [apply received_socket_to_emit_self |].
  split; [apply received_socket_to_emit_self |].
  intros sid Hne. split; by apply received_socket_to_emit_other.
Qed.

(** A socket without a user id cannot send a direct message: it gets
    "Authentication required" and nothing is buffered or delivered. *)
Theorem private_message_needs_identity (socket : AuthenticatedSocket)
    (data : PrivateMessageData.PrivateMessageData) (messageId now : string)
    (addDoc_ok : bool) (st : State) :
  Js.truthy (odlserId socket) = false →
  send_private_message socket data messageId now addDoc_ok st
  = (st, [(id socket, error "Authentication required")]).
Proof.
  intros Hid. unfold send_private_message.
  destruct (odlserId socket) as [uid |]; [| reflexivity].
  cbn in Hid. apply negb_false_iff in Hid. by rewrite Hid.
Qed.

Lemma private_message_needs_identity_witness :
  send_private_message
    {| id := "sG"; odlserId := None; username := Some "Guest"; firebaseUid := None |}
    to_alice "msg_1" "t" true general_room
  = (general_room, [("sG", error "Authentication required")]).
Proof.
  apply (private_message_needs_identity
           {| id := "sG"; odlserId := None; username := Some "Guest";
              firebaseUid := None |}).
  reflexivity.
Defined.

Lemma last_trim_snoc (l : list StoredMessage) (m : StoredMessage) :
  last (trim (l ++ [m])) = Some m.
Proof.
  unfold trim. case_decide as Hlen; [| apply last_snoc].
  destruct l as [| x l]; [cbn in Hlen; lia |].
  cbn [app tail]. apply last_snoc.
Qed.

Lemma dmRoom_swap a b : Room.dmRoom a b = Room.dmRoom b a.
Proof. unfold Room.dmRoom. by rewrite RoomFacts.sort_pair_comm. Qed.

(** A direct message from an identified connection is put last in the
    buffer of the pair's room, which reads the same whichever of the two
    users derives its name; nothing else of the state changes; the
    outcome of the Firestore write makes no difference; and when the
    recipient has no connection on record, the only delivery is the
    sender's echo. *)
Theorem private_message_buffered (socket : AuthenticatedSocket)
    (data : PrivateMessageData.PrivateMessageData) (messageId now : string)
    (addDoc_ok : bool) (st : State) (uid : string) :
  odlserId socket = Some uid →
  uid ≠ "" →
  ∃ message,
    _id message = messageId
    ∧ content message = PrivateMessageData.content data
    ∧ sender message = uid
    ∧ room message = Room.dmRoom uid (PrivateMessageData.recipientId data)
    ∧ last (getMessagesFromStore (Room.dmRoom uid (PrivateMessageData.recipientId data))
              (messageStore (send_private_message socket data messageId now addDoc_ok st).1))
      = Some message
    ∧ last (getMessagesFromStore (Room.dmRoom (PrivateMessageData.recipientId data) uid)
              (messageStore (send_private_message socket data messageId now addDoc_ok st).1))
      = Some message
    ∧ (∀ other, other ≠ Room.dmRoom uid (PrivateMessageData.recipientId data) →
         getMessagesFromStore other
           (messageStore (send_private_message socket data messageId now addDoc_ok st).1)
         = getMessagesFromStore other (messageStore st))
    ∧ onlineUsers (send_private_message socket data messageId now addDoc_ok st).1
      = onlineUsers st
    ∧ userSockets (send_private_message socket data messageId now addDoc_ok st).1
      = userSockets st
    ∧ adapter (send_private_message socket data messageId now addDoc_ok st).1 = adapter st
    ∧ send_private_message socket data messageId now addDoc_ok st
      = send_private_message socket data messageId now (negb addDoc_ok) st
    ∧ (userSockets st !! PrivateMessageData.recipientId data = None →
       (send_private_message socket data messageId now addDoc_ok st).2
       = [(id socket, receive_private_message message)]).
Proof.
  intros Huid Hne. unfold send_private_message. rewrite Huid.
  destruct (String.eqb_spec uid ""); [done |].
  cbn [fst snd messageStore onlineUsers userSockets adapter with_messageStore].
  exists {| _id := messageId;
            content := PrivateMessageData.content data;
            sender := uid;
            senderUsername := Js.or_default (username socket) "Unknown";
            room := Room.dmRoom uid (PrivateMessageData.recipientId data);
            type := Js.or_default (PrivateMessageData.type data) "text";
            time := now |}.
  split; [reflexivity |]. split; [reflexivity |].
  split; [reflexivity |]. split; [reflexivity |].
  split; [rewrite StoreFacts.read_add_same; apply last_trim_snoc |].
  split.
  { rewrite (dmRoom_swap (PrivateMessageData.recipientId data) uid).
    rewrite StoreFacts.read_add_same. apply last_trim_snoc. }
  split; [intros other Hother; by apply StoreFacts.read_add_other |].
  split; [reflexivity |]. split; [reflexivity |]. split; [reflexivity |].
  split; [reflexivity |].
  intros Hoff. by rewrite Hoff.
Qed.

Lemma private_message_buffered_witness :
  ∃ message,
    _id message = "msg_2"
    ∧ content message = PrivateMessageData.content to_dave
    ∧ sender message = "alice"
    ∧ room message = Room.dmRoom "alice" (PrivateMessageData.recipientId to_dave)
    ∧ last (getMessagesFromStore (Room.dmRoom "alice" (PrivateMessageData.recipientId to_dave))
              (messageStore (send_private_message alice to_dave "msg_2" "t" false general_room).1))
      = Some message
    ∧ last (getMessagesFromStore (Room.dmRoom (PrivateMessageData.recipientId to_dave) "alice")
              (messageStore (send_private_message alice to_dave "msg_2" "t" false general_room).1))
      = Some message
    ∧ (∀ other, other ≠ Room.dmRoom "alice" (PrivateMessageData.recipientId to_dave) →
         getMessagesFromStore other
           (messageStore (send_private_message alice to_dave "msg_2" "t" false general_room).1)
         = getMessagesFromStore other (messageStore general_room))
    ∧ onlineUsers (send_private_message alice to_dave "msg_2" "t" false general_room).1
      = onlineUsers general_room
    ∧ userSockets (send_private_message alice to_dave "msg_2" "t" false general_room).1
      = userSockets general_room
    ∧ adapter (send_private_message alice to_dave "msg_2" "t" false general_room).1
      = adapter general_room
    ∧ send_private_message alice to_dave "msg_2" "t" false general_room
      = send_private_message alice to_dave "msg_2" "t" (negb false) general_room
    ∧ (userSockets general_room !! PrivateMessageData.recipientId to_dave = None →
       (send_private_message alice to_dave "msg_2" "t" false general_room).2
       = [(id alice, receive_private_message message)]).
Proof.
  apply (private_message_buffered alice to_dave "msg_2" "t" false general_room "alice");
    [reflexivity | discriminate].
Defined.

(** A direct message to a user whose connection is on record, and whose
    private room holds that connection alone, produces exactly two
    deliveries: the echo to the sender, then the message to the
    recipient's connection. *)
Theorem private_message_reaches_recipient (socket : AuthenticatedSocket)
    (data : PrivateMessageData.PrivateMessageData) (messageId now : string)
    (addDoc_ok : bool) (st : State) (uid rsid : string) :
  odlserId socket = Some uid →
  uid ≠ "" →
  userSockets st !! PrivateMessageData.recipientId data = Some rsid →
  rsid ≠ "" →
  default ∅ (adapter st !! rsid) = {[rsid]} →
  ∃ message,
    content message = PrivateMessageData.content data
    ∧ sender message = uid
    ∧ (send_private_message socket data messageId now addDoc_ok st).2
      = [(id socket, receive_private_message message);
         (rsid, receive_private_message message)].
Proof.
  intros Huid Hne Hrs Hrsne Hroom. unfold send_private_message. rewrite Huid.
  destruct (String.eqb_spec uid ""); [done |].
  cbn [fst snd userSockets with_messageStore]. rewrite Hrs.
  destruct (String.eqb_spec rsid ""); [done |].
  exists {| _id := messageId;
            content := PrivateMessageData.content data;
            sender := uid;
            senderUsername := Js.or_default (username socket) "Unknown";
            room := Room.dmRoom uid (PrivateMessageData.recipientId data);
            type := Js.or_default (PrivateMessageData.type data) "text";
            time := now |}.
  split; [reflexivity |]. split; [reflexivity |].
  unfold io_to_emit, members. cbn [adapter with_messageStore].
  rewrite Hroom, elements_singleton. reflexivity.
Qed.

Lemma private_message_reaches_recipient_witness :
  ∃ message,
    content message = PrivateMessageData.content to_bob
    ∧ sender message = "alice"
    ∧ (send_private_message alice to_bob "msg_3" "t" true general_room).2
      = [(id alice, receive_private_message message);
         ("sB", receive_private_message message)].
Proof.
  apply (private_message_reaches_recipient alice to_bob "msg_3" "t" true general_room
           "alice" "sB"); try reflexivity; discriminate.
Defined.

(** The buffer of a room never holds more than 100 messages, and as long
    as no more than 100 were appended to the room it holds all of them,
    oldest first. *)
Theorem buffer_bounded (history : list (string * StoredMessage)) (room : string) :
  length (getMessagesFromStore room (appendAll history ∅)) ≤ 100
  ∧ (length (appendedTo room history) ≤ 100 →
     getMessagesFromStore room (appendAll history ∅) = appendedTo room history)
  ∧ (appendedTo room history = [] →
     getMessagesFromStore room (appendAll history ∅) = []).
Proof.
  rewrite StoreFacts.read_history. split; [| split].
  - rewrite StoreFacts.lastN_length. lia.
  - apply StoreFacts.lastN_short.
  - intros ->. reflexivity.
Qed.

(** *** Sessions and rooms *)

Lemma update_rooms_lookup f sid k (m : list (string * Session.UserData)) :
  map_get sid (update_rooms f k m)
  = (λ u, if String.eqb sid k
          then {| Session.odlserId := Session.odlserId u;
                  Session.username := Session.username u;
                  Session.rooms := f (Session.rooms u);
                  Session.firebaseUid := Session.firebaseUid u |}
          else u) <$> map_get sid m.
Proof.
  unfold update_rooms. destruct (map_get k m) as [uk |] eqn:Hk.
  - rewrite map_get_set. destruct (String.eqb_spec sid k) as [-> | Hne].
    + by rewrite Hk.
    + by destruct (map_get sid m).
  - destruct (String.eqb_spec sid k) as [-> | Hne].
    + by rewrite Hk.
    + by destruct (map_get sid m).
Qed.

Lemma map_get_of_elem {V} (k : string) (v : V) (m : list (string * V)) :
  NoDup (map_keys m) → (k, v) ∈ m → map_get k m = Some v.
Proof.
  unfold map_keys. induction m as [| [k0 v0] m IH]; intros Hnd Hin.
  - by apply elem_of_nil in Hin.
  - change (((k0, v0) :: m).*1) with (k0 :: m.*1) in Hnd.
    apply NoDup_cons in Hnd as [Hk0 Hnd]. cbn [map_get].
    apply elem_of_cons in Hin as [[= -> ->] | Hin].
    + by rewrite String.eqb_refl.
    + destruct (String.eqb_spec k k0) as [-> | Hne]; [| by apply IH].
      exfalso. apply Hk0. apply list_elem_of_fmap. by exists (k0, v).
Qed.

(** Who the member scan lists: the connections whose session holds the
    room. *)
Lemma elem_of_roomMembers st room sid :
  NoDup (map_keys (onlineUsers st)) →
  sid ∈ roomMembers st room
  ↔ ∃ u, map_get sid (onlineUsers st) = Some u ∧ set_has room (Session.rooms u) = true.
Proof.
  intros Hnd. unfold roomMembers. rewrite list_elem_of_fmap. split.
  - intros ([k u] & -> & [Hhas Hin]%list_elem_of_filter).
    exists u. split; [by apply map_get_of_elem | done].
  - intros (u & Hu & Hhas). exists (sid, u). split; [done |].
    apply list_elem_of_filter. split; [done | by apply map_get_elem_of].
Qed.

Lemma set_has_delete x y s :
  set_has x (set_delete y s) = if String.eqb x y then false else set_has x s.
Proof.
  destruct (String.eqb_spec x y) as [-> | Hne].
  - apply not_true_is_false. rewrite set_has_true. unfold set_delete.
    intros [Hy _]%list_elem_of_filter. done.
  - apply eq_true_iff_eq. rewrite !set_has_true. unfold set_delete.
    rewrite list_elem_of_filter. tauto.
Qed.

Lemma socket_leave_room_set socket room st :
  default ∅ (adapter (socket_leave socket room st) !! room)
  = default ∅ (adapter st !! room) ∖ {[id socket]}.
Proof.
  unfold socket_leave. destruct (adapter st !! room) as [members |] eqn:Hm.
  - change (default ∅ (Some members)) with members.
    case_decide as Hempty; cbn [adapter with_adapter].
    + by rewrite lookup_delete_eq, Hempty.
    + by rewrite lookup_insert_eq.
  - rewrite Hm. change (default (∅ : gset string) None) with (∅ : gset string).
    symmetry. apply difference_disjoint_L. apply disjoint_empty_l.
Qed.

(** [leave_room] takes the connection out of the room, both in the
    adapter and in the session's room set, leaves every other
    connection's membership and every other room of the scan untouched,
    tells each connection that stays in the room once, and tells the
    leaver nothing. *)
Theorem leave_room_removes (socket : AuthenticatedSocket) (room : string) (st : State) :
  reachable st →
  (id socket ∉ roomMembers (leave_room socket room st).1 room)
  ∧ (id socket ∉ default ∅ (adapter (leave_room socket room st).1 !! room))
  ∧ (∀ sid, sid ≠ id socket →
       (sid ∈ roomMembers (leave_room socket room st).1 room ↔ sid ∈ roomMembers st room)
       ∧ (sid ∈ default ∅ (adapter (leave_room socket room st).1 !! room)
          ↔ sid ∈ default ∅ (adapter st !! room))
       ∧ received sid (leave_room socket room st).2
         = if decide (sid ∈ default ∅ (adapter st !! room))
           then [user_left (odlserId socket) (username socket) room] else [])
  ∧ (∀ sid other, other ≠ room →
       sid ∈ roomMembers (leave_room socket room st).1 other ↔ sid ∈ roomMembers st other)
  ∧ received (id socket) (leave_room socket room st).2 = [].
Proof.
  intros Hreach. pose proof (reachable_keys_NoDup st Hreach) as Hnd.
  destruct (socket_leave_sockets socket room st) as (Hs & Ho & Hu).
  assert (NoDup (map_keys (onlineUsers (leave_room socket room st).1))) as Hnd'.
  { unfold leave_room. cbn. rewrite Ho. by apply update_rooms_keys_NoDup. }
  assert (adapter (leave_room socket room st).1 = adapter (socket_leave socket room st))
    as Hadapter by reflexivity.
  assert (onlineUsers (leave_room socket room st).1
          = update_rooms (set_delete room) (id socket) (onlineUsers st)) as Honline.
  { unfold leave_room. cbn. by rewrite Ho. }
  rewrite Hadapter, socket_leave_room_set.
  split.
  { rewrite (elem_of_roomMembers _ _ _ Hnd'), Honline. intros (u & Hu' & Hhas).
    rewrite update_rooms_lookup, String.eqb_refl in Hu'.
    destruct (map_get (id socket) (onlineUsers st)) as [u0 |]; [| discriminate].
    injection Hu' as <-. cbn [Session.rooms] in Hhas.
    by rewrite set_has_delete, String.eqb_refl in Hhas. }
  split; [rewrite elem_of_difference, elem_of_singleton; tauto |].
  split.
  { intros sid Hne. split; [| split].
    - rewrite (elem_of_roomMembers _ _ _ Hnd'), (elem_of_roomMembers _ _ _ Hnd), Honline.
      rewrite update_rooms_lookup. destruct (String.eqb_spec sid (id socket)); [done |].
      by destruct (map_get sid (onlineUsers st)).
    - rewrite elem_of_difference, elem_of_singleton. tauto.
    - unfold leave_room. cbn [snd]. rewrite received_socket_to_emit_other by done.
      cbn [adapter with_registry]. rewrite socket_leave_room_set.
      destruct (decide (sid ∈ default ∅ (adapter st !! room))) as [Hin | Hin].
      + rewrite decide_True; [done |].
        rewrite elem_of_difference, elem_of_singleton. tauto.
      + rewrite decide_False; [done |]. rewrite elem_of_difference. tauto. }
  split.
  { intros sid other Hother.
    rewrite (elem_of_roomMembers _ _ _ Hnd'), (elem_of_roomMembers _ _ _ Hnd), Honline.
    rewrite update_rooms_lookup.
    destruct (map_get sid (onlineUsers st)) as [u0 |]; cbn; [| split; intros (? & ? & ?); done].
    destruct (String.eqb_spec sid (id socket)) as [-> | Hne]; [| done].
    split; intros (u & [= <-] & Hhas); eexists; (split; [reflexivity |]).
    - cbn [Session.rooms] in Hhas. rewrite set_has_delete in Hhas.
      by destruct (String.eqb_spec other room).
    - cbn [Session.rooms]. rewrite set_has_delete.
      by destruct (String.eqb_spec other room). }
  unfold leave_room. cbn [snd]. apply received_socket_to_emit_self.
Qed.

Lemma leave_room_removes_witness :
  (id alice ∉ roomMembers (leave_room alice "general" general_room).1 "general")
  ∧ (id alice ∉ default ∅ (adapter (leave_room alice "general" general_room).1 !! "general"))
  ∧ (∀ sid, sid ≠ id alice →
       (sid ∈ roomMembers (leave_room alice "general" general_room).1 "general"
        ↔ sid ∈ roomMembers general_room "general")
       ∧ (sid ∈ default ∅ (adapter (leave_room alice "general" general_room).1 !! "general")
          ↔ sid ∈ default ∅ (adapter general_room !! "general"))
       ∧ received sid (leave_room alice "general" general_room).2
         = if decide (sid ∈ default ∅ (adapter general_room !! "general"))
           then [user_left (odlserId alice) (username alice) "general"] else [])
  ∧ (∀ sid other, other ≠ "general" →
       sid ∈ roomMembers (leave_room alice "general" general_room).1 other
       ↔ sid ∈ roomMembers general_room other)
  ∧ received (id alice) (leave_room alice "general" general_room).2 = [].
Proof.
  apply (leave_room_removes alice "general" general_room).
  apply general_room_reachable.
Defined.

Lemma nsp_remove_room_set socket room st :
  default ∅ (adapter (nsp_remove socket st) !! room)
  = default ∅ (adapter st !! room) ∖ {[id socket]}.
Proof.
  unfold nsp_remove. cbn [adapter with_adapter with_sockets].
  destruct (adapter st !! room) as [members |] eqn:Hm.
  - change (default ∅ (Some members)) with members.
    destruct (decide (members ∖ {[id socket]} = ∅)) as [Hempty | Hne].
    + rewrite Hempty.
      replace (filter (λ kv : string * gset string, kv.2 ≠ ∅)
                 ((λ s : gset string, s ∖ {[id socket]}) <$> adapter st) !! room)
        with (@None (gset string)); [done |].
      symmetry. apply map_lookup_filter_None. right. intros x Hx.
      rewrite lookup_fmap, Hm in Hx. injection Hx as <-. cbn. tauto.
    + erewrite map_lookup_filter_Some_2; [done | | done].
      by rewrite lookup_fmap, Hm.
  - replace (filter (λ kv : string * gset string, kv.2 ≠ ∅)
               ((λ s : gset string, s ∖ {[id socket]}) <$> adapter st) !! room)
      with (@None (gset string)).
    + change (default (∅ : gset string) None) with (∅ : gset string).
      symmetry. apply difference_disjoint_L, disjoint_empty_l.
    + symmetry. apply map_lookup_filter_None. left. by rewrite lookup_fmap, Hm.
Qed.

Lemma received_flat_map sid {A} (f : A → list Delivery) (l : list A) :
  (∀ x, received sid (f x) = []) → received sid (flat_map f l) = [].
Proof.
  intros Hf. induction l as [| x l IH]; [done |].
  cbn [flat_map]. by rewrite received_app, Hf, IH.
Qed.

Lemma received_io_emit sid st ev :
  received sid (io_emit st ev) = (λ _, ev) <$> filter (λ s, s = sid) (id <$> sockets st).
Proof.
  unfold io_emit. rewrite <- received_to_each. by rewrite <- list_fmap_compose.
Qed.

(** After [disconnect] the connection has no session, its user id
    resolves to no connection at all, it sits in no room and is not in
    the namespace; it receives none of the farewell events, while every
    other connected socket receives the offline presence change; and the
    outcome of the presence write makes no difference. *)
Theorem disconnect_forgets (socket : AuthenticatedSocket) (updateDoc_ok : bool)
    (st : State) :
  map_get (id socket) (onlineUsers (handle (Disconnect socket updateDoc_ok) st).1) = None
  ∧ (∀ uid, odlserId socket = Some uid → uid ≠ "" →
            userSockets (handle (Disconnect socket updateDoc_ok) st).1 !! uid = None)
  ∧ (∀ room,
       id socket ∉ default ∅ (adapter (handle (Disconnect socket updateDoc_ok) st).1 !! room))
  ∧ (∀ s, s ∈ sockets (handle (Disconnect socket updateDoc_ok) st).1 → id s ≠ id socket)
  ∧ received (id socket) (handle (Disconnect socket updateDoc_ok) st).2 = []
  ∧ (∀ s, s ∈ sockets st → id s ≠ id socket →
          user_status_change (odlserId socket) (username socket) "offline"
          ∈ received (id s) (handle (Disconnect socket updateDoc_ok) st).2)
  ∧ handle (Disconnect socket updateDoc_ok) st
    = handle (Disconnect socket (negb updateDoc_ok)) st.
Proof.
  cbn [handle]. unfold disconnect.
  cbn [fst snd onlineUsers userSockets adapter sockets with_registry].
  split; [by rewrite map_get_delete, String.eqb_refl |].
  split.
  { intros uid -> Hne. destruct (String.eqb_spec uid ""); [done |].
    apply lookup_delete_eq. }
  split.
  { intros room. rewrite nsp_remove_room_set.
    rewrite elem_of_difference, elem_of_singleton. tauto. }
  split.
  { intros s. unfold nsp_remove. cbn [sockets with_adapter with_sockets].
    by intros [Hne _]%list_elem_of_filter. }
  split.
  { rewrite received_app. rewrite received_io_emit.
    cbn [sockets with_registry]. unfold nsp_remove at 2.
    cbn [sockets with_adapter with_sockets].
    rewrite filter_eq_absent.
    - rewrite app_nil_r.
      destruct (map_get (id socket) (onlineUsers (nsp_remove socket st))); [| done].
      apply received_flat_map. intros room. apply received_socket_to_emit_self.
    - intros (s & Hs & [Hne _]%list_elem_of_filter)%list_elem_of_fmap. done. }
  split; [| reflexivity].
  intros s Hs Hne. rewrite received_app. apply elem_of_app. right.
  rewrite received_io_emit. cbn [sockets with_registry].
  unfold nsp_remove. cbn [sockets with_adapter with_sockets].
  apply list_elem_of_fmap. exists (id s). split; [done |].
  apply list_elem_of_filter. split; [done |].
  apply list_elem_of_fmap. exists s. split; [done |].
  by apply list_elem_of_filter.
Qed.

(** [join_room] tells every connection that was already in the room once
    that the newcomer joined, and the list it sends to the newcomer
    contains the newcomer's own user when it has a session. *)
Theorem join_room_notifies (socket : AuthenticatedSocket) (room : string) (st : State) :
  (∀ sid, sid ≠ id socket →
     received sid (join_room socket room st).2
     = if decide (sid ∈ default ∅ (adapter st !! room))
       then [user_joined (odlserId socket) (username socket) room] else [])
  ∧ (∀ u, map_get (id socket) (onlineUsers st) = Some u →
          (Session.odlserId u, Session.username u)
          ∈ roomUsers (join_room socket room st).1 room).
Proof.
  split.
  - intros sid Hne. unfold join_room. cbn [fst snd].
    rewrite received_app, received_socket_emit.
    rewrite decide_False by done. rewrite app_nil_r.
    rewrite received_socket_to_emit_other by done.
    unfold socket_join. cbn [adapter with_registry with_adapter].
    rewrite lookup_insert_eq.
    change (default ∅ (Some ({[id socket]} ∪ default ∅ (adapter st !! room))))
      with ({[id socket]} ∪ default ∅ (adapter st !! room)).
    destruct (decide (sid ∈ default ∅ (adapter st !! room))) as [Hin | Hin].
    + rewrite decide_True; [done |]. apply elem_of_union. by right.
    + rewrite decide_False; [done |].
      rewrite elem_of_union, elem_of_singleton. tauto.
  - intros u Hu. unfold roomUsers, map_values. apply list_elem_of_fmap.
    exists {| Session.odlserId := Session.odlserId u;
              Session.username := Session.username u;
              Session.rooms := set_add room (Session.rooms u);
              Session.firebaseUid := Session.firebaseUid u |}.
    split; [reflexivity |]. apply list_elem_of_filter. split.
    + cbn [Session.rooms]. apply set_has_add.
    + apply list_elem_of_fmap.
      exists (id socket,
              {| Session.odlserId := Session.odlserId u;
                 Session.username := Session.username u;
                 Session.rooms := set_add room (Session.rooms u);
                 Session.firebaseUid := Session.firebaseUid u |}).
      split; [reflexivity |]. apply map_get_elem_of.
      rewrite join_room_state. cbn [onlineUsers with_registry].
      unfold update_rooms. rewrite Hu. apply map_get_set_eq.
Qed.

(** *** A whole session leaves no trace *)

Section Fresh.
Context {V : Type}.
Implicit Types (m : list (string * V)) (k : string) (v : V).

Lemma map_get_fresh k m : k ∉ map_keys m → map_get k m = None.
Proof.
  intros Hk. destruct (map_get k m) as [v |] eqn:Hv; [| done].
  by apply map_get_Some_keys in Hv.
Qed.

Lemma map_set_fresh k v m : k ∉ map_keys m → map_set k v m = m ++ [(k, v)].
Proof.
  unfold map_keys. induction m as [| [k0 v0] m IH]; intros Hk; [done |].
  change (((k0, v0) :: m).*1) with (k0 :: m.*1) in Hk.
  apply not_elem_of_cons in Hk as [Hne Hk]. cbn [map_set].
  destruct (String.eqb_spec k k0); [done |]. by rewrite IH.
Qed.

Lemma map_set_last k v v' m : k ∉ map_keys m → map_set k v' (m ++ [(k, v)]) = m ++ [(k, v')].
Proof.
  unfold map_keys. induction m as [| [k0 v0] m IH]; intros Hk.
  - cbn. by rewrite String.eqb_refl.
  - change (((k0, v0) :: m).*1) with (k0 :: m.*1) in Hk.
    apply not_elem_of_cons in Hk as [Hne Hk]. cbn [map_set app].
    destruct (String.eqb_spec k k0); [done |]. by rewrite IH.
Qed.

Lemma map_get_last k v m : k ∉ map_keys m → map_get k (m ++ [(k, v)]) = Some v.
Proof.
  intros Hk. rewrite <- (map_set_fresh k v m Hk). apply map_get_set_eq.
Qed.

Lemma map_delete_fresh k m : k ∉ map_keys m → map_delete k m = m.
Proof.
  unfold map_keys. induction m as [| [k0 v0] m IH]; intros Hk; [done |].
  change (((k0, v0) :: m).*1) with (k0 :: m.*1) in Hk.
  apply not_elem_of_cons in Hk as [Hne Hk]. cbn [map_delete].
  destruct (String.eqb_spec k k0); [done |]. by rewrite IH.
Qed.

Lemma map_delete_last k v m : k ∉ map_keys m → map_delete k (m ++ [(k, v)]) = m.
Proof.
  unfold map_keys. induction m as [| [k0 v0] m IH]; intros Hk.
  - cbn. by rewrite String.eqb_refl.
  - change (((k0, v0) :: m).*1) with (k0 :: m.*1) in Hk.
    apply not_elem_of_cons in Hk as [Hne Hk]. cbn [map_delete app].
    destruct (String.eqb_spec k k0); [done |]. by rewrite IH.
Qed.

End Fresh.

Lemma during_connect socket st :
  id socket ∉ map_keys (onlineUsers st) →
  (∀ room, id socket ∉ default ∅ (adapter st !! room)) →
  during socket st (handle (Connect socket) st).1.
Proof.
  intros Hfresh Hrooms. cbn [handle].
  assert (∀ room, default ∅ (adapter (nsp_add socket st) !! room) ∖ {[id socket]}
                  = default ∅ (adapter st !! room)) as Hadapter.
  { intros room. unfold nsp_add, socket_join. cbn [adapter with_adapter with_sockets].
    destruct (decide (room = id socket)) as [-> | Hne].
    - rewrite lookup_insert_eq.
      change (default ∅ (Some ({[id socket]} ∪ default ∅ (adapter st !! id socket))))
        with ({[id socket]} ∪ default ∅ (adapter st !! id socket)).
      specialize (Hrooms (id socket)). set_solver.
    - rewrite lookup_insert_ne by done. specialize (Hrooms room). set_solver. }
  unfold during.
  split; [| split; [| split; [| split]]].
  - unfold connection. destruct (odlserId socket), (username socket); try done.
    by destruct (negb _ && negb _).
  - unfold connection. destruct (odlserId socket), (username socket); try done.
    by destruct (negb _ && negb _).
  - unfold connection.
    destruct (odlserId socket) as [uid |]; [| by left].
    destruct (username socket) as [name |]; [| by left].
    destruct (negb (String.eqb uid "") && negb (String.eqb name "")); [| by left].
    right. eexists. cbn [fst onlineUsers with_registry].
    by apply map_set_fresh.
  - reflexivity.
  - intros room. rewrite <- Hadapter. unfold connection.
    destruct (odlserId socket), (username socket); try done.
    by destruct (negb _ && negb _).
Qed.

Lemma update_rooms_during f socket (m : list (string * Session.UserData)) m' :
  id socket ∉ map_keys m →
  (m' = m ∨ ∃ v, m' = m ++ [(id socket, v)]) →
  update_rooms f (id socket) m' = m ∨ ∃ v, update_rooms f (id socket) m' = m ++ [(id socket, v)].
Proof.
  intros Hfresh [-> | [v ->]]; unfold update_rooms.
  - left. by rewrite map_get_fresh.
  - right. rewrite map_get_last by done. eexists. by apply map_set_last.
Qed.

Lemma socket_leave_other_room socket room room' st :
  room' ≠ room → adapter (socket_leave socket room st) !! room' = adapter st !! room'.
Proof.
  intros Hne. unfold socket_leave. destruct (adapter st !! room); [| done].
  case_decide; cbn [adapter with_adapter].
  - by rewrite lookup_delete_ne.
  - by rewrite lookup_insert_ne.
Qed.

Lemma during_room_op socket op st mid :
  id socket ∉ map_keys (onlineUsers st) →
  during socket st mid →
  during socket st (handle (room_input socket op) mid).1.
Proof.
  intros Hfresh (Hs & Hm & Ho & Hu & Ha).
  destruct op as [room | room]; cbn [room_input handle].
  - unfold during, join_room, socket_join.
    cbn [fst sockets messageStore onlineUsers userSockets adapter with_registry
         with_adapter].
    split; [done |]. split; [done |].
    split; [by apply update_rooms_during |]. split; [done |].
    intros room'. destruct (decide (room' = room)) as [-> | Hne].
    + rewrite lookup_insert_eq. specialize (Ha room).
      change (default ∅ (Some ({[id socket]} ∪ default ∅ (adapter mid !! room))))
        with ({[id socket]} ∪ default ∅ (adapter mid !! room)).
      rewrite <- Ha. set_solver.
    + by rewrite lookup_insert_ne.
  - destruct (socket_leave_sockets socket room mid) as (Hs' & Ho' & Hu').
    unfold during, leave_room.
    cbn [fst sockets messageStore onlineUsers userSockets adapter with_registry].
    split; [congruence |].
    split. { unfold socket_leave. destruct (adapter mid !! room); [case_decide |]; done. }
    split; [rewrite Ho'; by apply update_rooms_during |].
    split; [congruence |].
    intros room'. destruct (decide (room' = room)) as [-> | Hne].
    + rewrite socket_leave_room_set. specialize (Ha room). rewrite <- Ha. set_solver.
    + by rewrite socket_leave_other_room.
Qed.

Lemma during_room_ops socket ops : ∀ st mid,
  id socket ∉ map_keys (onlineUsers st) →
  during socket st mid →
  during socket st (run (room_input socket <$> ops) mid).
Proof.
  induction ops as [| op ops IH]; intros st mid Hfresh Hmid; [done |].
  cbn [fmap list_fmap]. unfold run. cbn [foldl].
  apply (IH st); [done |]. by apply during_room_op.
Qed.

(** A connection that is new to the relay (its socket id and its user id
    are on no record) and that connects, joins and leaves rooms as it
    likes and disconnects, leaves the session registry, the identity
    map, the namespace, the message buffer and the membership of every
    room exactly as they were. *)
Theorem session_leaves_no_trace (socket : AuthenticatedSocket) (ops : list RoomOp)
    (updateDoc_ok : bool) (st : State) :
  id socket ∉ map_keys (onlineUsers st) →
  (∀ s, s ∈ sockets st → id s ≠ id socket) →
  (∀ uid, odlserId socket = Some uid → userSockets st !! uid = None) →
  (∀ room, id socket ∉ default ∅ (adapter st !! room)) →
  onlineUsers (run (session socket ops updateDoc_ok) st) = onlineUsers st
  ∧ userSockets (run (session socket ops updateDoc_ok) st) = userSockets st
  ∧ sockets (run (session socket ops updateDoc_ok) st) = sockets st
  ∧ messageStore (run (session socket ops updateDoc_ok) st) = messageStore st
  ∧ ∀ room, default ∅ (adapter (run (session socket ops updateDoc_ok) st) !! room)
            = default ∅ (adapter st !! room).
Proof.
  intros Hfresh Hsockets Hident Hrooms.
  unfold session, run. cbn [foldl]. rewrite foldl_app. cbn [foldl].
  pose proof (during_room_ops socket ops st _ Hfresh (during_connect socket st Hfresh Hrooms))
    as (Hs & Hm & Ho & Hu & Ha).
  unfold run in Hs, Hm, Ho, Hu, Ha.
  set (mid := foldl (λ st i, (handle i st).1) (handle (Connect socket) st).1
                (room_input socket <$> ops)) in *.
  cbn [handle]. unfold disconnect.
  cbn [fst sockets messageStore onlineUsers userSockets adapter with_registry].
  assert (onlineUsers (nsp_remove socket mid) = onlineUsers mid) as -> by reflexivity.
  assert (userSockets (nsp_remove socket mid) = userSockets mid) as -> by reflexivity.
  assert (messageStore (nsp_remove socket mid) = messageStore mid) as -> by reflexivity.
  split.
  { destruct Ho as [-> | [v ->]]; [by apply map_delete_fresh | by apply map_delete_last]. }
  split.
  { rewrite Hu. unfold connection.
    destruct (odlserId socket) as [uid |] eqn:Huid; [| by destruct (username socket)].
    specialize (Hident uid eq_refl).
    destruct (username socket) as [name |].
    - destruct (String.eqb_spec uid "") as [-> | Hne]; cbn [negb andb fst]; [done |].
      destruct (negb (String.eqb name "")); cbn [fst userSockets with_registry].
      + by apply delete_insert_id.
      + by apply delete_id.
    - cbn [fst]. destruct (String.eqb uid ""); [done | by apply delete_id]. }
  split.
  { unfold nsp_remove. cbn [sockets with_adapter with_sockets]. rewrite Hs.
    rewrite filter_app, filter_cons_False, filter_nil, app_nil_r by tauto.
    clear -Hsockets. induction (sockets st) as [| s l IH]; [done |].
    rewrite filter_cons_True by (apply Hsockets, list_elem_of_here).
    f_equal. apply IH. intros s' Hs'. apply Hsockets. by apply list_elem_of_further. }
  split; [done |].
  intros room. by rewrite nsp_remove_room_set.
Qed.

Lemma session_leaves_no_trace_witness :
  onlineUsers (run (session carol [Join "general"; Join "music"; Leave "general"] false)
                 general_room) = onlineUsers general_room
  ∧ userSockets (run (session carol [Join "general"; Join "music"; Leave "general"] false)
                   general_room) = userSockets general_room
  ∧ sockets (run (session carol [Join "general"; Join "music"; Leave "general"] false)
               general_room) = sockets general_room
  ∧ messageStore (run (session carol [Join "general"; Join "music"; Leave "general"] false)
                    general_room) = messageStore general_room
  ∧ ∀ room,
      default ∅ (adapter (run (session carol [Join "general"; Join "music"; Leave "general"]
                                 false) general_room) !! room)
      = default ∅ (adapter general_room !! room).
Proof.
  apply (session_leaves_no_trace carol [Join "general"; Join "music"; Leave "general"]
           false general_room).
  - list_mem.
  - intros s Hs. cbn in Hs.
    repeat (apply elem_of_cons in Hs as [-> | Hs]; [discriminate |]).
    by apply elem_of_nil in Hs.
  - intros uid [= <-]. reflexivity.
  - intros room Hin.
    destruct (adapter general_room !! room) as [members |] eqn:Hroom;
      [| by apply not_elem_of_empty in Hin].
    assert (map_Forall (λ _ (members : gset string), "sC" ∉ members)
              (adapter general_room)) as Hall.
    { apply (bool_decide_unpack _). vm_compute. exact I. }
    by apply (Hall room members Hroom).
Defined.

End RelayMore.

(** ** Authentication over HTTP and the key directory *)

Module AuthMore.
Import Firestore AuthMiddleware.

(** The HTTP middleware lets a request through exactly when the
    [Authorization] header starts with "Bearer ", the UID header is
    present and the user query finds a document; the request then
    carries the id of the first document found.  Every refusal is a
    401. *)
Theorem authMiddleware_passes_iff (authorization x_firebase_uid : option string)
    (querySnapshot : Relay.QueryResult) (userId : string) (username : option string)
    (firebaseUid : string) :
  (authMiddleware authorization x_firebase_uid querySnapshot = next userId username firebaseUid
   ↔ (∃ authHeader, authorization = Some authHeader
                    ∧ String.prefix "Bearer " authHeader = true)
     ∧ x_firebase_uid = Some firebaseUid
     ∧ firebaseUid ≠ ""
     ∧ ∃ rest, querySnapshot = Relay.getDocs_docs ((userId, username) :: rest))
  ∧ (∀ code error,
       authMiddleware authorization x_firebase_uid querySnapshot = status_json code error →
       code = 401).
Proof.
  unfold authMiddleware. split; [split |].
  - destruct authorization as [h |]; [| discriminate].
    destruct (String.eqb_spec h "") as [-> | Hh]; [discriminate |].
    destruct (String.prefix "Bearer " h) eqn:Hp; [| discriminate]. cbn [negb orb].
    destruct x_firebase_uid as [u |]; [| discriminate].
    destruct (String.eqb_spec u "") as [-> | Hu]; [discriminate |].
    destruct querySnapshot as [| [| [docId uname] rest]]; try discriminate.
    intros [= <- <- <-]. eauto 10.
  - intros ((h & -> & Hp) & -> & Hu & rest & ->).
    destruct (String.eqb_spec h "") as [-> | Hh]; [discriminate |].
    rewrite Hp. cbn [negb orb].
    by destruct (String.eqb_spec firebaseUid "").
  - intros code error.
    destruct authorization as [h |]; [| by intros [= <- _]].
    destruct (String.eqb h "" || negb (String.prefix "Bearer " h)); [by intros [= <- _] |].
    destruct x_firebase_uid as [u |]; [| by intros [= <- _]].
    destruct (String.eqb u ""); [by intros [= <- _] |].
    destruct querySnapshot as [| [| [docId uname] rest]];
      (by intros [= <- _]) || discriminate.
Qed.

(** Whatever follows "Bearer " is never looked at.  A request the HTTP
    middleware lets through is, for the same UID and query result and
    under any credential that is present, let through by the socket
    handshake as the same user when the handshake's presence write
    succeeds; when that write fails the handshake refuses with
    "Authentication failed" what the middleware lets through. *)
Theorem authentication_by_uid_alone (authHeader authHeader' : string)
    (x_firebase_uid : option string) (querySnapshot : Relay.QueryResult) :
  String.prefix "Bearer " authHeader = true →
  String.prefix "Bearer " authHeader' = true →
  authMiddleware (Some authHeader') x_firebase_uid querySnapshot
  = authMiddleware (Some authHeader) x_firebase_uid querySnapshot
  ∧ (∀ userId username firebaseUid socket_id token hs_username updateDoc_ok,
       authMiddleware (Some authHeader) x_firebase_uid querySnapshot
       = next userId username firebaseUid →
       Js.truthy token = true →
       ∃ socket,
         Socket.id socket = socket_id
         ∧ Socket.odlserId socket = Some userId
         ∧ Socket.firebaseUid socket = Some firebaseUid
         ∧ Relay.io_use socket_id
             {| Relay.token := token; Relay.hs_firebaseUid := x_firebase_uid;
                Relay.hs_username := hs_username |} querySnapshot updateDoc_ok
           = if updateDoc_ok then Relay.next socket
             else Relay.next_Error "Authentication failed").
Proof.
  intros Hp Hp'.
  assert (∀ h, String.prefix "Bearer " h = true → String.eqb h "" = false) as Hnonempty.
  { intros h Hh. destruct (String.eqb_spec h "") as [-> | ?]; [discriminate | done]. }
  split.
  - unfold authMiddleware. by rewrite Hp, Hp', !Hnonempty.
  - intros userId username firebaseUid socket_id token hs_username updateDoc_ok
      Hpass Htoken.
    unfold authMiddleware in Hpass. rewrite Hp, Hnonempty in Hpass by done.
    cbn [negb orb] in Hpass.
    destruct x_firebase_uid as [u |]; [| discriminate].
    destruct (String.eqb_spec u "") as [-> | Hu]; [discriminate |].
    destruct querySnapshot as [| [| [docId uname] rest]]; try discriminate.
    injection Hpass as <- <- <-.
    unfold Relay.io_use.
    cbn [Relay.token Relay.hs_firebaseUid Relay.hs_username Js.truthy].
    rewrite Htoken. destruct (String.eqb_spec u ""); [done |]. cbn [negb orb].
    exists {| Socket.id := socket_id; Socket.odlserId := Some docId;
              Socket.username := Js.or uname hs_username;
              Socket.firebaseUid := Some u |}.
    by destruct updateDoc_ok.
Qed.

Lemma authentication_by_uid_alone_witness :
  authMiddleware (Some "Bearer anything") (Some "fa")
    (Relay.getDocs_docs [("alice", Some "Alice")])
  = authMiddleware (Some "Bearer id-token") (Some "fa")
      (Relay.getDocs_docs [("alice", Some "Alice")])
  ∧ (∀ userId username firebaseUid socket_id token hs_username updateDoc_ok,
       authMiddleware (Some "Bearer id-token") (Some "fa")
         (Relay.getDocs_docs [("alice", Some "Alice")])
       = next userId username firebaseUid →
       Js.truthy token = true →
       ∃ socket,
         Socket.id socket = socket_id
         ∧ Socket.odlserId socket = Some userId
         ∧ Socket.firebaseUid socket = Some firebaseUid
         ∧ Relay.io_use socket_id
             {| Relay.token := token; Relay.hs_firebaseUid := Some "fa";
                Relay.hs_username := hs_username |}
             (Relay.getDocs_docs [("alice", Some "Alice")]) updateDoc_ok
           = if updateDoc_ok then Relay.next socket
             else Relay.next_Error "Authentication failed").
Proof.
  apply (authentication_by_uid_alone "Bearer id-token" "Bearer anything" (Some "fa")
           (Relay.getDocs_docs [("alice", Some "Alice")])); reflexivity.
Defined.

(** The two doors at work: the same UID and user under a made-up bearer
    value and a made-up token; the middleware passes, the handshake
    passes or refuses with the presence write. *)
Example same_uid_two_doors :
  authMiddleware (Some "Bearer anything") (Some "fa")
    (Relay.getDocs_docs [("alice", Some "Alice")])
  = next "alice" (Some "Alice") "fa"
  ∧ Relay.io_use "sA" Relay.alice_handshake (Relay.getDocs_docs [("alice", Some "Alice")]) true
    = Relay.next Relay.alice
  ∧ Relay.io_use "sA" Relay.alice_handshake (Relay.getDocs_docs [("alice", Some "Alice")]) false
    = Relay.next_Error "Authentication failed".
Proof. repeat split. Qed.

(** A user's key upload is read back by the key directory: after a
    successful [POST /public-key] the directory answers that user's
    lookups with the uploaded key, answers every other user's lookups as
    before, and friend lists and friend requests are as they were.  An
    upload without a key is refused with 400 and writes nothing. *)
Theorem public_key_upload_then_lookup (userId key : string) (db : Db) (u : User) :
  users db !! userId = Some u →
  key ≠ "" →
  (KeyUpload.post_public_key None userId (Some key) None db).2
    = KeyUpload.json "Public key stored successfully"
  ∧ AuthRoutes.get_public_key None userId None
      (KeyUpload.post_public_key None userId (Some key) None db).1
    = AuthRoutes.json_publicKey key
  ∧ (∀ other, other ≠ userId →
       AuthRoutes.get_public_key None other None
         (KeyUpload.post_public_key None userId (Some key) None db).1
       = AuthRoutes.get_public_key None other None db)
  ∧ friendRequests (KeyUpload.post_public_key None userId (Some key) None db).1
    = friendRequests db
  ∧ (∀ any, Friends.friends_of (KeyUpload.post_public_key None userId (Some key) None db).1 any
            = Friends.friends_of db any)
  ∧ KeyUpload.post_public_key None userId None None db
    = (db, KeyUpload.status_json 400 "Public key is required")
  ∧ KeyUpload.post_public_key None userId (Some "") None db
    = (db, KeyUpload.status_json 400 "Public key is required").
Proof.
  intros Hu Hkey. unfold KeyUpload.post_public_key. cbn [negb].
  destruct (String.eqb_spec key ""); [done |].
  rewrite FriendsFacts.throws_None, Hu. cbn [fst snd].
  split; [reflexivity |]. split.
  { unfold AuthRoutes.get_public_key. cbn [negb users].
    rewrite FriendsFacts.throws_None, lookup_insert_eq.
    cbn [publicKey KeyUpload.with_publicKey Js.truthy default].
    by destruct (String.eqb_spec key ""). }
  split.
  { intros other Hother. unfold AuthRoutes.get_public_key. cbn [negb users].
    by rewrite lookup_insert_ne. }
  split; [reflexivity |]. split; [| done].
  intros any. unfold Friends.friends_of. cbn [users].
  destruct (decide (any = userId)) as [-> | Hne].
  - by rewrite lookup_insert_eq, Hu.
  - by rewrite lookup_insert_ne.
Qed.

Lemma public_key_upload_then_lookup_witness :
  (KeyUpload.post_public_key None "ann" (Some "K") None Friends.friends_db).2
    = KeyUpload.json "Public key stored successfully"
  ∧ AuthRoutes.get_public_key None "ann" None
      (KeyUpload.post_public_key None "ann" (Some "K") None Friends.friends_db).1
    = AuthRoutes.json_publicKey "K"
  ∧ (∀ other, other ≠ "ann" →
       AuthRoutes.get_public_key None other None
         (KeyUpload.post_public_key None "ann" (Some "K") None Friends.friends_db).1
       = AuthRoutes.get_public_key None other None Friends.friends_db)
  ∧ friendRequests (KeyUpload.post_public_key None "ann" (Some "K") None Friends.friends_db).1
    = friendRequests Friends.friends_db
  ∧ (∀ any,
       Friends.friends_of
         (KeyUpload.post_public_key None "ann" (Some "K") None Friends.friends_db).1 any
       = Friends.friends_of Friends.friends_db any)
  ∧ KeyUpload.post_public_key None "ann" None None Friends.friends_db
    = (Friends.friends_db, KeyUpload.status_json 400 "Public key is required")
  ∧ KeyUpload.post_public_key None "ann" (Some "") None Friends.friends_db
    = (Friends.friends_db, KeyUpload.status_json 400 "Public key is required").
Proof.
  apply (public_key_upload_then_lookup "ann" "K" Friends.friends_db Friends.ann);
    [reflexivity | discriminate].
Defined.

End AuthMore.

(** ** Sending, cancelling and unfriending *)

Module FriendRoutesFacts.
Import Firestore Friends FriendsFacts FriendRoutes.

Lemma pending_between_empty s r db :
  pending_between s r db = ∅
  ↔ ∀ id q, friendRequests db !! id = Some q →
            ¬ (senderId q = s ∧ recipientId q = r ∧ status q = pending).
Proof.
  unfold pending_between. rewrite map_empty. split.
  - intros Hnone id q Hq Hmatch.
    specialize (Hnone id). apply map_lookup_filter_None in Hnone as [Hnone | Hnone].
    + congruence.
    + by apply (Hnone q Hq).
  - intros Hall id. apply map_lookup_filter_None.
    destruct (friendRequests db !! id) as [q |] eqn:Hq; [| by left].
    right. intros q' [= <-]. by apply (Hall id q).
Qed.

Lemma send_request_outcome (userId recipientId newId : string) (outage : option nat)
    (db : Db) :
  ((send_request userId recipientId newId outage db).1 = db
   ∧ ∃ code error, (send_request userId recipientId newId outage db).2
                   = status_json code error)
  ∨ (recipientId ≠ userId
     ∧ recipientId ∉ friends_of db userId
     ∧ pending_between userId recipientId db = ∅
     ∧ pending_between recipientId userId db = ∅
     ∧ (∃ recipientData,
          users db !! recipientId = Some recipientData
          ∧ (send_request userId recipientId newId outage db).2
            = json_201 "Friend request sent" newId recipientId
                (username recipientData) (avatar recipientData))
     ∧ (send_request userId recipientId newId outage db).1
       = {| users := users db;
            friendRequests :=
              <[newId := {| senderId := userId; recipientId := recipientId;
                            status := pending |}]> (friendRequests db) |}).
Proof.
  unfold send_request.
  repeat first
    [ left; split; [reflexivity | by eexists _, _]
    | match goal with
      | |- context [if decide ?q then _ else _] => destruct (decide q)
      | |- context [if throws ?o ?n then _ else _] => destruct (throws o n)
      | |- context [match users db !! recipientId with _ => _ end] =>
          destruct (users db !! recipientId) as [recipientData |]
      end ].
  right. cbn [fst snd]. repeat (split; [done |]). split; [| done].
  by exists recipientData.
Qed.

Lemma send_request_created (userId recipientId newId : string) (db : Db) recipientData :
  recipientId ≠ userId →
  users db !! recipientId = Some recipientData →
  recipientId ∉ friends_of db userId →
  pending_between userId recipientId db = ∅ →
  pending_between recipientId userId db = ∅ →
  send_request userId recipientId newId None db
  = ({| users := users db;
        friendRequests :=
          <[newId := {| senderId := userId; recipientId := recipientId;
                        status := pending |}]> (friendRequests db) |},
     json_201 "Friend request sent" newId recipientId
       (username recipientData) (avatar recipientData)).
Proof.
  intros Hne Hrd Hfriends Hout Hin. unfold send_request.
  rewrite !throws_None, Hrd.
  rewrite decide_False by done. rewrite decide_False by done.
  rewrite decide_True by done. by rewrite decide_True by done.
Qed.

(** [POST /request/:userId] either answers an error and writes nothing,
    or creates one pending request from the caller to the recipient; it
    creates one only if the recipient is another, existing user, is not
    in the caller's friend list, and no request is pending between the
    two in either direction; and with the store up it does create one
    whenever all that holds. *)
Theorem send_request_cases (userId recipientId newId : string) (outage : option nat)
    (db : Db) :
  (((send_request userId recipientId newId outage db).1 = db
    ∧ ∃ code error, (send_request userId recipientId newId outage db).2
                    = status_json code error)
   ∨ (recipientId ≠ userId
      ∧ recipientId ∉ friends_of db userId
      ∧ pending_between userId recipientId db = ∅
      ∧ pending_between recipientId userId db = ∅
      ∧ (∃ recipientData,
           users db !! recipientId = Some recipientData
           ∧ (send_request userId recipientId newId outage db).2
             = json_201 "Friend request sent" newId recipientId
                 (username recipientData) (avatar recipientData))
      ∧ (send_request userId recipientId newId outage db).1
        = {| users := users db;
             friendRequests :=
               <[newId := {| senderId := userId; recipientId := recipientId;
                             status := pending |}]> (friendRequests db) |}))
  ∧ (outage = None →
     recipientId ≠ userId →
     is_Some (users db !! recipientId) →
     recipientId ∉ friends_of db userId →
     pending_between userId recipientId db = ∅ →
     pending_between recipientId userId db = ∅ →
     ∃ username avatar,
       (send_request userId recipientId newId outage db).2
       = json_201 "Friend request sent" newId recipientId username avatar).
Proof.
  split; [apply send_request_outcome |].
  intros -> Hne [recipientData Hrd] Hfriends Hout Hin.
  rewrite (send_request_created _ _ _ _ recipientData) by done. by eexists _, _.
Qed.

Lemma attempt_same_request (a : Attempt) (db : Db) :
  friendRequests (attempt a db).1 !! attempt_request a
  = friendRequests db !! attempt_request a
  ∨ ∃ q, friendRequests (attempt a db).1 !! attempt_request a = Some q
         ∧ status q ≠ pending.
Proof.
  destruct (attempt_nothing_or_terminal a db) as [-> | Hterminal]; [by left | by right].
Qed.

Lemma step_requests (op : Op) (db : Db) :
  (match op with SendRequest _ _ n _ => friendRequests db !! n = None | _ => True end) →
  ∀ id q, friendRequests (step op db) !! id = Some q → status q = pending →
    friendRequests db !! id = Some q
    ∨ ∃ u r o, op = SendRequest u r id o
               ∧ q = {| senderId := u; recipientId := r; status := pending |}
               ∧ pending_between u r db = ∅ ∧ pending_between r u db = ∅.
Proof.
  intros Hfresh id q Hq Hpending.
  destruct op as [u r n o | a | u r o | u f o]; cbn [step] in Hq.
  - destruct (send_request_outcome u r n o db) as [[Hsame _] | Hcreated].
    + left. by rewrite Hsame in Hq.
    + destruct Hcreated as (_ & _ & Hout & Hin & _ & Hdb). rewrite Hdb in Hq.
      cbn [friendRequests] in Hq.
      destruct (decide (id = n)) as [-> | Hne].
      * rewrite lookup_insert_eq in Hq. injection Hq as <-. right. by eexists _, _, _.
      * rewrite lookup_insert_ne in Hq by done. by left.
  - left. destruct (decide (attempt_request a = id)) as [<- | Hne].
    + destruct (attempt_same_request a db) as [Hsame | (q' & Hq' & Hsettled)].
      * by rewrite <- Hsame.
      * rewrite Hq' in Hq. by injection Hq as ->.
    + by rewrite attempt_other_request in Hq.
  - left. revert Hq. unfold cancel_request.
    destruct (throws o 0); [done |].
    destruct (first_doc_id (pending_between u r db)) as [rid |]; [| done].
    destruct (throws o 1); [done |]. cbn [fst friendRequests].
    destruct (decide (rid = id)) as [-> | Hne].
    + by rewrite lookup_delete_eq.
    + by rewrite lookup_delete_ne.
  - left. revert Hq. unfold remove_friend, update_user_friends_remove.
    destruct (throws o 0); [done |].
    destruct (users db !! u); [| done]. cbn [users].
    destruct (throws o 1); [done |].
    by destruct (<[u:=_]> (users db) !! f).
Qed.

Lemma step_keeps_one_pending (op : Op) (db : Db) :
  (match op with SendRequest _ _ n _ => friendRequests db !! n = None | _ => True end) →
  one_pending_per_pair db → one_pending_per_pair (step op db).
Proof.
  intros Hfresh Hinv id1 id2 r1 r2 H1 H2 Hp1 Hp2 Hpair.
  destruct (step_requests op db Hfresh id1 r1 H1 Hp1) as [Hold1 | Hnew1],
           (step_requests op db Hfresh id2 r2 H2 Hp2) as [Hold2 | Hnew2].
  - by apply (Hinv id1 id2 r1 r2).
  - exfalso. destruct Hnew2 as (u & r & o & -> & -> & Hout & Hin).
    cbn [senderId recipientId] in Hpair.
    rewrite pending_between_empty in Hout, Hin.
    destruct Hpair as [[? ?] | [? ?]]; [by apply (Hout id1 r1) | by apply (Hin id1 r1)].
  - exfalso. destruct Hnew1 as (u & r & o & -> & -> & Hout & Hin).
    cbn [senderId recipientId] in Hpair.
    rewrite pending_between_empty in Hout, Hin.
    destruct Hpair as [[? ?] | [? ?]]; [by apply (Hout id2 r2) | by apply (Hin id2 r2)].
  - destruct Hnew1 as (u & r & o & -> & _), Hnew2 as (u' & r' & o' & Heq & _).
    by injection Heq.
Qed.

(** Through any run of friend requests sent, accepted, rejected and
    cancelled and of friends removed, served one after the other and
    with the store failing wherever it likes, there is never more than
    one pending request between two users, in whichever direction. *)
Theorem one_pending_request_per_pair (ops : list Op) : ∀ db,
  one_pending_per_pair db →
  fresh_ids ops db →
  one_pending_per_pair (foldl (λ d op, step op d) db ops).
Proof.
  induction ops as [| op ops IH]; intros db Hinv Hfresh; [done |].
  destruct Hfresh as [Hop Hfresh]. cbn [foldl].
  apply IH; [| done]. by apply step_keeps_one_pending.
Qed.

Lemma one_pending_request_per_pair_witness :
  one_pending_per_pair (foldl (λ d op, step op d) friends_db friends_run).
Proof.
  apply (one_pending_request_per_pair friends_run friends_db).
  - intros id1 id2 r1 r2 H1 H2 _ _ _. cbn [friends_db friendRequests] in H1, H2.
    apply lookup_singleton_Some in H1 as [<- _].
    by apply lookup_singleton_Some in H2 as [<- _].
  - vm_compute. repeat split.
Defined.

Lemma arrayRemove_elem x y l : y ∈ arrayRemove x l ↔ y ∈ l ∧ y ≠ x.
Proof. unfold arrayRemove. rewrite list_elem_of_filter. tauto. Qed.

Lemma arrayUnion_elem_iff x y l : y ∈ arrayUnion x l ↔ y ∈ l ∨ y = x.
Proof.
  unfold arrayUnion. case_decide.
  - split; [by left | intros [? | ->]; done].
  - rewrite elem_of_app, list_elem_of_singleton. tauto.
Qed.

Lemma friends_of_insert db u usr l reqs a :
  friends_of {| users := <[u := with_friends l usr]> (users db); friendRequests := reqs |} a
  = if decide (a = u) then l else friends_of db a.
Proof.
  unfold friends_of. cbn [users]. case_decide as Ha.
  - subst a. by rewrite lookup_insert_eq.
  - by rewrite lookup_insert_ne.
Qed.

Lemma union_friend_relation u x db usr :
  users db !! u = Some usr →
  ∃ db', update_user_friends_union u x db = Some db'
    ∧ friendRequests db' = friendRequests db
    ∧ (∀ k, is_Some (users db' !! k) ↔ is_Some (users db !! k))
    ∧ ∀ a b, b ∈ friends_of db' a ↔ b ∈ friends_of db a ∨ (a = u ∧ b = x).
Proof.
  intros Hu. unfold update_user_friends_union. rewrite Hu. eexists. split; [done |].
  split; [done |]. cbn [users]. split.
  - intros k. destruct (decide (k = u)) as [-> | Hk].
    + rewrite lookup_insert_eq, Hu. split; by eexists.
    + by rewrite lookup_insert_ne.
  - intros a b. rewrite friends_of_insert. case_decide as Ha.
    + subst a. rewrite arrayUnion_elem_iff. unfold friends_of. rewrite Hu. cbn. tauto.
    + tauto.
Qed.

Lemma remove_friend_relation u x db usr :
  users db !! u = Some usr →
  ∃ db', update_user_friends_remove u x db = Some db'
    ∧ friendRequests db' = friendRequests db
    ∧ (∀ k, is_Some (users db' !! k) ↔ is_Some (users db !! k))
    ∧ ∀ a b, b ∈ friends_of db' a ↔ b ∈ friends_of db a ∧ ¬ (a = u ∧ b = x).
Proof.
  intros Hu. unfold update_user_friends_remove. rewrite Hu. eexists. split; [done |].
  split; [done |]. cbn [users]. split.
  - intros k. destruct (decide (k = u)) as [-> | Hk].
    + rewrite lookup_insert_eq, Hu. split; by eexists.
    + by rewrite lookup_insert_ne.
  - intros a b. rewrite friends_of_insert. case_decide as Ha.
    + subst a. rewrite arrayRemove_elem. unfold friends_of. rewrite Hu. cbn. tauto.
    + tauto.
Qed.

Lemma remove_friend_outcome (userId friendId : string) (db : Db) :
  is_Some (users db !! userId) →
  is_Some (users db !! friendId) →
  (remove_friend userId friendId None db).2 = json "Friend removed"
  ∧ friendRequests (remove_friend userId friendId None db).1 = friendRequests db
  ∧ (∀ k, is_Some (users (remove_friend userId friendId None db).1 !! k)
          ↔ is_Some (users db !! k))
  ∧ ∀ a b, b ∈ friends_of (remove_friend userId friendId None db).1 a
           ↔ b ∈ friends_of db a
             ∧ ¬ (a = userId ∧ b = friendId) ∧ ¬ (a = friendId ∧ b = userId).
Proof.
  intros [usr Hu] Hf. unfold remove_friend. rewrite !throws_None.
  destruct (remove_friend_relation userId friendId db usr Hu)
    as (db1 & H1 & Hreq1 & Hdom1 & Hrel1).
  destruct (proj2 (Hdom1 friendId) Hf) as [fr Hfr].
  destruct (remove_friend_relation friendId userId db1 fr Hfr)
    as (db2 & H2 & Hreq2 & Hdom2 & Hrel2).
  rewrite H1, H2. cbn [fst snd]. split; [done |]. split; [congruence |]. split.
  - intros k. by rewrite Hdom2, Hdom1.
  - intros a b. rewrite Hrel2, Hrel1. tauto.
Qed.

(** [DELETE /:friendId] between two users who both have a document
    answers "Friend removed", takes each out of the other's friend list
    and changes nothing else of the friend relation, the set of users or
    the friend requests.  It does not ask whether the two were friends:
    between strangers it answers the same and the friend relation stays
    as it was. *)
Theorem remove_friend_unfriends (userId friendId : string) (db : Db) :
  is_Some (users db !! userId) →
  is_Some (users db !! friendId) →
  (remove_friend userId friendId None db).2 = json "Friend removed"
  ∧ friendRequests (remove_friend userId friendId None db).1 = friendRequests db
  ∧ (∀ k, is_Some (users (remove_friend userId friendId None db).1 !! k)
          ↔ is_Some (users db !! k))
  ∧ (∀ a b, b ∈ friends_of (remove_friend userId friendId None db).1 a
            ↔ b ∈ friends_of db a
              ∧ ¬ (a = userId ∧ b = friendId) ∧ ¬ (a = friendId ∧ b = userId))
  ∧ (friendId ∉ friends_of db userId → userId ∉ friends_of db friendId →
     ∀ a b, b ∈ friends_of (remove_friend userId friendId None db).1 a
            ↔ b ∈ friends_of db a).
Proof.
  intros Hu Hf.
  destruct (remove_friend_outcome userId friendId db Hu Hf) as (Hans & Hreq & Hdom & Hrel).
  repeat (split; [done |]).
  intros Hnot1 Hnot2 a b. rewrite Hrel. split; [tauto |].
  intros Hb. split; [done |]. split; intros [-> ->]; done.
Qed.

Lemma remove_friend_unfriends_witness :
  (remove_friend "ann" "ben" None friends_db).2 = json "Friend removed"
  ∧ friendRequests (remove_friend "ann" "ben" None friends_db).1
    = friendRequests friends_db
  ∧ (∀ k, is_Some (users (remove_friend "ann" "ben" None friends_db).1 !! k)
          ↔ is_Some (users friends_db !! k))
  ∧ (∀ a b, b ∈ friends_of (remove_friend "ann" "ben" None friends_db).1 a
            ↔ b ∈ friends_of friends_db a
              ∧ ¬ (a = "ann" ∧ b = "ben") ∧ ¬ (a = "ben" ∧ b = "ann"))
  ∧ ("ben" ∉ friends_of friends_db "ann" → "ann" ∉ friends_of friends_db "ben" →
     ∀ a b, b ∈ friends_of (remove_friend "ann" "ben" None friends_db).1 a
            ↔ b ∈ friends_of friends_db a).
Proof.
  apply (remove_friend_unfriends "ann" "ben" friends_db).
  - exists ann. reflexivity.
  - exists ben. reflexivity.
Defined.

(** If the second write of [DELETE /:friendId] fails, because the store
    does or because the friend has no document, the answer is 500 but
    the first write stays: the friend is gone from the caller's list,
    and every other list, the friend's included, is as it was. *)
Theorem remove_friend_half_done (userId friendId : string) (outage : option nat)
    (db : Db) :
  is_Some (users db !! userId) →
  outage = Some 1 ∨ (outage = None ∧ users db !! friendId = None) →
  (remove_friend userId friendId outage db).2 = status_json 500 "Failed to remove friend"
  ∧ friendId ∉ friends_of (remove_friend userId friendId outage db).1 userId
  ∧ ∀ a, a ≠ userId →
         friends_of (remove_friend userId friendId outage db).1 a = friends_of db a.
Proof.
  intros [usr Hu] Hfail. unfold remove_friend, update_user_friends_remove.
  assert (friendId ∉ friends_of
            {| users := <[userId := with_friends (arrayRemove friendId (friends usr)) usr]>
                          (users db);
               friendRequests := friendRequests db |} userId) as Hgone.
  { rewrite friends_of_insert, decide_True by done. rewrite arrayRemove_elem. tauto. }
  assert (∀ a, a ≠ userId →
            friends_of
              {| users := <[userId := with_friends (arrayRemove friendId (friends usr)) usr]>
                            (users db);
                 friendRequests := friendRequests db |} a
            = friends_of db a) as Hkept.
  { intros a Ha. by rewrite friends_of_insert, decide_False. }
  destruct Hfail as [-> | [-> Hf]].
  - change (throws (Some 1) 0) with false. change (throws (Some 1) 1) with true.
    rewrite Hu. done.
  - rewrite !throws_None, Hu. cbn [users].
    rewrite lookup_insert_ne by (intros ->; congruence). rewrite Hf. done.
Qed.

Lemma remove_friend_half_done_witness :
  (remove_friend "ben" "carl" None friends_db).2
    = status_json 500 "Failed to remove friend"
  ∧ "carl" ∉ friends_of (remove_friend "ben" "carl" None friends_db).1 "ben"
  ∧ ∀ a, a ≠ "ben" →
         friends_of (remove_friend "ben" "carl" None friends_db).1 a
         = friends_of friends_db a.
Proof.
  apply (remove_friend_half_done "ben" "carl" None friends_db).
  - exists ben. reflexivity.
  - right. split; reflexivity.
Defined.

Lemma accept_friend_relation db requestId r :
  friendRequests db !! requestId = Some r → status r = pending →
  is_Some (users db !! recipientId r) → is_Some (users db !! senderId r) →
  status_of (accept (recipientId r) requestId None db).1 requestId = Some accepted
  ∧ (∀ k, is_Some (users (accept (recipientId r) requestId None db).1 !! k)
          ↔ is_Some (users db !! k))
  ∧ ∀ a b, b ∈ friends_of (accept (recipientId r) requestId None db).1 a
           ↔ b ∈ friends_of db a
             ∨ (a = recipientId r ∧ b = senderId r) ∨ (a = senderId r ∧ b = recipientId r).
Proof.
  intros Hr Hs [ur Hur] Hus. unfold accept. rewrite !throws_None, Hr.
  rewrite decide_False by (intros [? | ?]; congruence).
  unfold update_request_status. rewrite Hr.
  set (db1 := {| users := users db;
                 friendRequests := <[requestId := with_status accepted r]>
                                     (friendRequests db) |}).
  destruct (union_friend_relation (recipientId r) (senderId r) db1 ur Hur)
    as (db2 & H2 & Hreq2 & Hdom2 & Hrel2).
  destruct (proj2 (Hdom2 (senderId r)) Hus) as [us Hus2].
  destruct (union_friend_relation (senderId r) (recipientId r) db2 us Hus2)
    as (db3 & H3 & Hreq3 & Hdom3 & Hrel3).
  rewrite H2, H3. cbn [fst]. split; [| split].
  - unfold status_of. rewrite Hreq3, Hreq2. subst db1. cbn [friendRequests].
    by rewrite lookup_insert_eq.
  - intros k. by rewrite Hdom3, Hdom2.
  - intros a b. rewrite Hrel3, Hrel2. unfold friends_of at 1. subst db1. cbn [users].
    fold (friends_of db a). tauto.
Qed.

(** Accepting a request between two users who were not friends and then
    unfriending, from either side, puts the friend relation back as it
    was before the request was accepted; the request itself stays
    accepted. *)
Theorem accept_then_remove_friend (db : Db) (requestId : string) (r : FriendRequest)
    (userId friendId : string) :
  friendRequests db !! requestId = Some r →
  status r = pending →
  is_Some (users db !! recipientId r) →
  is_Some (users db !! senderId r) →
  senderId r ∉ friends_of db (recipientId r) →
  recipientId r ∉ friends_of db (senderId r) →
  (userId = recipientId r ∧ friendId = senderId r)
  ∨ (userId = senderId r ∧ friendId = recipientId r) →
  (remove_friend userId friendId None (accept (recipientId r) requestId None db).1).2
    = json "Friend removed"
  ∧ (∀ a b,
       b ∈ friends_of
             (remove_friend userId friendId None
                (accept (recipientId r) requestId None db).1).1 a
       ↔ b ∈ friends_of db a)
  ∧ status_of
      (remove_friend userId friendId None (accept (recipientId r) requestId None db).1).1
      requestId
    = Some accepted.
Proof.
  intros Hr Hs Hur Hus Hnot1 Hnot2 Hwho.
  destruct (accept_friend_relation db requestId r Hr Hs Hur Hus) as (Hst & Hdom & Hrel).
  destruct (remove_friend_outcome userId friendId
              (accept (recipientId r) requestId None db).1)
    as (Hans & Hreq & _ & Hrel').
  { apply Hdom. by destruct Hwho as [[-> _] | [-> _]]. }
  { apply Hdom. by destruct Hwho as [[_ ->] | [_ ->]]. }
  split; [done |]. split.
  - intros a b. rewrite Hrel', Hrel.
    destruct Hwho as [[-> ->] | [-> ->]]; split.
    + intros [[? | [[-> ->] | [-> ->]]] [? ?]]; tauto.
    + intros Hb. split; [by left |]. split; intros [-> ->]; done.
    + intros [[? | [[-> ->] | [-> ->]]] [? ?]]; tauto.
    + intros Hb. split; [by left |]. split; intros [-> ->]; done.
  - unfold status_of in *. by rewrite Hreq.
Qed.

Lemma accept_then_remove_friend_witness :
  (remove_friend "ann" "ben" None (accept "ben" "req1" None friends_db).1).2
    = json "Friend removed"
  ∧ (∀ a b,
       b ∈ friends_of
             (remove_friend "ann" "ben" None (accept "ben" "req1" None friends_db).1).1 a
       ↔ b ∈ friends_of friends_db a)
  ∧ status_of (remove_friend "ann" "ben" None (accept "ben" "req1" None friends_db).1).1
      "req1"
    = Some accepted.
Proof.
  apply (accept_then_remove_friend friends_db "req1" ann_asks_ben "ann" "ben").
  - reflexivity.
  - reflexivity.
  - exists ben. reflexivity.
  - exists ann. reflexivity.
  - apply (bool_decide_unpack _). vm_compute. exact I.
  - apply (bool_decide_unpack _). vm_compute. exact I.
  - right. split; reflexivity.
Defined.

Lemma pending_between_insert s r n q db :
  friendRequests db !! n = None →
  pending_between s r db = ∅ →
  pending_between s r
    {| users := users db; friendRequests := <[n := q]> (friendRequests db) |}
  = if decide (senderId q = s ∧ recipientId q = r ∧ status q = pending)
    then {[ n := q ]} else ∅.
Proof.
  intros Hn Hnone. unfold pending_between in *. cbn [friendRequests]. case_decide as Hq.
  - rewrite map_filter_insert_True by done. by rewrite Hnone.
  - rewrite map_filter_insert_False by done. by rewrite delete_id, Hnone.
Qed.

Lemma first_doc_id_singleton n q : first_doc_id {[ n := q ]} = Some n.
Proof. unfold first_doc_id. by rewrite map_to_list_singleton. Qed.

Lemma first_doc_id_empty : first_doc_id ∅ = None.
Proof. unfold first_doc_id. by rewrite map_to_list_empty. Qed.

(** A request that was just sent can be cancelled by its sender, which
    puts the store back exactly as it was before the request; the
    recipient cannot cancel it, and with nothing pending the route answers
    404 and writes nothing. *)
Theorem send_then_cancel (userId recipientId newId : string) (db : Db) :
  recipientId ≠ userId →
  is_Some (users db !! recipientId) →
  recipientId ∉ friends_of db userId →
  pending_between userId recipientId db = ∅ →
  pending_between recipientId userId db = ∅ →
  friendRequests db !! newId = None →
  cancel_request userId recipientId None
    (send_request userId recipientId newId None db).1
  = (db, json "Friend request cancelled")
  ∧ cancel_request recipientId userId None
      (send_request userId recipientId newId None db).1
    = ((send_request userId recipientId newId None db).1,
       status_json 404 "Friend request not found")
  ∧ cancel_request userId recipientId None db
    = (db, status_json 404 "Friend request not found").
Proof.
  intros Hne [recipientData Hrd] Hfriends Hout Hin Hfresh.
  rewrite (send_request_created _ _ _ _ recipientData) by done. cbn [fst].
  unfold cancel_request. rewrite !throws_None.
  rewrite !pending_between_insert by done.
  cbn [Firestore.senderId Firestore.recipientId Firestore.status].
  rewrite decide_True by done.
  rewrite decide_False by (intros (? & ? & _); congruence).
  rewrite first_doc_id_singleton, Hout, first_doc_id_empty. cbn [users friendRequests].
  split; [| done]. rewrite delete_insert_id by done. by destruct db.
Qed.

Lemma send_then_cancel_witness :
  cancel_request "ann" "ben" None
    (send_request "ann" "ben" "req2" None (reject "ben" "req1" None friends_db).1).1
  = ((reject "ben" "req1" None friends_db).1, json "Friend request cancelled")
  ∧ cancel_request "ben" "ann" None
      (send_request "ann" "ben" "req2" None (reject "ben" "req1" None friends_db).1).1
    = ((send_request "ann" "ben" "req2" None (reject "ben" "req1" None friends_db).1).1,
       status_json 404 "Friend request not found")
  ∧ cancel_request "ann" "ben" None (reject "ben" "req1" None friends_db).1
    = ((reject "ben" "req1" None friends_db).1,
       status_json 404 "Friend request not found").
Proof.
  apply (send_then_cancel "ann" "ben" "req2" (reject "ben" "req1" None friends_db).1).
  - discriminate.
  - exists ben. reflexivity.
  - apply (bool_decide_unpack _). vm_compute. exact I.
  - apply (bool_decide_unpack _). vm_compute. exact I.
  - apply (bool_decide_unpack _). vm_compute. exact I.
  - reflexivity.
Defined.

End FriendRoutesFacts.

(** ** What the recipient reads *)

Module HookFacts.
Import Encryption UseEncryption UseDecryption EncryptionFacts UseEncryptionFacts.

Lemma substring_all (s : string) : String.substring 0 (String.length s) s = s.
Proof. induction s as [| c s IH]; [done |]. cbn. by rewrite IH. Qed.

Lemma prefix_lock (ciphertext : string) :
  String.prefix "🔒" ("🔒" +:+ ciphertext) = true.
Proof. unfold String.append. cbn. by destruct ciphertext. Qed.

Lemma substring_lock (ciphertext : string) :
  String.substring 4 (String.length ("🔒" +:+ ciphertext) - 4) ("🔒" +:+ ciphertext)
  = ciphertext.
Proof. unfold String.append. cbn. by rewrite Nat.sub_0_r, substring_all. Qed.

Lemma decrypt_locked (P : Platform) (sk : PrivateKey P) (ciphertext : string) :
  decrypt P (Some sk) ("🔒" +:+ ciphertext)
  = match decryptMessage P ciphertext sk with
    | Resolved text => text
    | Rejected _ => "[Unable to decrypt message]"
    end.
Proof. unfold decrypt. by rewrite prefix_lock, substring_lock. Qed.

Section Hook.
Variable P : Platform.
Variable keypair : PublicKey P → PrivateKey P → Prop.

Hypothesis rsa_encrypts : ∀ pk sk seed data,
  keypair pk sk → length data = 32 →
  ∃ c, rsa_oaep_encrypt P pk seed data = Some c ∧ (N.of_nat (length c) < 4294967296)%N.
Hypothesis rsa_decrypts : ∀ pk sk seed data c,
  keypair pk sk → rsa_oaep_encrypt P pk seed data = Some c →
  rsa_oaep_decrypt P sk c = Some data.
Hypothesis rsa_rejects : ∀ pk sk' seed data c,
  ¬ keypair pk sk' → rsa_oaep_encrypt P pk seed data = Some c →
  rsa_oaep_decrypt P sk' c = None.
Hypothesis aes_encrypts : ∀ key iv data,
  length key = 32 → length iv = 12 → is_Some (aes_gcm_encrypt P key iv data).
Hypothesis aes_decrypts : ∀ key iv data c,
  aes_gcm_encrypt P key iv data = Some c → aes_gcm_decrypt P key iv c = Some data.
Hypothesis atob_btoa : ∀ binary, atob P (btoa P binary) = Some binary.

Lemma encryptMessage_opens (e : Entropy) (message : string)
    (pk : PublicKey P) (sk : PrivateKey P) :
  keypair pk sk →
  length (aesKey e) = 32 → length (iv e) = 12 →
  ∃ blob,
    encryptMessage P e message pk = Resolved blob
    ∧ decryptMessage P blob sk
      = Resolved (TextDecoder_decode P (TextEncoder_encode P message))
    ∧ ∀ sk', ¬ keypair pk sk' →
             decryptMessage P blob sk' = Resolved "[Unable to decrypt message]".
Proof.
  intros Hpair Hkey Hiv.
  destruct (aes_encrypts (aesKey e) (iv e) (TextEncoder_encode P message) Hkey Hiv)
    as [em Hem].
  destruct (rsa_encrypts pk sk (oaep_seed e) (aesKey e) Hpair Hkey) as (ek & Hek & Hlen).
  unfold encryptMessage. rewrite Hem, Hek, (combine_concat _ _ _ Hiv).
  eexists. split; [reflexivity |]. unfold decryptMessage. split.
  - rewrite (decrypt_try_of_combined P atob_btoa sk _ _ _ Hiv Hlen).
    rewrite (rsa_decrypts pk sk _ _ _ Hpair Hek). cbn [mbind option_bind].
    unfold importKey_raw. rewrite decide_True by tauto. cbn [mbind option_bind].
    by rewrite (aes_decrypts _ _ _ _ Hem).
  - intros sk' Hmis. rewrite (decrypt_try_of_combined P atob_btoa sk' _ _ _ Hiv Hlen).
    by rewrite (rsa_rejects pk sk' _ _ _ Hmis Hek).
Qed.

(** Through the hook, what is sent is what is read: for a message that
    the platform's decoder gives back from its encoding (no leading byte
    order mark) and that does not itself start with the lock sign,
    whichever way [encrypt] goes (not ready, no key for the recipient,
    or encrypted under the key it found), [decrypt] with the recipient's
    private key gives the message back.  A plain message that does start
    with the lock sign goes out as it is when encryption is not ready,
    and [decrypt] takes what follows the sign for a ciphertext: without
    a key it shows "[Encrypted message - key not available]", with one
    it shows what [decryptMessage] makes of it. *)
Theorem hook_roundtrip (isReady : bool) (e : Entropy) (fetched : FetchResult)
    (message recipientId : string) (cache : gmap string (PublicKey P))
    (sk : PrivateKey P) :
  (∀ pk, (getRecipientPublicKey P fetched recipientId cache).1 = Some pk → keypair pk sk) →
  length (aesKey e) = 32 →
  length (iv e) = 12 →
  TextDecoder_decode P (TextEncoder_encode P message) = message →
  String.prefix "🔒" message = false →
  decrypt P (Some sk) (encrypt P isReady e fetched message recipientId cache).1 = message
  ∧ (∀ rest privateKeyRef,
       (encrypt P false e fetched ("🔒" +:+ rest) recipientId cache).1 = "🔒" +:+ rest
       ∧ decrypt P privateKeyRef ("🔒" +:+ rest)
         = match privateKeyRef with
           | None => "[Encrypted message - key not available]"
           | Some privateKey =>
               match decryptMessage P rest privateKey with
               | Resolved text => text
               | Rejected _ => "[Unable to decrypt message]"
               end
           end).
Proof.
  intros Hkeys Hkey Hiv Htext Hplain. split.
  - assert (decrypt P (Some sk) message = message) as Hsame.
    { unfold decrypt. by rewrite Hplain. }
    unfold encrypt. destruct isReady; cbn [negb]; [| done].
    destruct (getRecipientPublicKey P fetched recipientId cache) as [[pk |] cache'];
      [| done].
    destruct (encryptMessage_opens e message pk sk (Hkeys pk eq_refl) Hkey Hiv)
      as (blob & -> & Hopen & _).
    cbn [fst]. by rewrite decrypt_locked, Hopen, Htext.
  - intros rest privateKeyRef. split; [done |].
    destruct privateKeyRef as [privateKey |]; [apply decrypt_locked |].
    unfold decrypt. by rewrite prefix_lock.
Qed.

(** A key once in [publicKeyCache] stays for the life of the page:
    later calls never ask the directory again, so when the recipient has
    replaced their key pair since, messages are still encrypted under
    the old key and the recipient reads "[Unable to decrypt message]". *)
Theorem cached_key_outlives_rotation (first later : list Call) (recipientId : string)
    (old : PublicKey P) (e : Entropy) (fetched : FetchResult) (message : string)
    (sk sk' : PrivateKey P) :
  cache_after P first !! recipientId = Some old →
  keypair old sk →
  ¬ keypair old sk' →
  length (aesKey e) = 32 →
  length (iv e) = 12 →
  getRecipientPublicKey P fetched recipientId (cache_after P (first ++ later))
  = (Some old, cache_after P (first ++ later))
  ∧ decrypt P (Some sk')
      (encrypt P true e fetched message recipientId (cache_after P (first ++ later))).1
    = "[Unable to decrypt message]".
Proof.
  intros Hold Hpair Hmis Hkey Hiv.
  assert (cache_after P (first ++ later) !! recipientId = Some old) as Hkept.
  { unfold cache_after in *. rewrite foldl_app.
    revert Hold. generalize (foldl
      (λ cache c, (encrypt P (call_isReady c) (call_entropy c) (call_fetched c)
                     (call_message c) (call_recipientId c) cache).2) ∅ first).
    induction later as [| c later IH]; intros cache Hold; [done |].
    cbn [foldl]. apply IH. rewrite encrypt_cache. destruct (call_isReady c); [| done].
    destruct (decide (call_recipientId c = recipientId)) as [<- | Hne].
    - unfold getRecipientPublicKey. by rewrite Hold.
    - by rewrite getRecipientPublicKey_other. }
  assert (getRecipientPublicKey P fetched recipientId (cache_after P (first ++ later))
          = (Some old, cache_after P (first ++ later))) as Hget.
  { unfold getRecipientPublicKey. by rewrite Hkept. }
  split; [done |]. unfold encrypt. cbn [negb]. rewrite Hget.
  destruct (encryptMessage_opens e message old sk Hpair Hkey Hiv)
    as (blob & -> & _ & Hother).
  cbn [fst]. by rewrite decrypt_locked, (Hother sk' Hmis).
Qed.

End Hook.

Lemma hook_roundtrip_witness :
  decrypt toy (Some "K"%byte) (encrypt toy true toy_entropy ben_key "hi Ben" "ben" ∅).1
  = "hi Ben"
  ∧ (∀ rest privateKeyRef,
       (encrypt toy false toy_entropy ben_key ("🔒" +:+ rest) "ben" ∅).1 = "🔒" +:+ rest
       ∧ decrypt toy privateKeyRef ("🔒" +:+ rest)
         = match privateKeyRef with
           | None => "[Encrypted message - key not available]"
           | Some privateKey =>
               match decryptMessage toy rest privateKey with
               | Resolved text => text
               | Rejected _ => "[Unable to decrypt message]"
               end
           end).
Proof.
  apply (hook_roundtrip toy eq toy_rsa_encrypts toy_rsa_decrypts toy_rsa_rejects
           (λ key iv data _ _, mk_is_Some _ _ eq_refl) toy_aes_decrypts
           (λ binary, eq_refl) true toy_entropy ben_key "hi Ben" "ben" ∅ "K"%byte).
  - intros pk Hpk. vm_compute in Hpk. by injection Hpk as <-.
  - reflexivity.
  - reflexivity.
  - reflexivity.
  - reflexivity.
Defined.

(** Sent while encryption is not ready, a note that starts with the lock
    sign is shown as "[Unable to decrypt message]" by a recipient who
    holds a key, and a message with a leading byte order mark comes back
    without it. *)
Example plain_lock_message_misread :
  (encrypt toy false toy_entropy ben_key "🔒 keep out" "ben" ∅).1 = "🔒 keep out"
  ∧ decrypt toy (Some "K"%byte) "🔒 keep out" = "[Unable to decrypt message]"
  ∧ decrypt toy (Some "K"%byte)
      (encrypt toy true toy_entropy ben_key
         (string_of_list_byte [xef; xbb; xbf; "h"%byte; "i"%byte]) "ben" ∅).1
    = "hi".
Proof. vm_compute. done. Qed.

Lemma cached_key_outlives_rotation_witness :
  getRecipientPublicKey toy (fetch_response 200 (Some "N")) "ben"
    (cache_after toy (earlier ++ []))
  = (Some "K"%byte, cache_after toy (earlier ++ []))
  ∧ decrypt toy (Some "N"%byte)
      (encrypt toy true toy_entropy (fetch_response 200 (Some "N")) "hello" "ben"
         (cache_after toy (earlier ++ []))).1
    = "[Unable to decrypt message]".
Proof.
  apply (cached_key_outlives_rotation toy eq toy_rsa_encrypts toy_rsa_decrypts
           toy_rsa_rejects (λ key iv data _ _, mk_is_Some _ _ eq_refl) toy_aes_decrypts
           (λ binary, eq_refl) earlier [] "ben" "K"%byte toy_entropy
           (fetch_response 200 (Some "N")) "hello" "K"%byte "N"%byte).
  - reflexivity.
  - reflexivity.
  - discriminate.
  - reflexivity.
  - reflexivity.
Defined.

End HookFacts.

(** ** Keys across reloads *)

Module KeyStorageFacts.
Import Encryption KeyStorage EncryptionFacts.

Lemma truthy_Some (s : string) : s ≠ "" → Js.truthy (Some s) = true.
Proof. intros Hs. cbn. by destruct (String.eqb_spec s ""). Qed.

(** When nothing usable is stored, [initializeEncryption] generates a
    pair, stores both halves and resolves to them; every later call on
    that storage resolves to the same public key and private key without
    generating anything and without writing.  If no pair can be
    generated it rejects and stores nothing. *)
Theorem keys_survive_reload (K : KeyPlatform)
    (pk : PublicKey (base K)) (sk : PrivateKey (base K)) (spki pkcs8 : list byte)
    (localStorage : LocalStorage) :
  (∀ binary, atob (base K) (btoa (base K) binary) = Some binary) →
  exportKey_spki K pk = Some spki →
  exportKey_pkcs8 K sk = Some pkcs8 →
  importKey_pkcs8 K pkcs8 = Some sk →
  arrayBufferToBase64 (base K) spki ≠ "" →
  arrayBufferToBase64 (base K) pkcs8 ≠ "" →
  hasStoredKeys localStorage = false ∨ getStoredPrivateKey K localStorage = None →
  initializeEncryption K (Some (pk, sk)) localStorage
  = (Resolved (arrayBufferToBase64 (base K) spki, sk),
     <[PRIVATE_KEY_STORAGE_KEY := arrayBufferToBase64 (base K) pkcs8]>
       (<[PUBLIC_KEY_STORAGE_KEY := arrayBufferToBase64 (base K) spki]> localStorage))
  ∧ (∀ generated,
       initializeEncryption K generated
         (initializeEncryption K (Some (pk, sk)) localStorage).2
       = (Resolved (arrayBufferToBase64 (base K) spki, sk),
          (initializeEncryption K (Some (pk, sk)) localStorage).2))
  ∧ initializeEncryption K None localStorage = (Rejected "OperationError", localStorage).
Proof.
  intros Hb64 Hspki Hpkcs8 Himport Hpub Hpriv Hnone.
  assert (∀ generated,
            initializeEncryption K generated localStorage
            = match generated with
              | None => (Rejected "OperationError", localStorage)
              | Some keyPair =>
                  match storeKeys K keyPair localStorage with
                  | None => (Rejected "OperationError", localStorage)
                  | Some localStorage =>
                      match exportPublicKey K keyPair.1 with
                      | None => (Rejected "OperationError", localStorage)
                      | Some publicKey => (Resolved (publicKey, keyPair.2), localStorage)
                      end
                  end
              end) as Hfresh.
  { intros generated. unfold initializeEncryption.
    destruct Hnone as [-> | ->]; [done |]. by destruct (hasStoredKeys localStorage). }
  assert (initializeEncryption K (Some (pk, sk)) localStorage
          = (Resolved (arrayBufferToBase64 (base K) spki, sk),
             <[PRIVATE_KEY_STORAGE_KEY := arrayBufferToBase64 (base K) pkcs8]>
               (<[PUBLIC_KEY_STORAGE_KEY := arrayBufferToBase64 (base K) spki]>
                  localStorage))) as Hfirst.
  { rewrite Hfresh. unfold storeKeys, exportPublicKey, exportPrivateKey. cbn [fst snd].
    by rewrite Hspki, Hpkcs8. }
  split; [done |]. split; [| by rewrite Hfresh].
  intros generated. rewrite Hfirst. cbn [snd]. unfold initializeEncryption.
  assert (hasStoredKeys
            (<[PRIVATE_KEY_STORAGE_KEY := arrayBufferToBase64 (base K) pkcs8]>
               (<[PUBLIC_KEY_STORAGE_KEY := arrayBufferToBase64 (base K) spki]>
                  localStorage)) = true) as ->.
  { unfold hasStoredKeys. rewrite lookup_insert_eq, lookup_insert_ne by done.
    rewrite lookup_insert_eq. by rewrite !truthy_Some. }
  unfold getStoredPrivateKey, getStoredPublicKey.
  rewrite lookup_insert_eq, lookup_insert_ne by done. rewrite lookup_insert_eq.
  rewrite truthy_Some by done. cbn [negb mbind option_bind].
  unfold importPrivateKey. rewrite (base64_roundtrip (base K) Hb64). cbn [mbind option_bind].
  by rewrite Himport.
Qed.

Lemma keys_survive_reload_witness :
  initializeEncryption toy_keys (Some ("K"%byte, "K"%byte)) ∅
  = (Resolved (arrayBufferToBase64 (base toy_keys) ["K"%byte], "K"%byte),
     <[PRIVATE_KEY_STORAGE_KEY := arrayBufferToBase64 (base toy_keys) ["K"%byte]]>
       (<[PUBLIC_KEY_STORAGE_KEY := arrayBufferToBase64 (base toy_keys) ["K"%byte]]> ∅))
  ∧ (∀ generated,
       initializeEncryption toy_keys generated
         (initializeEncryption toy_keys (Some ("K"%byte, "K"%byte)) ∅).2
       = (Resolved (arrayBufferToBase64 (base toy_keys) ["K"%byte], "K"%byte),
          (initializeEncryption toy_keys (Some ("K"%byte, "K"%byte)) ∅).2))
  ∧ initializeEncryption toy_keys None ∅ = (Rejected "OperationError", ∅).
Proof.
  apply (keys_survive_reload toy_keys "K"%byte "K"%byte ["K"%byte] ["K"%byte] ∅).
  - reflexivity.
  - reflexivity.
  - reflexivity.
  - reflexivity.
  - discriminate.
  - discriminate.
  - left. reflexivity.
Defined.

End KeyStorageFacts.

(** ** The history of a conversation *)

Module DmHistoryFacts.
Import Firestore Store Relay DmHistory RelayMore.

(** While the Firestore query fails, [GET /dm/:friendId] serves the
    relay's buffer: after a direct message from an identified
    connection, the recipient, who lists the sender as a friend, gets a
    history that ends with that message, and so does the sender if they
    list the recipient.  Who is not listed as a friend by the one who
    asks gets 403 and no message, whatever the stores hold; only the
    list of the one who asks is looked at. *)
Theorem dm_history_from_buffer (socket : AuthenticatedSocket)
    (data : PrivateMessageData.PrivateMessageData) (messageId now : string)
    (addDoc_ok : bool) (st : Relay.State) (uid : string) (db : Db) :
  odlserId socket = Some uid →
  uid ≠ "" →
  uid ∈ Friends.friends_of db (PrivateMessageData.recipientId data) →
  (∃ messages message,
     get_dm_history (PrivateMessageData.recipientId data) uid None None db
       (messageStore (send_private_message socket data messageId now addDoc_ok st).1)
     = json_messages messages
     ∧ last messages = Some message
     ∧ _id message = messageId
     ∧ content message = PrivateMessageData.content data
     ∧ sender message = uid
     ∧ get_dm_history uid (PrivateMessageData.recipientId data) None None db
         (messageStore (send_private_message socket data messageId now addDoc_ok st).1)
       = if decide (PrivateMessageData.recipientId data ∈ Friends.friends_of db uid)
         then json_messages messages
         else status_json 403 "You can only chat with friends")
  ∧ (∀ asker other firestore messageStore,
       other ∉ Friends.friends_of db asker →
       get_dm_history asker other None firestore db messageStore
       = status_json 403 "You can only chat with friends").
Proof.
  intros Huid Hne Hfriend. split.
  - unfold send_private_message. rewrite Huid.
    destruct (String.eqb_spec uid ""); [done |].
    cbn [fst messageStore with_messageStore].
    eexists _, {| _id := messageId;
                  content := PrivateMessageData.content data;
                  sender := uid;
                  senderUsername := Js.or_default (username socket) "Unknown";
                  room := Room.dmRoom uid (PrivateMessageData.recipientId data);
                  type := Js.or_default (PrivateMessageData.type data) "text";
                  time := now |}.
    split.
    { unfold get_dm_history. rewrite FriendsFacts.throws_None.
      rewrite decide_True by done.
      rewrite (dmRoom_swap (PrivateMessageData.recipientId data) uid).
      by rewrite StoreFacts.read_add_same. }
    split; [apply last_trim_snoc |].
    split; [reflexivity |]. split; [reflexivity |]. split; [reflexivity |].
    unfold get_dm_history. rewrite FriendsFacts.throws_None.
    case_decide; [| done]. by rewrite StoreFacts.read_add_same.
  - intros asker other firestore ms Hnot. unfold get_dm_history.
    rewrite FriendsFacts.throws_None. by rewrite decide_False.
Qed.

Lemma dm_history_from_buffer_witness :
  (∃ messages message,
     get_dm_history (PrivateMessageData.recipientId RelayRuns.to_bob) "alice" None None
       chat_db
       (messageStore
          (send_private_message alice RelayRuns.to_bob "msg_2" "t" false general_room).1)
     = json_messages messages
     ∧ last messages = Some message
     ∧ _id message = "msg_2"
     ∧ content message = PrivateMessageData.content RelayRuns.to_bob
     ∧ sender message = "alice"
     ∧ get_dm_history "alice" (PrivateMessageData.recipientId RelayRuns.to_bob) None None
         chat_db
         (messageStore
            (send_private_message alice RelayRuns.to_bob "msg_2" "t" false general_room).1)
       = if decide (PrivateMessageData.recipientId RelayRuns.to_bob
                      ∈ Friends.friends_of chat_db "alice")
         then json_messages messages
         else status_json 403 "You can only chat with friends")
  ∧ (∀ asker other firestore messageStore,
       other ∉ Friends.friends_of chat_db asker →
       get_dm_history asker other None firestore chat_db messageStore
       = status_json 403 "You can only chat with friends").
Proof.
  apply (dm_history_from_buffer alice RelayRuns.to_bob "msg_2" "t" false general_room
           "alice" chat_db).
  - reflexivity.
  - discriminate.
  - apply (bool_decide_unpack _). vm_compute. exact I.
Defined.

End DmHistoryFacts.

(** ** What the client shows *)

Module ClientFacts.
Import Client.

Lemma typing_absent (l : list TypingUser) (uid : option string) (r : string) :
  uid = None →
  Forall (λ u, userId u = None) l →
  existsb (λ u, bool_decide (userId u = uid ∧ room u = r)) l = false →
  r ∉ room <$> l.
Proof.
  intros -> Hnone Hex Hin. apply list_elem_of_fmap in Hin as (u & -> & Hu).
  apply not_true_iff_false in Hex. apply Hex.
  apply existsb_exists. exists u. split; [by apply list_elem_of_In |].
  apply bool_decide_eq_true. split; [| done].
  by apply (proj1 (Forall_forall _ _) Hnone).
Qed.

Lemma typing_invariant listening (actions : list Action) : ∀ s,
  NoDup (room <$> typingUsers s) → Forall (λ u, userId u = None) (typingUsers s) →
  NoDup (room <$> typingUsers (run listening actions s))
  ∧ Forall (λ u, userId u = None) (typingUsers (run listening actions s)).
Proof.
  induction actions as [| a actions IH]; intros s Hdup Hnone; [done |].
  cbn [run foldl]. apply IH.
  - destruct a as [e | r]; [| done]. destruct e; cbn [act on]; try done.
    + by case_decide.
    + destruct (String.eqb _ ""); [done |]. by case_decide.
    + unfold addTypingUser. cbn [typingUsers with_typingUsers userId room].
      destruct (existsb _ (typingUsers s)) eqn:Hex; [done |].
      rewrite fmap_app. apply NoDup_app. split; [done |]. split.
      * intros x Hx ->%list_elem_of_singleton. by apply (typing_absent _ None _ eq_refl Hnone Hex).
      * apply NoDup_singleton.
    + unfold removeTypingUser. cbn [typingUsers with_typingUsers].
      eapply sublist_NoDup; [exact Hdup |]. apply fmap_sublist, sublist_filter.
  - destruct a as [e | r]; [| done]. destruct e; cbn [act on]; try done.
    + by case_decide.
    + destruct (String.eqb _ ""); [done |]. by case_decide.
    + unfold addTypingUser. cbn [typingUsers with_typingUsers userId room].
      destruct (existsb _ (typingUsers s)); [done |].
      apply Forall_app. split; [done |]. by apply Forall_singleton.
    + unfold removeTypingUser. cbn [typingUsers with_typingUsers].
      apply Forall_forall. intros t [_ Ht]%list_elem_of_filter.
      by apply (proj1 (Forall_forall _ _) Hnone).
Qed.

(** The relay's typing events name the typist in [odlserId] while the
    store compares [userId], so the typing list holds at most one entry
    per room: while somebody is shown typing in a room, another typist
    there is not added, and when anybody stops typing in a room the
    room's entry goes, whoever it showed. *)
Theorem typing_list_one_per_room (listening : string) (actions : list Action) :
  NoDup (room <$> typingUsers (run listening actions initial))
  ∧ (∀ odlserId' username' room',
       room' ∈ room <$> typingUsers (run listening actions initial) →
       typingUsers (on listening (Relay.user_typing odlserId' username' room')
                      (run listening actions initial))
       = typingUsers (run listening actions initial))
  ∧ (∀ odlserId' username' room',
       room' ∉ room <$> typingUsers
                          (on listening (Relay.user_stopped_typing odlserId' username' room')
                             (run listening actions initial))).
Proof.
  destruct (typing_invariant listening actions initial) as [Hdup Hnone];
    [apply NoDup_nil_2 | apply Forall_nil_2 |].
  split; [done |]. split.
  - intros o u r Hin. cbn [on]. unfold addTypingUser.
    cbn [typingUsers with_typingUsers userId room].
    destruct (existsb _ _) eqn:Hex; [done |].
    by destruct (typing_absent _ None _ eq_refl Hnone Hex).
  - intros o u r Hin. cbn [on] in Hin. unfold removeTypingUser in Hin.
    cbn [typingUsers with_typingUsers] in Hin.
    apply list_elem_of_fmap in Hin as (t & -> & [Hkeep Ht]%list_elem_of_filter).
    apply Hkeep. split; [| done]. by apply (proj1 (Forall_forall _ _) Hnone).
Qed.

(** The listeners compare a message's room with the [currentRoom] they
    closed over when they were registered, not with the one on screen:
    a direct message that arrives while its conversation is open is put
    last in the conversation and, unless that conversation was the
    current room when the listeners were registered, counted as unread. *)
Theorem unread_ignores_room_on_screen (listening : string) (s : State)
    (m : Store.StoredMessage) :
  Store.room m ≠ "" →
  currentRoom
    (run listening
       [SelectFriend (Store.room m); Receive (Relay.receive_private_message m)] s)
  = Store.room m
  ∧ last (default []
            (messages
               (run listening
                  [SelectFriend (Store.room m); Receive (Relay.receive_private_message m)] s)
             !! Store.room m))
    = Some (private_message m)
  ∧ unreadCounts
      (run listening
         [SelectFriend (Store.room m); Receive (Relay.receive_private_message m)] s)
    !! Store.room m
    = Some (if decide (Store.room m = listening) then 0 else 1).
Proof.
  intros Hroom. cbn [run foldl act on].
  destruct (String.eqb_spec (Store.room m) ""); [done |].
  destruct (decide (Store.room m = listening)) as [Heq | Hne].
  - rewrite decide_False by (by intros ?).
    cbn [addMessage clearUnread setCurrentRoom with_messages with_unreadCounts
         currentRoom messages unreadCounts].
    rewrite !lookup_insert_eq. split; [done |]. split; [| done].
    apply last_snoc.
  - rewrite decide_True by done.
    cbn [incrementUnread addMessage clearUnread setCurrentRoom with_messages
         with_unreadCounts currentRoom messages unreadCounts].
    rewrite !lookup_insert_eq. split; [done |]. split; [| done].
    apply last_snoc.
Qed.

Lemma unread_ignores_room_on_screen_witness :
  currentRoom
    (run "general"
       [SelectFriend (Store.room from_bob); Receive (Relay.receive_private_message from_bob)]
       initial)
  = Store.room from_bob
  ∧ last (default []
            (messages
               (run "general"
                  [SelectFriend (Store.room from_bob);
                   Receive (Relay.receive_private_message from_bob)]
                  initial)
             !! Store.room from_bob))
    = Some (private_message from_bob)
  ∧ unreadCounts
      (run "general"
         [SelectFriend (Store.room from_bob);
          Receive (Relay.receive_private_message from_bob)]
         initial)
    !! Store.room from_bob
    = Some (if decide (Store.room from_bob = "general") then 0 else 1).
Proof.
  apply (unread_ignores_room_on_screen "general" initial from_bob).
  vm_compute. discriminate.
Defined.

(** The relay announces presence with the user in [odlserId]; the
    listener hands [data.userId] to [updateFriendStatus], which then
    matches no friend: a presence event leaves every friend's status in
    the list as it was. *)
Theorem presence_event_changes_no_friend (odlserId' username' : option string)
    (status' : string) (friends : list Friend) :
  on_user_status_change odlserId' username' status' friends = friends.
Proof.
  unfold on_user_status_change, updateFriendStatus.
  induction friends as [| friend friends IH]; [done |].
  cbn [fmap list_fmap]. rewrite decide_False by discriminate. f_equal. exact IH.
Qed.

End ClientFacts.

(** ** The frame of an encrypted message *)

Module FrameFacts.
Import Encryption EncryptionFacts.

(** The buffer [encryptMessage] assembles from a 12-byte IV, an
    encrypted key and an encrypted message never overflows, is 16 bytes
    longer than the two together, and is cut by the slices of
    [decryptMessage] into the same IV, key length, encrypted key and
    encrypted message. *)
Theorem frame_roundtrip (iv encryptedKey encryptedMessage : list byte) :
  length iv = 12 →
  (N.of_nat (length encryptedKey) < 4294967296)%N →
  ∃ combined,
    combine iv encryptedKey encryptedMessage = Some combined
    ∧ length combined = 16 + length encryptedKey + length encryptedMessage
    ∧ slice 0 12 combined = iv
    ∧ Uint32Array_first (slice 12 16 combined)
      = Some (Some (N.of_nat (length encryptedKey)))
    ∧ slice 16 (16 + length encryptedKey) combined = encryptedKey
    ∧ slice_from (16 + length encryptedKey) combined = encryptedMessage.
Proof.
  intros Hiv Hlen. eexists. split; [by apply combine_concat |].
  destruct (combined_parts iv (Uint32_bytes (N.of_nat (length encryptedKey)))
              encryptedKey encryptedMessage Hiv eq_refl) as (H1 & H2 & H3 & H4).
  split; [| split; [done |]; split; [| done]].
  - rewrite !length_app, Hiv, Uint32_bytes_length. lia.
  - rewrite H2. by apply Uint32_roundtrip.
Qed.

Lemma frame_roundtrip_witness :
  ∃ combined,
    combine (replicate 12 x07) [x01; x02] [x03] = Some combined
    ∧ length combined = 16 + length [x01; x02] + length [x03]
    ∧ slice 0 12 combined = replicate 12 x07
    ∧ Uint32Array_first (slice 12 16 combined)
      = Some (Some (N.of_nat (length [x01; x02])))
    ∧ slice 16 (16 + length [x01; x02]) combined = [x01; x02]
    ∧ slice_from (16 + length [x01; x02]) combined = [x03].
Proof.
  apply (frame_roundtrip (replicate 12 x07) [x01; x02] [x03]).
  - reflexivity.
  - reflexivity.
Defined.

End FrameFacts.

(** ** Friend request notifications *)

Module FriendEventFacts.
Import Relay.

Lemma notify_user_offline st userId ev :
  userSockets st !! userId = None → notify_user st userId ev = [].
Proof. intros Hoff. unfold notify_user. by rewrite Hoff. Qed.

Lemma notify_user_online st userId rsid ev :
  userSockets st !! userId = Some rsid → rsid ≠ "" →
  adapter st !! rsid = Some {[ rsid ]} →
  notify_user st userId ev = [(rsid, ev)].
Proof.
  intros Hon Hne Hroom. unfold notify_user. rewrite Hon.
  destruct (String.eqb_spec rsid ""); [done |].
  unfold io_to_emit, members. rewrite Hroom.
  change (default ∅ (Some ({[ rsid ]} : gset string))) with ({[ rsid ]} : gset string).
  by rewrite elements_singleton.
Qed.

(** The three friend request events are relayed without a look at the
    friend requests themselves: they change no relay state, reach nobody
    when the addressed user has no connection on record, and otherwise
    reach that user's connection alone (its private room holding only
    itself), carrying the user id and name of the socket that sent
    them. *)
Theorem friend_events_relayed (socket : AuthenticatedSocket) (userId : string)
    (st : State) :
  (send_friend_request socket userId st).1 = st
  ∧ (accept_friend_request socket userId st).1 = st
  ∧ (reject_friend_request socket userId st).1 = st
  ∧ (userSockets st !! userId = None →
     (send_friend_request socket userId st).2 = []
     ∧ (accept_friend_request socket userId st).2 = []
     ∧ (reject_friend_request socket userId st).2 = [])
  ∧ (∀ rsid,
       userSockets st !! userId = Some rsid → rsid ≠ "" →
       adapter st !! rsid = Some {[ rsid ]} →
       (send_friend_request socket userId st).2
       = [(rsid, friend_request_received (odlserId socket) (username socket))]
       ∧ (accept_friend_request socket userId st).2
         = [(rsid, friend_request_accepted (odlserId socket) (username socket))]
       ∧ (reject_friend_request socket userId st).2
         = [(rsid, friend_request_rejected (odlserId socket))]).
Proof.
  split; [done |]. split; [done |]. split; [done |]. split.
  - intros Hoff. unfold send_friend_request, accept_friend_request, reject_friend_request.
    cbn [snd]. by rewrite !notify_user_offline.
  - intros rsid Hon Hne Hroom.
    unfold send_friend_request, accept_friend_request, reject_friend_request. cbn [snd].
    by rewrite !(notify_user_online st userId rsid).
Qed.

End FriendEventFacts.
